(** * Open Screen: the portable network address model

    A shallow embedding of
    - [platform/base/ip_address.h], [platform/base/ip_address.cc]
      (the value types [IPAddress] and [IPEndpoint], their parsers, their
      ordering and their text output),
    - [platform/impl/socket_address_posix.cc] (conversion from and to the
      native socket addresses),
    - the enumeration of the network interfaces through [getifaddrs]
      (prefix lengths and the walk over the interface list),
    - [osp/impl/quic/quic_utils.cc] ([ToQuicheIpAddress]) and the address
      argument of the standalone sender ([ParseAsEndpoint]), which use
      them,
    followed by the properties the specification states about them and
    by further properties of the same code.

    Conventions.  A [uint8_t], [uint16_t] or [uint32_t] is a [Z]; the
    places where the C++ code wraps around are written out.  A
    [std::string_view] is a list of characters.  An [ErrorOr<T>] is a
    sum.  A fatal check ([OSP_CHECK]) that fails is the result [None].
    Calls into the operating system are fields of a [Platform] record, so
    that every statement holds for every operating system that can answer
    them. *)

From Stdlib Require Import ZArith String Ascii List Bool Lia.
Import ListNotations.
Local Open Scope Z_scope.

(** ** Text *)

Definition str := list ascii.

Definition lit (s : string) : str := list_ascii_of_string s.

Definition code (c : ascii) : Z := Z.of_N (N_of_ascii c).

Fixpoint str_eqb (a b : str) : bool :=
  match a, b with
  | [], [] => true
  | x :: a', y :: b' => Ascii.eqb x y && str_eqb a' b'
  | _, _ => false
  end.

(** [starts_with pat s]: [s] begins with [pat]. *)
Fixpoint starts_with (pat s : str) : bool :=
  match pat, s with
  | [], _ => true
  | p :: pat', c :: s' => Ascii.eqb p c && starts_with pat' s'
  | _ :: _, [] => false
  end.

(** [std::string_view::find]: the first position where [pat] occurs,
    [None] for [npos]. *)
Fixpoint find (pat s : str) : option nat :=
  if starts_with pat s then Some O
  else match s with
       | [] => None
       | _ :: s' => option_map S (find pat s')
       end.

(** [std::string_view::rfind]: the last position where [pat] occurs. *)
Fixpoint rfind (pat s : str) : option nat :=
  match s with
  | [] => if starts_with pat [] then Some O else None
  | _ :: s' =>
      match rfind pat s' with
      | Some i => Some (S i)
      | None => if starts_with pat s then Some O else None
      end
  end.

(** [std::count(s.begin(), s.end(), c)]. *)
Fixpoint count_char (c : ascii) (s : str) : Z :=
  match s with
  | [] => 0
  | x :: s' => (if Ascii.eqb x c then 1 else 0) + count_char c s'
  end.

(** [s.substr(pos, n)] and [s.substr(pos)], for [pos <= s.size()]. *)
Definition substr (s : str) (pos n : nat) : str := firstn n (skipn pos s).
Definition substr_from (s : str) (pos : nat) : str := skipn pos s.

Definition option_nat_eqb (a b : option nat) : bool :=
  match a, b with
  | Some x, Some y => Nat.eqb x y
  | None, None => true
  | _, _ => false
  end.

(** ** [std::from_chars] for integers

    The pattern is that of [strtol] in the C locale without leading
    white space, without a base prefix, with no plus sign, and with a
    minus sign for signed types only.  All the digits of the pattern are
    consumed even when the value does not fit. *)

Inductive errc := errc_ok | invalid_argument | result_out_of_range.

Record from_chars_result := {
  fc_value : Z;      (* the parsed value, the old value on an error *)
  fc_rest : str;     (* the text from [ptr] on *)
  fc_ec : errc
}.

Definition digit_value (c : ascii) : option Z :=
  let n := code c in
  if (48 <=? n) && (n <=? 57) then Some (n - 48)
  else if (97 <=? n) && (n <=? 122) then Some (n - 87)
  else if (65 <=? n) && (n <=? 90) then Some (n - 55)
  else None.

Definition digit_in (base : Z) (c : ascii) : option Z :=
  match digit_value c with
  | Some d => if d <? base then Some d else None
  | None => None
  end.

(** The longest prefix of digits of [base], as digit values, and the rest. *)
Fixpoint span_digits (base : Z) (s : str) : list Z * str :=
  match s with
  | [] => ([], [])
  | c :: s' =>
      match digit_in base c with
      | Some d => let (ds, rest) := span_digits base s' in (d :: ds, rest)
      | None => ([], s)
      end
  end.

Definition digits_value (base : Z) (ds : list Z) : Z :=
  fold_left (fun acc d => acc * base + d) ds 0.

Definition from_chars_unsigned (base max : Z) (s : str) (old : Z)
  : from_chars_result :=
  match span_digits base s with
  | ([], _) => {| fc_value := old; fc_rest := s; fc_ec := invalid_argument |}
  | (ds, rest) =>
      let v := digits_value base ds in
      if v <=? max
      then {| fc_value := v; fc_rest := rest; fc_ec := errc_ok |}
      else {| fc_value := old; fc_rest := rest; fc_ec := result_out_of_range |}
  end.

Definition from_chars_signed (base min max : Z) (s : str) (old : Z)
  : from_chars_result :=
  match s with
  | c :: s' =>
      if Ascii.eqb c "-"%char then
        match span_digits base s' with
        | ([], _) =>
            {| fc_value := old; fc_rest := s; fc_ec := invalid_argument |}
        | (ds, rest) =>
            let v := - digits_value base ds in
            if min <=? v
            then {| fc_value := v; fc_rest := rest; fc_ec := errc_ok |}
            else {| fc_value := old; fc_rest := rest;
                    fc_ec := result_out_of_range |}
        end
      else from_chars_unsigned base max s old
  | [] => from_chars_unsigned base max s old
  end.

Definition UINT8_MAX : Z := 255.
Definition UINT16_MAX : Z := 65535.
Definition UINT32_MAX : Z := 4294967295.
Definition INT_MIN : Z := -2147483648.
Definition INT_MAX : Z := 2147483647.

(** ** Errors *)

Inductive ErrorCode :=
  kInvalidIPV4Address | kInvalidIPV6Address | kParseError.

Record Error := { error_code : ErrorCode; error_message : string }.

Definition ErrorOf (c : ErrorCode) : Error :=
  {| error_code := c; error_message := EmptyString |}.

Inductive ErrorOr (T : Type) :=
| Value (v : T)
| Failure (e : Error).
Arguments Value {T} v.
Arguments Failure {T} e.

Definition is_value {T} (r : ErrorOr T) : bool :=
  match r with Value _ => true | Failure _ => false end.

Definition is_error {T} (r : ErrorOr T) : bool := negb (is_value r).

(** ** [IPAddress] *)

Inductive Version := kV4 | kV6.

Definition Version_eqb (a b : Version) : bool :=
  match a, b with
  | kV4, kV4 | kV6, kV6 => true
  | _, _ => false
  end.

(** The order of the enumerators: [kV4] is 0 and [kV6] is 1. *)
Definition Version_ltb (a b : Version) : bool :=
  match a, b with
  | kV4, kV6 => true
  | _, _ => false
  end.

Definition kV4Size : nat := 4.
Definition kV6Size : nat := 16.

Record IPAddress := {
  version_ : Version;
  bytes_ : list Z;          (* std::array<uint8_t, 16> *)
  scope_id_ : Z             (* uint32_t, 0 unless set *)
}.

Definition version (a : IPAddress) : Version := version_ a.

Definition size (a : IPAddress) : nat :=
  match version_ a with kV4 => kV4Size | kV6 => kV6Size end.

Definition IsV4 (a : IPAddress) : bool := Version_eqb (version_ a) kV4.
Definition IsV6 (a : IPAddress) : bool := Version_eqb (version_ a) kV6.
Definition GetScopeId (a : IPAddress) : Z := scope_id_ a.

(** [bytes()]: the first [size()] bytes of the storage. *)
Definition bytes (a : IPAddress) : list Z := firstn (size a) (bytes_ a).

(** [static_cast<uint8_t>]. *)
Definition to_uint8 (x : Z) : Z := x mod 256.

(** The default constructor: version 4, storage zeroed. *)
Definition IPAddress_default : IPAddress :=
  {| version_ := kV4; bytes_ := repeat 0 16; scope_id_ := 0 |}.

(** [IPAddress(b1, b2, b3, b4)] and [IPAddress(span<const uint8_t, 4>)]:
    the aggregate initialisation zeroes the other twelve bytes. *)
Definition IPAddress_v4 (b1 b2 b3 b4 : Z) : IPAddress :=
  {| version_ := kV4; bytes_ := [b1; b2; b3; b4] ++ repeat 0 12;
     scope_id_ := 0 |}.

(** [IPAddress(h0, ..., h7)]: each hextet gives two bytes, high byte
    first. *)
Definition hextet_bytes (h : Z) : list Z :=
  [to_uint8 (Z.shiftr h 8); to_uint8 h].

Definition IPAddress_v6 (h0 h1 h2 h3 h4 h5 h6 h7 : Z) : IPAddress :=
  {| version_ := kV6;
     bytes_ := hextet_bytes h0 ++ hextet_bytes h1 ++ hextet_bytes h2 ++
               hextet_bytes h3 ++ hextet_bytes h4 ++ hextet_bytes h5 ++
               hextet_bytes h6 ++ hextet_bytes h7;
     scope_id_ := 0 |}.

(** [IPAddress(span<const uint16_t, 8>)]. *)
Definition IPAddress_of_hextets (h : list Z) : IPAddress :=
  IPAddress_v6 (nth 0 h 0) (nth 1 h 0) (nth 2 h 0) (nth 3 h 0)
               (nth 4 h 0) (nth 5 h 0) (nth 6 h 0) (nth 7 h 0).

(** [IPAddress(Version, span<const uint8_t>)]: an assertion on the length
    of the span, then [size()] bytes are copied.  The constructor leaves
    the rest of the storage unset; [old] stands for what the storage held
    before. *)
Definition IPAddress_of_span (old : list Z) (v : Version) (b : list Z)
  : option IPAddress :=
  let n := match v with kV4 => kV4Size | kV6 => kV6Size end in
  if (n <=? length b)%nat
  then Some {| version_ := v; bytes_ := firstn n b ++ skipn n old;
               scope_id_ := 0 |}
  else None.

(** [IPAddress(span<const uint8_t, 16>, uint32_t scope_id)]: the sixteen
    bytes and the scope id are stored as they are given. *)
Definition IPAddress_scoped (b : list Z) (scope_id : Z) : IPAddress :=
  {| version_ := kV6; bytes_ := firstn 16 b; scope_id_ := scope_id |}.

Fixpoint bytes_eqb (a b : list Z) : bool :=
  match a, b with
  | [], [] => true
  | x :: a', y :: b' => (x =? y) && bytes_eqb a' b'
  | _, _ => false
  end.

(** [operator==]: the version, the first [size()] bytes, the scope id. *)
Definition IPAddress_eqb (a o : IPAddress) : bool :=
  Version_eqb (version_ a) (version_ o) &&
  bytes_eqb (firstn (size a) (bytes_ a)) (firstn (size a) (bytes_ o)) &&
  (scope_id_ a =? scope_id_ o).

Definition IPAddress_neqb (a o : IPAddress) : bool := negb (IPAddress_eqb a o).

(** [explicit operator bool]: some byte among the first [size()] is not 0. *)
Definition IPAddress_bool (a : IPAddress) : bool :=
  existsb (fun b => negb (b =? 0)) (firstn (size a) (bytes_ a)).

(** [CopyTo(span)]: the assertion on the span's length, then a copy of
    [size()] bytes to the front of [dst]. *)
Definition CopyTo (a : IPAddress) (dst : list Z) : option (list Z) :=
  if (size a <=? length dst)%nat
  then Some (firstn (size a) (bytes_ a) ++ skipn (size a) dst)
  else None.

(** [IsLinkLocal]: version 6 and the prefix fe80::/10. *)
Definition IsLinkLocal (a : IPAddress) : bool :=
  if negb (IsV6 a) then false
  else (nth 0 (bytes_ a) 0 =? 254) &&
       (Z.land (nth 1 (bytes_ a) 0) 192 =? 128).

(** [memcmp] on the first [n] bytes: negative, zero or positive. *)
Fixpoint memcmp (a b : list Z) (n : nat) {struct n} : Z :=
  match n with
  | O => 0
  | S n' =>
      match a, b with
      | x :: a', y :: b' =>
          if x =? y then memcmp a' b' n'
          else if x <? y then -1 else 1
      | _, _ => 0
      end
  end.

(** [operator<]. *)
Definition IPAddress_ltb (a other : IPAddress) : bool :=
  if negb (Version_eqb (version a) (version other))
  then Version_ltb (version a) (version other)
  else if IsV4 a
  then memcmp (bytes_ a) (bytes_ other) 4 <? 0
  else
    let cmp := memcmp (bytes_ a) (bytes_ other) 16 in
    if negb (cmp =? 0) then cmp <? 0
    else scope_id_ a <? scope_id_ other.

(** [operator>], [operator<=], [operator>=] of the header. *)
Definition IPAddress_gtb (a other : IPAddress) : bool := IPAddress_ltb other a.
Definition IPAddress_leb (a other : IPAddress) : bool :=
  negb (IPAddress_ltb other a).
Definition IPAddress_geb (a other : IPAddress) : bool :=
  negb (IPAddress_ltb a other).

(** ** Native socket addresses and the operating system

    The structures of [<netinet/in.h>], [<net/if_dl.h>] and [<ifaddrs.h>],
    field by field.  An address field is the list of its bytes in memory;
    a port field holds the number as the structure stores it (in network
    byte order). *)

Record sockaddr_in := {
  sin_family : Z;
  sin_port : Z;
  sin_addr : list Z;       (* the four bytes of sin_addr.s_addr *)
  sin_zero : list Z
}.

Record sockaddr_in6 := {
  sin6_family : Z;
  sin6_port : Z;
  sin6_flowinfo : Z;
  sin6_addr : list Z;      (* the sixteen bytes of sin6_addr.s6_addr *)
  sin6_scope_id : Z
}.

Record sockaddr_dl := {
  sdl_family : Z;
  sdl_alen : nat;
  sdl_lladdr : list Z      (* the bytes LLADDR points to *)
}.

(** A [sockaddr*] as the code reads it: through [sa_family], and through
    the structure of that family. *)
Inductive sockaddr :=
| SockaddrIn (sa : sockaddr_in)
| SockaddrIn6 (sa : sockaddr_in6)
| SockaddrDl (sa : sockaddr_dl)
| SockaddrOther (family : Z).

Definition sa_family (a : sockaddr) : Z :=
  match a with
  | SockaddrIn sa => sin_family sa
  | SockaddrIn6 sa => sin6_family sa
  | SockaddrDl sa => sdl_family sa
  | SockaddrOther f => f
  end.

Record ifaddrs := {
  ifa_name : str;
  ifa_flags : Z;
  ifa_addr : option sockaddr;       (* None: a null pointer *)
  ifa_netmask : option sockaddr
}.

Record ifmediareq := {
  ifm_status : Z;
  ifm_current : Z
}.

(** What the platform provides: the constants of its headers and the
    answers of its calls. *)
Record Platform := {
  IS_POSIX : bool;
  little_endian : bool;
  AF_INET : Z;
  AF_INET6 : Z;
  AF_LINK : Z;
  IFF_RUNNING : Z;
  IFF_LOOPBACK : Z;
  IFM_AVALID : Z;
  IFM_ACTIVE : Z;
  IFM_IEEE80211 : Z;
  IFM_ETHER : Z;
  IN6_IFF_DEPRECATED : Z;
  IFNAMSIZ : nat;
  (* the index of the interface of that name, 0 when there is none *)
  if_nametoindex : str -> Z;
  (* the name of the interface of that index, None for a null result *)
  if_indextoname : Z -> option str;
  (* ioctl(SIOCGIFMEDIA) on an interface name: return value, ifmr *)
  ioctl_SIOCGIFMEDIA : str -> Z * ifmediareq;
  (* ioctl(SIOCGIFAFLAG_IN6) on a name and an address: return value,
     ifru_flags *)
  ioctl_SIOCGIFAFLAG_IN6 : str -> sockaddr -> Z * Z;
  (* getifaddrs: None when it fails, the list of records otherwise *)
  getifaddrs : option (list ifaddrs)
}.

(** [std::string(s).c_str()]: the text up to the first NUL. *)
Fixpoint c_str (s : str) : str :=
  match s with
  | [] => []
  | c :: s' => if Ascii.eqb c zero then [] else c :: c_str s'
  end.

(** ** Parsing addresses *)

(** The loop shared in shape by [ParseV4] and [ParseV6]: [k] more values
    of [base], at most [max] each, the value of index [i > 0] preceded by
    [sep].  The result is the values and the text left, [None] when the
    loop returns an error. *)
Fixpoint scan_values (sep : ascii) (base max : Z) (k i : nat) (s : str)
  : option (list Z * str) :=
  match k with
  | O => Some ([], s)
  | S k' =>
      let after_sep :=
        if (0 <? i)%nat then
          match s with
          | c :: s' => if Ascii.eqb c sep then Some s' else None
          | [] => None
          end
        else Some s in
      match after_sep with
      | None => None
      | Some s1 =>
          let result := from_chars_unsigned base max s1 0 in
          match fc_ec result with
          | errc_ok =>
              match scan_values sep base max k' (S i) (fc_rest result) with
              | Some (vs, rest) => Some (fc_value result :: vs, rest)
              | None => None
              end
          | _ => None
          end
      end
  end.

Definition ParseV4 (s : str) : ErrorOr IPAddress :=
  match scan_values "."%char 10 UINT8_MAX 4 0 s with
  | Some (octets, []) =>
      Value (IPAddress_v4 (nth 0 octets 0) (nth 1 octets 0)
                          (nth 2 octets 0) (nth 3 octets 0))
  | _ => Failure (ErrorOf kInvalidIPV4Address)
  end.

Definition kDoubleColon : str := lit "::".

(** Conversion to [int]. *)
Definition to_int (x : Z) : Z := (x + 2147483648) mod 4294967296 - 2147483648.

(** [while (--n > 0) expanded << "0:"]. *)
Definition zero_groups (n : Z) : str :=
  concat (repeat (lit "0:") (Z.to_nat (n - 1))).

Definition ExpandIPv6DoubleColon (s : str) : str :=
  match find kDoubleColon s with
  | None => s
  | Some double_colon_position =>
      if negb (option_nat_eqb (Some double_colon_position)
                              (rfind kDoubleColon s))
      then []
      else
        let num_single_colons := to_int (count_char ":"%char s - 2) in
        let num_zero_groups_to_insert := 8 - num_single_colons in
        let '(expanded, num_zero_groups_to_insert) :=
          if negb (double_colon_position =? 0)%nat
          then (substr s 0 (double_colon_position + 1),
                num_zero_groups_to_insert - 1)
          else ([], num_zero_groups_to_insert) in
        let num_zero_groups_to_insert :=
          if negb (double_colon_position =? length s - 2)%nat
          then num_zero_groups_to_insert - 1
          else num_zero_groups_to_insert in
        let expanded := expanded ++ zero_groups num_zero_groups_to_insert in
        let expanded := expanded ++ lit "0" in
        if negb (double_colon_position =? length s - 2)%nat
        then expanded ++ substr_from s (double_colon_position + 1)
        else expanded
  end.

(** The scope id of [ParseV6] for the text after the percent sign.
    [interface_index] is the call of [if_nametoindex], made on POSIX
    only; [parse_scope_id] is the index of the interface of that name,
    else the text read as a positive decimal number, else 0. *)
Definition interface_index (os : Platform) (scope_name : str) : Z :=
  if IS_POSIX os then if_nametoindex os (c_str scope_name) else 0.

Definition parse_scope_id (os : Platform) (scope_name : str) : Z :=
  let scope_id := interface_index os scope_name in
  if scope_id =? 0 then
    let result := from_chars_unsigned 10 UINT32_MAX scope_name 0 in
    match fc_ec result, fc_rest result with
    | errc_ok, [] => if 0 <? fc_value result then fc_value result else scope_id
    | _, _ => scope_id
    end
  else scope_id.

(** The assignment [address.scope_id_ = scope_id]. *)
Definition set_scope_id (a : IPAddress) (scope_id : Z) : IPAddress :=
  {| version_ := version_ a; bytes_ := bytes_ a; scope_id_ := scope_id |}.

Definition ParseV6 (os : Platform) (s : str) : ErrorOr IPAddress :=
  let scope_pos := find (lit "%") s in
  let address_part :=
    match scope_pos with Some p => substr s 0 p | None => s end in
  let scope_id :=
    match scope_pos with
    | Some p => parse_scope_id os (substr_from s (p + 1))
    | None => 0
    end in
  if match scope_pos with Some _ => scope_id =? 0 | None => false end
  then Failure (ErrorOf kInvalidIPV6Address)
  else
    let scan_input := ExpandIPv6DoubleColon address_part in
    match scan_values ":"%char 16 UINT16_MAX 8 0 scan_input with
    | Some (hextets, []) =>
        let address := IPAddress_of_hextets hextets in
        if negb (scope_id =? 0) then
          if negb (IsLinkLocal address)
          then Failure (ErrorOf kInvalidIPV6Address)
          else Value (set_scope_id address scope_id)
        else Value address
    | _ => Failure (ErrorOf kInvalidIPV6Address)
    end.

(** [IPAddress::Parse]: version 4 first, then version 6. *)
Definition Parse (os : Platform) (s : str) : ErrorOr IPAddress :=
  match ParseV4 s with
  | Value a => Value a
  | Failure _ => ParseV6 os s
  end.

(** ** [IPEndpoint] *)

Record IPEndpoint := {
  address : IPAddress;
  port : Z                (* uint16_t *)
}.

Definition kAnyV4 : IPEndpoint :=
  {| address := IPAddress_default; port := 0 |}.

Definition kAnyV6 : IPEndpoint :=
  {| address := IPAddress_v6 0 0 0 0 0 0 0 0; port := 0 |}.

Definition IPEndpoint_bool (e : IPEndpoint) : bool :=
  IPAddress_bool (address e) || negb (port e =? 0).

Definition ParseError (msg : string) : Error :=
  {| error_code := kParseError; error_message := msg |}.

Definition char_at (s : str) (i : nat) : ascii := nth i s zero.

Definition IPEndpoint_Parse (os : Platform) (s : str) : ErrorOr IPEndpoint :=
  match rfind (lit ":") s with
  | None => Failure (ParseError "missing colon separator")
  | Some colon_pos =>
      if (colon_pos =? 0)%nat
      then Failure (ParseError "missing address before colon")
      else if (colon_pos =? length s - 1)%nat
      then Failure (ParseError "missing port after colon")
      else
        let address :=
          if Ascii.eqb (char_at s 0) "["%char &&
             Ascii.eqb (char_at s (colon_pos - 1)) "]"%char
          then ParseV6 os (substr s 1 (colon_pos - 2))
          else ParseV4 (substr s 0 colon_pos) in
        match address with
        | Failure _ => Failure (ParseError "invalid address part")
        | Value a =>
            let port_part := substr_from s (colon_pos + 1) in
            let result := from_chars_signed 10 INT_MIN INT_MAX port_part 0 in
            let port := fc_value result in
            match fc_ec result, fc_rest result with
            | errc_ok, [] =>
                if (port <? 0) || (UINT16_MAX <? port)
                then Failure (ParseError "invalid port part")
                else Value {| address := a; port := port |}
            | _, _ => Failure (ParseError "invalid port part")
            end
        end
  end.

Definition IPEndpoint_eqb (a b : IPEndpoint) : bool :=
  IPAddress_eqb (address a) (address b) && (port a =? port b).

Definition IPEndpoint_ltb (a b : IPEndpoint) : bool :=
  if IPAddress_neqb (address a) (address b)
  then IPAddress_ltb (address a) (address b)
  else port a <? port b.

(** ** Text output *)

Definition digit_char (d : Z) : ascii :=
  ascii_of_N (Z.to_N (if d <? 10 then 48 + d else 87 + d)).

(** The digits of [n] in [base], most significant first, lower case;
    [fuel] bounds the number of digits. *)
Fixpoint show_digits (fuel : nat) (base n : Z) (acc : str) : str :=
  match fuel with
  | O => acc
  | S fuel' =>
      let acc' := digit_char (n mod base) :: acc in
      if n / base =? 0 then acc'
      else show_digits fuel' base (n / base) acc'
  end.

(** [out << n] for a non-negative integer in the base of the stream. *)
Definition show_unsigned (base n : Z) : str :=
  show_digits (S (Z.to_nat (Z.log2 n))) base n [].

(** [std::setw(width)] with [std::setfill(fill)] and [std::right]. *)
Definition pad_left (width : nat) (fill : ascii) (s : str) : str :=
  repeat fill (width - length s) ++ s.

(** The loop over [bytes()] of [operator<<]. *)
Fixpoint show_bytes (base : Z) (separator : ascii)
         (values_per_separator value_width : nat) (i : nat) (bs : list Z)
  : str :=
  match bs with
  | [] => []
  | b :: bs' =>
      (if (0 <? i)%nat && (i mod values_per_separator =? 0)%nat
       then [separator] else []) ++
      pad_left value_width "0"%char (show_unsigned base b) ++
      show_bytes base separator values_per_separator value_width (S i) bs'
  end.

(** [operator<<(std::ostream&, const IPAddress&)] on a stream in its
    initial state.  The base set for the bytes ([std::dec] or [std::hex])
    stays on the stream, and the scope id is written in it. *)
Definition IPAddress_print (os : Platform) (a : IPAddress) : str :=
  let '(base, separator, values_per_separator, value_width) :=
    if IsV4 a then (10, "."%char, 1%nat, 0%nat)
    else (16, ":"%char, 2%nat, 2%nat) in
  let out :=
    show_bytes base separator values_per_separator value_width 0 (bytes a) in
  if IsLinkLocal a && negb (GetScopeId a =? 0) then
    if IS_POSIX os then
      match if_indextoname os (GetScopeId a) with
      | Some ifname => out ++ lit "%" ++ ifname
      | None => out ++ lit "%" ++ show_unsigned base (GetScopeId a)
      end
    else out ++ lit "%" ++ show_unsigned base (GetScopeId a)
  else out.

(** [operator<<(std::ostream&, const IPEndpoint&)]. *)
Definition IPEndpoint_print (os : Platform) (e : IPEndpoint) : str :=
  (if IsV6 (address e) then lit "[" else []) ++
  IPAddress_print os (address e) ++
  (if IsV6 (address e) then lit "]" else []) ++
  lit ":" ++ show_unsigned 10 (port e).

(** ** Conversion from and to native socket addresses *)

(** Swapping the two bytes of a 16-bit number. *)
Definition bswap16 (x : Z) : Z :=
  Z.lor (Z.shiftl (Z.land x 255) 8) (Z.land (Z.shiftr x 8) 255).

(** [htons] and [ntohs]: network byte order is big-endian. *)
Definition htons (os : Platform) (x : Z) : Z :=
  if little_endian os then bswap16 x else x.
Definition ntohs (os : Platform) (x : Z) : Z :=
  if little_endian os then bswap16 x else x.

(** [IPAddress(Version, span)] as the decoders use it.  The constructor
    leaves the storage after the first [size()] bytes unset and no member
    reads it; the model holds zeros there. *)
Definition IPAddress_from_span (v : Version) (b : list Z) : option IPAddress :=
  IPAddress_of_span (repeat 0 16) v b.

(** [GetIPAddressFromSockAddr(const sockaddr_in&)]. *)
Definition GetIPAddressFromSockAddr_in (sa : sockaddr_in) : option IPAddress :=
  IPAddress_from_span kV4 (firstn 4 (sin_addr sa)).

(** [GetIPAddressFromSockAddr(const sockaddr_in6&)]. *)
Definition GetIPAddressFromSockAddr_in6 (sa : sockaddr_in6) : IPAddress :=
  IPAddress_scoped (sin6_addr sa) (sin6_scope_id sa).

(** [ToSockAddrIn]: the check on the version, then a zeroed structure is
    filled in. *)
Definition ToSockAddrIn (os : Platform) (endpoint : IPEndpoint)
  : option sockaddr_in :=
  if negb (IsV4 (address endpoint)) then None
  else
    match CopyTo (address endpoint) (repeat 0 4) with
    | Some b =>
        Some {| sin_family := AF_INET os;
                sin_port := htons os (port endpoint);
                sin_addr := b;
                sin_zero := repeat 0 8 |}
    | None => None
    end.

(** [ToSockAddrIn6]. *)
Definition ToSockAddrIn6 (os : Platform) (endpoint : IPEndpoint)
  : option sockaddr_in6 :=
  if negb (IsV6 (address endpoint)) then None
  else
    let scope_id :=
      if IsLinkLocal (address endpoint) &&
         negb (GetScopeId (address endpoint) =? 0)
      then GetScopeId (address endpoint) else 0 in
    match CopyTo (address endpoint) (repeat 0 16) with
    | Some b =>
        Some {| sin6_family := AF_INET6 os;
                sin6_port := htons os (port endpoint);
                sin6_flowinfo := 0;
                sin6_addr := b;
                sin6_scope_id := scope_id |}
    | None => None
    end.

(** The union [internal_address_] of [SocketAddressPosix]. *)
Inductive SocketAddressInternal :=
| InternalV4 (v4 : sockaddr_in)
| InternalV6 (v6 : sockaddr_in6).

(** [SocketAddressPosix::RecomputeEndpoint(version)]: the endpoint read
    back from the native structure. *)
Definition RecomputeEndpoint (os : Platform) (internal : SocketAddressInternal)
  : option IPEndpoint :=
  match internal with
  | InternalV4 v4 =>
      match GetIPAddressFromSockAddr_in v4 with
      | Some a => Some {| address := a; port := ntohs os (sin_port v4) |}
      | None => None
      end
  | InternalV6 v6 =>
      Some {| address := GetIPAddressFromSockAddr_in6 v6;
              port := ntohs os (sin6_port v6) |}
  end.

(** [SocketAddressPosix(const IPEndpoint&)]: the native structure chosen
    by the version of the address. *)
Definition SocketAddressPosix_of_endpoint (os : Platform) (endpoint : IPEndpoint)
  : option SocketAddressInternal :=
  if IsV4 (address endpoint)
  then option_map InternalV4 (ToSockAddrIn os endpoint)
  else option_map InternalV6 (ToSockAddrIn6 os endpoint).

(** ** Network interfaces *)

Inductive InterfaceType := kEthernet | kWifi | kLoopback | kOther.

Record IPSubnet := {
  subnet_address : IPAddress;
  prefix_length : Z
}.

Record InterfaceInfo := {
  index : Z;
  hardware_address : list Z;
  name : str;
  type : InterfaceType;
  addresses : list IPSubnet
}.

(** The first loop of [ToPrefixLength]: the bytes 0xff at the front, eight
    bits each, in a [uint8_t]. *)
Fixpoint leading_ff (netmask : list Z) (result : Z) : Z * list Z :=
  match netmask with
  | b :: rest =>
      if b =? 255 then leading_ff rest (to_uint8 (result + 8))
      else (result, netmask)
  | [] => (result, [])
  end.

(** The loop over the bits of the first byte that is not 0xff:
    [while (last_byte & 0x80) { ++result; last_byte <<= 1; }].  The
    result is the byte and the count when the loop ends, [None] when
    [fuel] iterations were not enough. *)
Fixpoint leading_bits (fuel : nat) (last_byte result : Z) : option (Z * Z) :=
  if Z.land last_byte 128 =? 0 then Some (last_byte, result)
  else match fuel with
       | O => None
       | S fuel' =>
           leading_bits fuel' (to_uint8 (Z.shiftl last_byte 1))
                        (to_uint8 (result + 1))
       end.

(** The last loop: every byte left is checked to be 0. *)
Definition all_zero (netmask : list Z) : bool :=
  forallb (fun b => b =? 0) netmask.

(** [ToPrefixLength]; [None] when a check fails. *)
Definition ToPrefixLength (netmask : list Z) : option Z :=
  let '(result, rest) := leading_ff netmask 0 in
  match rest with
  | b :: rest' =>
      if negb (b =? 0) then
        match leading_bits 8 b result with
        | Some (last_byte, result') =>
            if last_byte =? 0
            then if all_zero rest' then Some result' else None
            else None
        | None => None
        end
      else if all_zero rest then Some result else None
  | [] => Some result
  end.

Definition as_sockaddr_in (a : sockaddr) : option sockaddr_in :=
  match a with SockaddrIn sa => Some sa | _ => None end.
Definition as_sockaddr_in6 (a : sockaddr) : option sockaddr_in6 :=
  match a with SockaddrIn6 sa => Some sa | _ => None end.
Definition as_sockaddr_dl (a : sockaddr) : option sockaddr_dl :=
  match a with SockaddrDl sa => Some sa | _ => None end.

(** [std::find_if] by name: the position of the first entry of that
    name. *)
Fixpoint find_interface (n : str) (results : list InterfaceInfo) : option nat :=
  match results with
  | [] => None
  | info :: rest =>
      if str_eqb (name info) n then Some O
      else option_map S (find_interface n rest)
  end.

(** The entry at position [i] replaced by [f] of it. *)
Fixpoint update_at (i : nat) (f : InterfaceInfo -> InterfaceInfo)
         (results : list InterfaceInfo) : list InterfaceInfo :=
  match results, i with
  | [], _ => []
  | info :: rest, O => f info :: rest
  | info :: rest, S i' => info :: update_at i' f rest
  end.

Definition set_hardware_address (hw : list Z) (info : InterfaceInfo)
  : InterfaceInfo :=
  {| index := index info; hardware_address := hw; name := name info;
     type := type info; addresses := addresses info |}.

Definition add_address (subnet : IPSubnet) (info : InterfaceInfo)
  : InterfaceInfo :=
  {| index := index info; hardware_address := hardware_address info;
     name := name info; type := type info;
     addresses := addresses info ++ [subnet] |}.

(** [strncpy(dst, src, sizeof(dst) - 1)] into a zeroed field. *)
Definition strncpy_name (os : Platform) (src : str) : str :=
  firstn (IFNAMSIZ os - 1) src.

Definition flag_set (flags mask : Z) : bool := negb (Z.land flags mask =? 0).

(** The type of a name seen for the first time, [None] when the
    interface is to be skipped. *)
Definition classify (os : Platform) (cur : ifaddrs) : option InterfaceType :=
  let '(ret, ifmr) := ioctl_SIOCGIFMEDIA os (strncpy_name os (ifa_name cur)) in
  if 0 <=? ret then
    if negb (flag_set (ifm_status ifmr) (IFM_AVALID os) &&
             flag_set (ifm_status ifmr) (IFM_ACTIVE os))
    then None
    else if flag_set (ifm_current ifmr) (IFM_IEEE80211 os) then Some kWifi
    else if flag_set (ifm_current ifmr) (IFM_ETHER os) then Some kEthernet
    else Some kOther
  else if flag_set (ifa_flags cur) (IFF_LOOPBACK os) then Some kLoopback
  else None.

(** The netmask bytes handed to [ToPrefixLength]: a zeroed array, filled
    from the netmask of the record when it has one of the family. *)
Definition netmask_bytes_in6 (os : Platform) (cur : ifaddrs) : list Z :=
  match ifa_netmask cur with
  | Some nm =>
      if sa_family nm =? AF_INET6 os then
        match as_sockaddr_in6 nm with
        | Some nm6 => firstn 16 (sin6_addr nm6)
        | None => repeat 0 16
        end
      else repeat 0 16
  | None => repeat 0 16
  end.

Definition netmask_bytes_in (os : Platform) (cur : ifaddrs) : list Z :=
  match ifa_netmask cur with
  | Some nm =>
      if sa_family nm =? AF_INET os then
        match as_sockaddr_in nm with
        | Some nm4 => firstn 4 (sin_addr nm4)
        | None => repeat 0 4
        end
      else repeat 0 4
  | None => repeat 0 4
  end.

(** The second half of the loop body: the address of the record [cur]
    goes to the entry at position [i].  [None]: a fatal check failed, or
    the record holds a structure that is not of its family. *)
Definition add_record_address (os : Platform) (results : list InterfaceInfo)
           (i : nat) (cur : ifaddrs) (addr : sockaddr)
  : option (list InterfaceInfo) :=
  if sa_family addr =? AF_LINK os then
    match as_sockaddr_dl addr with
    | Some addr_dl =>
        Some (update_at i
                (set_hardware_address
                   (firstn (sdl_alen addr_dl) (sdl_lladdr addr_dl)))
                results)
    | None => None
    end
  else if sa_family addr =? AF_INET6 os then
    let '(ret, flags) :=
      ioctl_SIOCGIFAFLAG_IN6 os (strncpy_name os (ifa_name cur)) addr in
    if negb (ret =? 0) || flag_set flags (IN6_IFF_DEPRECATED os)
    then Some results
    else
      match as_sockaddr_in6 addr with
      | Some addr_in6 =>
          let ip := GetIPAddressFromSockAddr_in6 addr_in6 in
          match ToPrefixLength (netmask_bytes_in6 os cur) with
          | Some len =>
              Some (update_at i
                      (add_address {| subnet_address := ip;
                                      prefix_length := len |})
                      results)
          | None => None
          end
      | None => None
      end
  else if sa_family addr =? AF_INET os then
    match as_sockaddr_in addr with
    | Some addr_in =>
        match GetIPAddressFromSockAddr_in addr_in with
        | Some ip =>
            match ToPrefixLength (netmask_bytes_in os cur) with
            | Some len =>
                Some (update_at i
                        (add_address {| subnet_address := ip;
                                        prefix_length := len |})
                        results)
            | None => None
            end
        | None => None
        end
    | None => None
    end
  else Some results.

Definition kUnknownHardwareAddress : list Z := [0; 0; 0; 0; 0; 0].

(** The entry [results.emplace_back(...)] makes for a new name. *)
Definition new_interface (os : Platform) (cur : ifaddrs) (ty : InterfaceType)
  : InterfaceInfo :=
  {| index := if_nametoindex os (ifa_name cur);
     hardware_address := kUnknownHardwareAddress;
     name := ifa_name cur;
     type := ty;
     addresses := [] |}.

(** [cur->ifa_addr] is not null. *)
Definition has_addr (cur : ifaddrs) : bool :=
  match ifa_addr cur with Some _ => true | None => false end.

(** One turn of the loop of [ProcessInterfacesList] on the record
    [cur]. *)
Definition process_record (os : Platform) (results : list InterfaceInfo)
           (cur : ifaddrs) : option (list InterfaceInfo) :=
  if negb (flag_set (ifa_flags cur) (IFF_RUNNING os)) || negb (has_addr cur)
  then Some results
  else
    match ifa_addr cur with
    | None => Some results
    | Some addr =>
        match find_interface (ifa_name cur) results with
        | Some i => add_record_address os results i cur addr
        | None =>
            match classify os cur with
            | None => Some results
            | Some ty =>
                let results' := results ++ [new_interface os cur ty] in
                add_record_address os results' (length results) cur addr
            end
        end
    end.

(** The walk over the list; [None] as soon as a turn ends in a failed
    check. *)
Fixpoint process_records (os : Platform) (results : list InterfaceInfo)
         (interfaces : list ifaddrs) : option (list InterfaceInfo) :=
  match interfaces with
  | [] => Some results
  | cur :: next =>
      match process_record os results cur with
      | Some results' => process_records os results' next
      | None => None
      end
  end.

Definition ProcessInterfacesList (os : Platform) (interfaces : list ifaddrs)
  : option (list InterfaceInfo) :=
  process_records os [] interfaces.


(** ** [SocketAddressPosix] made from a native address *)

(** The members of [SocketAddressPosix]. *)
Record SocketAddressPosix := {
  internal_address_ : SocketAddressInternal;
  endpoint_ : IPEndpoint
}.

(** [SocketAddressPosix(const struct sockaddr&)]: the structure of the
    family is copied and the endpoint read from it.  [None]: the family is
    neither [AF_INET] nor [AF_INET6] ([OSP_NOTREACHED]), or the structure
    given is not the one of its family. *)
Definition SocketAddressPosix_of_sockaddr (os : Platform) (address : sockaddr)
  : option SocketAddressPosix :=
  if sa_family address =? AF_INET os then
    match as_sockaddr_in address with
    | Some v4 =>
        match RecomputeEndpoint os (InternalV4 v4) with
        | Some e => Some {| internal_address_ := InternalV4 v4;
                            endpoint_ := e |}
        | None => None
        end
    | None => None
    end
  else if sa_family address =? AF_INET6 os then
    match as_sockaddr_in6 address with
    | Some v6 =>
        match RecomputeEndpoint os (InternalV6 v6) with
        | Some e => Some {| internal_address_ := InternalV6 v6;
                            endpoint_ := e |}
        | None => None
        end
    | None => None
    end
  else None.

(** [SocketAddressPosix::version()]. *)
Definition SocketAddressPosix_version (st : SocketAddressPosix) : Version :=
  version (address (endpoint_ st)).

(** ** The address handed to the QUIC library *)

(** Addition of two [int]; [None] when the sum is not an [int], which is
    undefined. *)
Definition int_add (x y : Z) : option Z :=
  if (INT_MIN <=? x + y) && (x + y <=? INT_MAX) then Some (x + y) else None.

(** [x << n] for an [int] [x] that is not negative: the value of that
    bit pattern. *)
Definition int_shl (x n : Z) : Z := to_int (Z.shiftl x n).

(** Conversion to [uint32_t]. *)
Definition to_uint32 (x : Z) : Z := x mod 4294967296.

(** What [quiche::QuicheIpAddress] is made from: an [in_addr] (its
    [s_addr]), an [in6_addr] (its sixteen bytes), or nothing. *)
Inductive QuicheIpAddress :=
| QuicheV4 (s_addr : Z)
| QuicheV6 (s6_addr : list Z)
| QuicheUninitialized.

(** [ToQuicheIpAddress]; [uninitialized] is what the local [in6_addr]
    holds before [CopyTo] writes it. *)
Definition ToQuicheIpAddress (uninitialized : list Z) (address : IPAddress)
  : option QuicheIpAddress :=
  if IsV4 address then
    let b := bytes address in
    match int_add (int_shl (nth 3 b 0) 24) (int_shl (nth 2 b 0) 16) with
    | Some s1 =>
        match int_add s1 (int_shl (nth 1 b 0) 8) with
        | Some s2 =>
            match int_add s2 (nth 0 b 0) with
            | Some s3 => Some (QuicheV4 (to_uint32 s3))
            | None => None
            end
        | None => None
        end
    | None => None
    end
  else if IsV6 address then
    match CopyTo address uninitialized with
    | Some result => Some (QuicheV6 result)
    | None => None
    end
  else Some QuicheUninitialized.

(** ** The address argument of the standalone sender *)

(** [ParseAsEndpoint]: the text read as an endpoint, else as an address
    with the default port, else the endpoint [IPEndpoint{}]. *)
Definition ParseAsEndpoint (os : Platform) (kDefaultCastPort : Z)
           (string_form : str) : IPEndpoint :=
  match IPEndpoint_Parse os string_form with
  | Value e => e
  | Failure _ =>
      match Parse os string_form with
      | Value a => {| address := a; port := kDefaultCastPort |}
      | Failure _ => {| address := IPAddress_default; port := 0 |}
      end
  end.

(** ** A platform to run the model on

    A little-endian POSIX system with the constants of the macOS headers
    and one interface, [lo0] of index 1. *)

Definition no_media : ifmediareq := {| ifm_status := 0; ifm_current := 0 |}.

Definition posix_lo : Platform := {|
  IS_POSIX := true;
  little_endian := true;
  AF_INET := 2;
  AF_INET6 := 30;
  AF_LINK := 18;
  IFF_RUNNING := 64;
  IFF_LOOPBACK := 8;
  IFM_AVALID := 1;
  IFM_ACTIVE := 2;
  IFM_IEEE80211 := 128;
  IFM_ETHER := 32;
  IN6_IFF_DEPRECATED := 16;
  IFNAMSIZ := 16%nat;
  if_nametoindex := fun n => if str_eqb n (lit "lo0") then 1 else 0;
  if_indextoname := fun i => if i =? 1 then Some (lit "lo0") else None;
  ioctl_SIOCGIFMEDIA := fun _ => (-1, no_media);
  ioctl_SIOCGIFAFLAG_IN6 := fun _ _ => (0, 0);
  getifaddrs := Some []
|}.


(** The platform [os] with another answer to the query of the flags of
    an IPv6 address. *)
Definition with_aflag (os : Platform) (q : str -> sockaddr -> Z * Z)
  : Platform :=
  {| IS_POSIX := IS_POSIX os; little_endian := little_endian os;
     AF_INET := AF_INET os; AF_INET6 := AF_INET6 os; AF_LINK := AF_LINK os;
     IFF_RUNNING := IFF_RUNNING os; IFF_LOOPBACK := IFF_LOOPBACK os;
     IFM_AVALID := IFM_AVALID os; IFM_ACTIVE := IFM_ACTIVE os;
     IFM_IEEE80211 := IFM_IEEE80211 os; IFM_ETHER := IFM_ETHER os;
     IN6_IFF_DEPRECATED := IN6_IFF_DEPRECATED os; IFNAMSIZ := IFNAMSIZ os;
     if_nametoindex := if_nametoindex os;
     if_indextoname := if_indextoname os;
     ioctl_SIOCGIFMEDIA := ioctl_SIOCGIFMEDIA os;
     ioctl_SIOCGIFAFLAG_IN6 := q;
     getifaddrs := getifaddrs os |}.

(** ** Notions of the specification *)

Definition is_byte (b : Z) : Prop := 0 <= b < 256.

(** A value of the class: sixteen bytes of storage, a 32-bit scope id,
    and no scope id on version 4 (no constructor of version 4 sets
    one). *)
Definition valid (a : IPAddress) : Prop :=
  length (bytes_ a) = 16%nat /\
  Forall is_byte (bytes_ a) /\
  0 <= scope_id_ a < 4294967296 /\
  (version_ a = kV4 -> scope_id_ a = 0).

(** A value of [IPEndpoint]: a value of the class and a 16-bit port. *)
Definition valid_endpoint (e : IPEndpoint) : Prop :=
  valid (address e) /\ 0 <= port e < 65536.

(** The scope id is 0 unless the address is link-local. *)
Definition scope_only_on_link_local (a : IPAddress) : Prop :=
  IsLinkLocal a = false -> GetScopeId a = 0.

(** The bytes read as one unsigned number, most significant byte
    first. *)
Definition be_value (l : list Z) : Z :=
  fold_left (fun acc b => acc * 256 + b) l 0.

(** One of three tests holds and the two others do not. *)
Definition exactly_one (x y z : bool) : Prop :=
  (x = true /\ y = false /\ z = false) \/
  (x = false /\ y = true /\ z = false) \/
  (x = false /\ y = false /\ z = true).

(** *** The scope id of addresses that are not link-local *)

(** The sixteen bytes of [::1]. *)
Definition loopback_bytes : list Z := repeat 0 15 ++ [1].

(** *** The walk over the interface list *)




(** What a turn of the loop leaves in the list when the record adds no
    address: the entries so far, and behind them the new entry of the
    name when the name is new and its interface is not skipped. *)
Definition entry_only (os : Platform) (results : list InterfaceInfo)
           (cur : ifaddrs) : list InterfaceInfo :=
  match find_interface (ifa_name cur) results with
  | Some _ => results
  | None =>
      match classify os cur with
      | Some ty => results ++ [new_interface os cur ty]
      | None => results
      end
  end.

(** The platform on which the query of the flags succeeds and reports
    the address as deprecated. *)
Definition reporting_deprecated (os : Platform) : Platform :=
  with_aflag os (fun _ _ => (0, IN6_IFF_DEPRECATED os)).

(** A record of the running loopback interface with the address [::1],
    and a platform on which the query of the address flags fails. *)
Definition flagged_record : ifaddrs :=
  {| ifa_name := lit "lo0"; ifa_flags := 72;
     ifa_addr :=
       Some (SockaddrIn6 {| sin6_family := 30; sin6_port := 0;
                            sin6_flowinfo := 0;
                            sin6_addr := loopback_bytes;
                            sin6_scope_id := 0 |});
     ifa_netmask := None |}.

Definition failing_query : Platform := with_aflag posix_lo (fun _ _ => (-1, 0)).

(** *** Prefix lengths *)

(** The byte with [k] one-bits at the top and zero-bits below. *)
Definition partial_byte (k : Z) : Z := 256 - 2 ^ (8 - k).

(** A netmask in canonical form: [n] bytes 0xff, then a byte with
    [0 < k < 8] leading one-bits when [k] is not 0, then [m] bytes 0. *)
Definition canonical_netmask (n : nat) (k : Z) (m : nat) : list Z :=
  repeat 255 n ++ (if k =? 0 then [] else [partial_byte k]) ++ repeat 0 m.

(** The bits of a byte and of a netmask, the most significant first. *)
Definition byte_bits (b : Z) : list bool :=
  map (Z.testbit b) [7; 6; 5; 4; 3; 2; 1; 0].

Definition mask_bits (netmask : list Z) : list bool :=
  flat_map byte_bits netmask.

(** The number of one-bits before the first zero-bit. *)
Fixpoint leading_ones (bits : list bool) : Z :=
  match bits with
  | true :: rest => 1 + leading_ones rest
  | _ => 0
  end.

(** [b] is 0 or a byte of one to seven leading one-bits. *)
Definition is_partial_byte (b : Z) : bool :=
  existsb (fun k => b =? partial_byte k) [0; 1; 2; 3; 4; 5; 6; 7].

(** When the loop over the bits ends on the byte 0, the byte it began
    with was 0xff or a byte of leading one-bits. *)
Definition bits_loop_sound (b : Z) : bool :=
  match leading_bits 8 b 0 with
  | Some (last_byte, _) =>
      if last_byte =? 0 then is_partial_byte b || (b =? 255) else true
  | None => false
  end.

(** *** Native socket addresses: encoding, then decoding *)

(** The 256 bytes. *)
Definition byte_list : list Z := map Z.of_nat (seq 0 256).

(** A list of sixteen elements, element by element. *)
Ltac sixteen l H :=
  do 16 (destruct l as [|? l]; [discriminate H|]);
  destruct l; [clear H | discriminate H].

(** [fe80::1] with scope id 3, and [::1] with scope id 5, port 8080. *)
Definition scoped_link_local_endpoint : IPEndpoint :=
  {| address := IPAddress_scoped ([254; 128] ++ repeat 0 13 ++ [1]) 3;
     port := 8080 |}.

Definition scoped_loopback_endpoint : IPEndpoint :=
  {| address := IPAddress_scoped loopback_bytes 5; port := 8080 |}.

(** *** Searching in text and reading numbers *)

(** [c] is a digit of [base]; [c] is a digit of [base] or the
    separator. *)
Definition is_digit_of (base : Z) (c : ascii) : bool :=
  match digit_in base c with Some _ => true | None => false end.

Definition is_group_char (sep : ascii) (base : Z) (c : ascii) : bool :=
  Ascii.eqb c sep || is_digit_of base c.

(** *** The zone suffix *)

(** The characters 0 to 9. *)
Definition is_decimal_digit (c : ascii) : bool :=
  (48 <=? code c) && (code c <=? 57).

(** The number a text of decimal digits denotes. *)
Definition decimal_value (s : str) : Z :=
  fold_left (fun acc c => acc * 10 + (code c - 48)) s 0.

(** A text that is a positive decimal number. *)
Definition positive_decimal (s : str) : Prop :=
  s <> [] /\ forallb is_decimal_digit s = true /\ 0 < decimal_value s.

(** *** The double colon *)

(** The number a text of hexadecimal digits denotes. *)
Definition hex_value (g : str) : Z :=
  digits_value 16
    (map (fun c => match digit_in 16 c with Some d => d | None => 0 end) g).

(** The text of one hextet: hexadecimal digits, at least one, of a value
    that fits sixteen bits. *)
Definition hextet_text (g : str) : Prop :=
  g <> [] /\ forallb (is_digit_of 16) g = true /\ hex_value g <= UINT16_MAX.

(** The groups written one after the other with a colon between two. *)
Fixpoint join_colon (groups : list str) : str :=
  match groups with
  | [] => []
  | g :: rest =>
      match rest with
      | [] => g
      | _ :: _ => g ++ ":"%char :: join_colon rest
      end
  end.

(** The pattern occurs in the text at position [i]. *)
Definition occurs_at (pat s : str) (i : nat) : Prop :=
  starts_with pat (skipn i s) = true.

(** The text before the percent sign, the whole text when there is
    none. *)
Definition address_part (s : str) : str :=
  match find (lit "%") s with Some p => substr s 0 p | None => s end.

(** The groups each with a colon before it. *)
Definition colon_groups (groups : list str) : str :=
  concat (map (fun g => ":"%char :: g) groups).

(** The number of single colons in hextets joined by colons. *)
Definition single_colons (groups : list str) : Z :=
  match groups with [] => 0 | _ :: rest => Z.of_nat (length rest) end.

(** The hextets of the example "abcd::10fe:dbca". *)
Definition abcd : str := lit "abcd".
Definition x10fe : str := lit "10fe".
Definition dbca : str := lit "dbca".

(** A platform whose [if_nametoindex] reads the name up to the first
    colon, as Linux does for the names of alias interfaces ("eth0:1"),
    and has the one interface [lo0]. *)
Definition before_colon (n : str) : str :=
  match find (lit ":") n with Some p => firstn p n | None => n end.

Definition with_nametoindex (os : Platform) (f : str -> Z) : Platform :=
  {| IS_POSIX := IS_POSIX os; little_endian := little_endian os;
     AF_INET := AF_INET os; AF_INET6 := AF_INET6 os; AF_LINK := AF_LINK os;
     IFF_RUNNING := IFF_RUNNING os; IFF_LOOPBACK := IFF_LOOPBACK os;
     IFM_AVALID := IFM_AVALID os; IFM_ACTIVE := IFM_ACTIVE os;
     IFM_IEEE80211 := IFM_IEEE80211 os; IFM_ETHER := IFM_ETHER os;
     IN6_IFF_DEPRECATED := IN6_IFF_DEPRECATED os; IFNAMSIZ := IFNAMSIZ os;
     if_nametoindex := f;
     if_indextoname := if_indextoname os;
     ioctl_SIOCGIFMEDIA := ioctl_SIOCGIFMEDIA os;
     ioctl_SIOCGIFAFLAG_IN6 := ioctl_SIOCGIFAFLAG_IN6 os;
     getifaddrs := getifaddrs os |}.

Definition alias_names : Platform :=
  with_nametoindex posix_lo
    (fun n => if str_eqb (before_colon n) (lit "lo0") then 1 else 0).

(** *** Every way to make an address gives a value of the class *)

(** The platform answers [if_nametoindex] with an [unsigned int]. *)
Definition index_is_uint32 (os : Platform) : Prop :=
  forall n, 0 <= if_nametoindex os n < 4294967296.

(** *** Text output read back *)

(** A byte written with two hexadecimal digits. *)
Definition hex2 (b : Z) : str := pad_left 2 "0"%char (show_unsigned 16 b).

(** The two digits of [hex2] are those of the byte. *)
Definition hex2_sound (b : Z) : bool :=
  match hex2 b with
  | [c1; c2] =>
      match digit_in 16 c1, digit_in 16 c2 with
      | Some d1, Some d2 => (d1 * 16 + d2 =? b)
      | _, _ => false
      end
  | _ => false
  end.

(** A byte written in decimal reads as the byte. *)
Definition dec_sound (b : Z) : bool :=
  let s := show_unsigned 10 b in
  negb (str_eqb s []) && forallb (is_digit_of 10) s &&
  (digits_value 10
     (map (fun c => match digit_in 10 c with Some d => d | None => 0 end) s)
   =? b).

(** The eight groups [operator<<] writes for sixteen bytes. *)
Fixpoint hex_groups (bs : list Z) : list str :=
  match bs with
  | b :: b' :: rest => (hex2 b ++ hex2 b') :: hex_groups rest
  | _ => []
  end.

(** The hextets of sixteen bytes. *)
Fixpoint hextets_of (bs : list Z) : list Z :=
  match bs with
  | b :: b' :: rest => (256 * b + b') :: hextets_of rest
  | _ => []
  end.

(** *** The link-local prefix *)

(** On a byte, the test [(b & 0xc0) == 0x80] says that bit 7 is set and
    bit 6 is clear. *)
Definition top_bits_sound (b : Z) : bool :=
  Bool.eqb (Z.land b 192 =? 128) (Z.testbit b 7 && negb (Z.testbit b 6)).

(** *** Text written and read again *)

(** The scope id of [a] is one that the text written shows and that is
    read back from it: it is 0, or the address is link-local and the
    scope id is the index of an interface whose name the platform gives
    and resolves back to that index. *)
Definition zone_reads_back (os : Platform) (a : IPAddress) : Prop :=
  GetScopeId a = 0 \/
  (IsLinkLocal a = true /\
   exists ifname,
     IS_POSIX os = true /\
     if_indextoname os (GetScopeId a) = Some ifname /\
     if_nametoindex os (c_str ifname) = GetScopeId a).

(** *** The order as a strict total order *)

(** The rank of a version in the order of the enumerators. *)
Definition version_rank (v : Version) : Z :=
  match v with kV4 => 0 | kV6 => 1 end.

(** The lexicographic order on triples and on pairs of a triple and a
    number. *)
Definition triple_lt (x y : Z * Z * Z) : Prop :=
  let '(x1, x2, x3) := x in
  let '(y1, y2, y3) := y in
  x1 < y1 \/ (x1 = y1 /\ (x2 < y2 \/ (x2 = y2 /\ x3 < y3))).

(** What the comparisons of [IPAddress] compare: the version, the
    [size()] bytes as a big-endian number, the scope id. *)
Definition order_key (a : IPAddress) : Z * Z * Z :=
  (version_rank (version a), be_value (bytes a), scope_id_ a).

(** What the comparisons of [IPEndpoint] compare. *)
Definition endpoint_lt (x y : (Z * Z * Z) * Z) : Prop :=
  triple_lt (fst x) (fst y) \/ (fst x = fst y /\ snd x < snd y).

Definition endpoint_key (e : IPEndpoint) : (Z * Z * Z) * Z :=
  (order_key (address e), port e).

(** *** What the parsers return *)

(** The five reasons [IPEndpoint::Parse] gives. *)
Definition endpoint_messages : list string :=
  ["missing colon separator"; "missing address before colon";
   "missing port after colon"; "invalid address part";
   "invalid port part"]%string.

(** The characters of an endpoint of version 4. *)
Definition is_v4_endpoint_char (c : ascii) : bool :=
  is_digit_of 10 c || Ascii.eqb c "."%char || Ascii.eqb c ":"%char ||
  Ascii.eqb c "-"%char.

(** *** The texts the parsers accept *)

(** The number a text of digits of [base] denotes. *)
Definition group_value (base : Z) (g : str) : Z :=
  digits_value base
    (map (fun c => match digit_in base c with Some d => d | None => 0 end) g).

(** The text of one number: digits of [base], at least one, of a value
    that is at most [max]. *)
Definition group_text (base max : Z) (g : str) : Prop :=
  g <> [] /\ forallb (is_digit_of base) g = true /\ group_value base g <= max.

(** The groups each with [sep] before it. *)
Definition sep_groups (sep : ascii) (groups : list str) : str :=
  concat (map (fun g => sep :: g) groups).

(** *** What the walk over the interface list reports *)

(** The record [cur] is one that makes the entry [info]: it is running,
    bears the name of the entry, and the entry has the type the media
    query gives for it and the index of its name. *)
Definition record_of (os : Platform) (cur : ifaddrs) (info : InterfaceInfo)
  : Prop :=
  ifa_name cur = name info /\
  flag_set (ifa_flags cur) (IFF_RUNNING os) = true /\
  classify os cur = Some (type info) /\
  index info = if_nametoindex os (ifa_name cur).

(** The subnet [s] is read from the address [addr] of the record [cur]:
    an address of family [AF_INET6] whose flags could be queried and do
    not say deprecated, or an address of family [AF_INET], with the prefix
    length of the netmask of the record. *)
Definition subnet_of (os : Platform) (cur : ifaddrs) (addr : sockaddr)
           (s : IPSubnet) : Prop :=
  sa_family addr <> AF_LINK os /\
  ((sa_family addr = AF_INET6 os /\
    fst (ioctl_SIOCGIFAFLAG_IN6 os (strncpy_name os (ifa_name cur)) addr) = 0 /\
    flag_set
      (snd (ioctl_SIOCGIFAFLAG_IN6 os (strncpy_name os (ifa_name cur)) addr))
      (IN6_IFF_DEPRECATED os) = false /\
    exists sa,
      addr = SockaddrIn6 sa /\
      subnet_address s = GetIPAddressFromSockAddr_in6 sa /\
      ToPrefixLength (netmask_bytes_in6 os cur) = Some (prefix_length s)) \/
   (sa_family addr <> AF_INET6 os /\ sa_family addr = AF_INET os /\
    exists sa,
      addr = SockaddrIn sa /\
      GetIPAddressFromSockAddr_in sa = Some (subnet_address s) /\
      ToPrefixLength (netmask_bytes_in os cur) = Some (prefix_length s))).

(** The hardware address [hw] is read from the address [addr]. *)
Definition hardware_of (os : Platform) (addr : sockaddr) (hw : list Z) : Prop :=
  sa_family addr = AF_LINK os /\
  exists sa,
    addr = SockaddrDl sa /\ hw = firstn (sdl_alen sa) (sdl_lladdr sa).

(** Some running record of the name [n] among [seen] has an address that
    [P] holds of. *)
Definition from_record (os : Platform) (seen : list ifaddrs) (n : str)
           (P : ifaddrs -> sockaddr -> Prop) : Prop :=
  exists cur addr,
    In cur seen /\ ifa_name cur = n /\
    flag_set (ifa_flags cur) (IFF_RUNNING os) = true /\
    ifa_addr cur = Some addr /\ P cur addr.

(** What holds of the list of entries after the records [seen]. *)
Definition reported (os : Platform) (seen : list ifaddrs)
           (results : list InterfaceInfo) : Prop :=
  NoDup (map name results) /\
  forall info,
    In info results ->
    (exists cur, In cur seen /\ record_of os cur info) /\
    (forall s,
       In s (addresses info) ->
       from_record os seen (name info) (fun cur addr => subnet_of os cur addr s)) /\
    (hardware_address info = kUnknownHardwareAddress \/
     from_record os seen (name info)
       (fun _ addr => hardware_of os addr (hardware_address info))).

(** A record of the running loopback interface with the address
    127.0.0.1 and the netmask 255.0.0.0, and the entry it makes. *)
Definition loopback_v4_record : ifaddrs :=
  {| ifa_name := lit "lo0"; ifa_flags := 72;
     ifa_addr :=
       Some (SockaddrIn {| sin_family := 2; sin_port := 0;
                           sin_addr := [127; 0; 0; 1];
                           sin_zero := repeat 0 8 |});
     ifa_netmask :=
       Some (SockaddrIn {| sin_family := 2; sin_port := 0;
                           sin_addr := [255; 0; 0; 0];
                           sin_zero := repeat 0 8 |}) |}.

Definition loopback_v4_subnet : IPSubnet :=
  {| subnet_address := IPAddress_v4 127 0 0 1; prefix_length := 8 |}.

Definition loopback_v4_entry : InterfaceInfo :=
  {| index := 1; hardware_address := kUnknownHardwareAddress;
     name := lit "lo0"; type := kLoopback;
     addresses := [loopback_v4_subnet] |}.

(** *** Native socket addresses: decoding, then encoding *)

(** The member of the union that was written is the one of
    [version()]. *)
Definition version_agrees (st : SocketAddressPosix) : Prop :=
  match internal_address_ st with
  | InternalV4 _ => SocketAddressPosix_version st = kV4
  | InternalV6 _ => SocketAddressPosix_version st = kV6
  end.

(** A native structure of the running system, for [fe80::1] on the
    interface 7, with flow information. *)
Definition native_link_local : sockaddr_in6 :=
  {| sin6_family := 30; sin6_port := 20480; sin6_flowinfo := 9;
     sin6_addr := [254; 128] ++ repeat 0 13 ++ [1]; sin6_scope_id := 7 |}.

(** *** The address handed to the QUIC library *)

(** The four bytes of a 32-bit number in the memory of the system. *)
Definition uint32_memory (os : Platform) (w : Z) : list Z :=
  let le := [w mod 256; (w / 256) mod 256; (w / 65536) mod 256;
             (w / 16777216) mod 256] in
  if little_endian os then le else rev le.

(** *** The texts that are endpoints *)

(** The text of the port [n]: a decimal number of at most 65535, or a
    minus sign and a decimal number of value 0. *)
Definition port_text (P : str) (n : Z) : Prop :=
  (group_text 10 UINT16_MAX P /\ n = group_value 10 P) \/
  (exists zeros, P = "-"%char :: zeros /\ group_text 10 0 zeros /\ n = 0).

(** *** What the walk over the interface list keeps *)

(** Some entry of the name [n] lists the subnets [ss]. *)
Definition keeps (n : str) (ss : list IPSubnet) (results : list InterfaceInfo)
  : Prop :=
  exists info, In info results /\ name info = n /\ incl ss (addresses info).

(** * Properties *)

(** ** The scope id of addresses that are not link-local *)

(** [C2] The claim asks for scope id 0 on every address that is not
    link-local, whichever way it was made.  The constructor taking
    sixteen bytes and a scope id, and the decoder of [sockaddr_in6]
    built on it, keep the scope id they are given: on the bytes of [::1]
    with scope id 5 the address is not link-local and [GetScopeId]
    answers 5. *)
Theorem scope_id_kept_off_link_local :
  IsLinkLocal (IPAddress_scoped loopback_bytes 5) = false /\
  GetScopeId (IPAddress_scoped loopback_bytes 5) = 5 /\
  (forall family p flow,
     let sa := {| sin6_family := family; sin6_port := p;
                  sin6_flowinfo := flow; sin6_addr := loopback_bytes;
                  sin6_scope_id := 5 |} in
     IsLinkLocal (GetIPAddressFromSockAddr_in6 sa) = false /\
     GetScopeId (GetIPAddressFromSockAddr_in6 sa) = 5).
Proof.
  repeat split.
Qed.

(** ** The port of an endpoint *)

(** [C5] The claim asks for a port part made of decimal digits only.
    The port is read into an [int], for which [std::from_chars] takes a
    minus sign, and the check on the range lets the value 0 through:
    the text "1.2.3.4:-0" is parsed as the endpoint 1.2.3.4 port 0. *)
Theorem IPEndpoint_Parse_accepts_minus_zero :
  forall os,
    IPEndpoint_Parse os (lit "1.2.3.4:-0") =
    Value {| address := IPAddress_v4 1 2 3 4; port := 0 |}.
Proof.
  intros os. reflexivity.
Qed.

(** The parts of the claim that hold: where the last colon must be, which
    parser reads the address, and the range of the port. *)
Lemma IPEndpoint_Parse_colon :
  forall os s,
    (rfind (lit ":") s = None ->
     IPEndpoint_Parse os s = Failure (ParseError "missing colon separator")) /\
    (rfind (lit ":") s = Some 0%nat ->
     IPEndpoint_Parse os s =
       Failure (ParseError "missing address before colon")) /\
    (forall colon_pos,
       rfind (lit ":") s = Some colon_pos ->
       colon_pos <> 0%nat -> colon_pos = (length s - 1)%nat ->
       IPEndpoint_Parse os s = Failure (ParseError "missing port after colon")).
Proof.
  intros os s. unfold IPEndpoint_Parse. split; [|split].
  - intros ->. reflexivity.
  - intros ->. reflexivity.
  - intros colon_pos -> Hfirst Hlast.
    destruct (Nat.eqb_spec colon_pos 0) as [E|_]; [contradiction|].
    destruct (Nat.eqb_spec colon_pos (length s - 1)) as [_|E];
      [reflexivity | contradiction].
Qed.

Lemma IPEndpoint_Parse_value :
  forall os s e,
    IPEndpoint_Parse os s = Value e ->
    exists colon_pos,
      rfind (lit ":") s = Some colon_pos /\
      (0 < colon_pos < length s - 1)%nat /\
      (if Ascii.eqb (char_at s 0) "["%char &&
          Ascii.eqb (char_at s (colon_pos - 1)) "]"%char
       then ParseV6 os (substr s 1 (colon_pos - 2))
       else ParseV4 (substr s 0 colon_pos)) = Value (address e) /\
      0 <= port e <= 65535.
Proof.
  intros os s e. unfold IPEndpoint_Parse.
  destruct (rfind (lit ":") s) as [colon_pos|] eqn:Er; [|discriminate].
  destruct (Nat.eqb_spec colon_pos 0) as [|Hfirst]; [discriminate|].
  destruct (Nat.eqb_spec colon_pos (length s - 1)) as [|Hlast]; [discriminate|].
  assert (Hlt : (colon_pos < length s)%nat).
  { clear -Er. revert colon_pos Er.
    induction s as [|c s IH]; intros p Er; [discriminate Er|].
    cbn [rfind] in Er. destruct (rfind (lit ":") s) as [i|].
    - injection Er as <-. specialize (IH i eq_refl). cbn [length]. lia.
    - destruct (starts_with (lit ":") (c :: s)); [|discriminate].
      injection Er as <-. cbn [length]. lia. }
  destruct (if Ascii.eqb (char_at s 0) "["%char &&
               Ascii.eqb (char_at s (colon_pos - 1)) "]"%char
            then ParseV6 os (substr s 1 (colon_pos - 2))
            else ParseV4 (substr s 0 colon_pos)) as [a|err] eqn:Ea;
    [|discriminate].
  destruct (fc_ec _); try discriminate.
  destruct (fc_rest _); [|discriminate].
  destruct ((_ <? 0) || (UINT16_MAX <? _)) eqn:Erange; [discriminate|].
  intros H. injection H as <-. cbn [address port].
  exists colon_pos. split; [reflexivity|]. split; [lia|].
  split; [exact Ea|].
  apply orb_false_iff in Erange. destruct Erange as [Hlo Hhi].
  apply Z.ltb_ge in Hlo, Hhi. unfold UINT16_MAX in Hhi. lia.
Qed.

(** The two examples of the specification. *)
Lemma IPEndpoint_Parse_bracketed :
  forall os,
    IPEndpoint_Parse os (lit "[abcd::1]:99") =
    Value {| address := IPAddress_v6 43981 0 0 0 0 0 0 1; port := 99 |}.
Proof.
  intros os. reflexivity.
Qed.

Lemma IPEndpoint_Parse_missing_brackets :
  forall os, is_value (IPEndpoint_Parse os (lit "abcd::1:8080")) = false.
Proof.
  intros os. reflexivity.
Qed.

(** ** Text output and parsing again *)

(** [C7] The claim asks that the text written for a parsed address
    parses again to an equal address.  A scope id without an interface
    name is written in the base left on the stream, which is 16 after the
    bytes of a version 6 address, and is read in base 10.  On a platform
    with no interface of index 10 or 16: "fe80::1%10" parses with scope
    id 10, is written with the zone "a", and that text does not parse;
    "fe80::1%16" parses with scope id 16, is written with the zone "10",
    and that text parses with scope id 10. *)
Theorem print_then_parse_numeric_scope :
  (exists a,
     Parse posix_lo (lit "fe80::1%10") = Value a /\
     GetScopeId a = 10 /\
     IPAddress_print posix_lo a =
       lit "fe80:0000:0000:0000:0000:0000:0000:0001%a" /\
     is_value (Parse posix_lo (IPAddress_print posix_lo a)) = false) /\
  (exists a b,
     Parse posix_lo (lit "fe80::1%16") = Value a /\
     GetScopeId a = 16 /\
     IPAddress_print posix_lo a =
       lit "fe80:0000:0000:0000:0000:0000:0000:0001%10" /\
     Parse posix_lo (IPAddress_print posix_lo a) = Value b /\
     GetScopeId b = 10 /\
     IPAddress_eqb a b = false).
Proof.
  split.
  - eexists. split; [reflexivity|]. repeat split.
  - eexists. eexists. split; [reflexivity|].
    split; [reflexivity|]. split; [reflexivity|].
    split; [reflexivity|]. split; reflexivity.
Qed.

(** ** The walk over the interface list *)

Lemma process_records_app :
  forall os before after results,
    process_records os results (before ++ after) =
    match process_records os results before with
    | Some results' => process_records os results' after
    | None => None
    end.
Proof.
  intros os before. induction before as [|cur before IH]; intros after results.
  - reflexivity.
  - simpl. destruct (process_record os results cur) as [results'|].
    + apply IH.
    + reflexivity.
Qed.





Lemma add_record_address_query_failed :
  forall os results i cur addr,
    sa_family addr = AF_INET6 os ->
    AF_INET6 os <> AF_LINK os ->
    fst (ioctl_SIOCGIFAFLAG_IN6 os (strncpy_name os (ifa_name cur)) addr) <> 0 ->
    add_record_address os results i cur addr = Some results.
Proof.
  intros os results i cur addr Hfam Hlink Hret.
  unfold add_record_address. rewrite Hfam.
  destruct (Z.eqb_spec (AF_INET6 os) (AF_LINK os)) as [E|_]; [contradiction|].
  rewrite Z.eqb_refl.
  destruct (ioctl_SIOCGIFAFLAG_IN6 os (strncpy_name os (ifa_name cur)) addr)
    as [ret flags].
  simpl in Hret.
  destruct (Z.eqb_spec ret 0) as [E|_]; [contradiction|]. reflexivity.
Qed.

Lemma add_record_address_deprecated :
  forall os results i cur addr,
    sa_family addr = AF_INET6 os ->
    AF_INET6 os <> AF_LINK os ->
    flag_set
      (snd (ioctl_SIOCGIFAFLAG_IN6 os (strncpy_name os (ifa_name cur)) addr))
      (IN6_IFF_DEPRECATED os) = true ->
    add_record_address os results i cur addr = Some results.
Proof.
  intros os results i cur addr Hfam Hlink Hdep.
  unfold add_record_address. rewrite Hfam.
  destruct (Z.eqb_spec (AF_INET6 os) (AF_LINK os)) as [E|_]; [contradiction|].
  rewrite Z.eqb_refl.
  destruct (ioctl_SIOCGIFAFLAG_IN6 os (strncpy_name os (ifa_name cur)) addr)
    as [ret flags].
  simpl in Hdep. rewrite Hdep. rewrite orb_true_r. reflexivity.
Qed.

Lemma process_record_no_address :
  forall os results cur addr,
    flag_set (ifa_flags cur) (IFF_RUNNING os) = true ->
    ifa_addr cur = Some addr ->
    (forall res i, add_record_address os res i cur addr = Some res) ->
    process_record os results cur = Some (entry_only os results cur).
Proof.
  intros os results cur addr Hup Haddr Hadd.
  unfold process_record, entry_only, has_addr. rewrite Hup, Haddr. simpl.
  destruct (find_interface (ifa_name cur) results) as [i|].
  - apply Hadd.
  - destruct (classify os cur) as [ty|]; [apply Hadd | reflexivity].
Qed.

(** [C10] For a record of an interface that is running, with an IPv6
    address, for which the query of the address flags fails: the turn
    of the loop ends as it does on a platform where the query succeeds
    and reports the address as deprecated; no subnet is appended, and
    the entry of the interface stays (the one found, or the one made in
    this turn). *)
Theorem failed_flag_query_skips_address :
  forall os results cur addr,
    flag_set (ifa_flags cur) (IFF_RUNNING os) = true ->
    ifa_addr cur = Some addr ->
    sa_family addr = AF_INET6 os ->
    AF_INET6 os <> AF_LINK os ->
    IN6_IFF_DEPRECATED os <> 0 ->
    fst (ioctl_SIOCGIFAFLAG_IN6 os (strncpy_name os (ifa_name cur)) addr) <> 0 ->
    process_record os results cur = Some (entry_only os results cur) /\
    process_record os results cur =
      process_record (reporting_deprecated os) results cur /\
    map addresses (firstn (length results) (entry_only os results cur)) =
      map addresses results /\
    Forall (fun info => addresses info = [])
           (skipn (length results) (entry_only os results cur)).
Proof.
  intros os results cur addr Hup Haddr Hfam Hlink Hflag Hret.
  assert (Hfail : process_record os results cur =
                  Some (entry_only os results cur)).
  { apply (process_record_no_address os results cur addr Hup Haddr).
    intros res i. apply add_record_address_query_failed; assumption. }
  assert (Hdep : process_record (reporting_deprecated os) results cur =
                 Some (entry_only os results cur)).
  { apply (process_record_no_address (reporting_deprecated os) results cur addr
             Hup Haddr).
    intros res i. apply add_record_address_deprecated; try assumption.
    simpl. unfold flag_set. rewrite Z.land_diag.
    destruct (Z.eqb_spec (IN6_IFF_DEPRECATED os) 0) as [E|_];
      [contradiction | reflexivity]. }
  split; [exact Hfail|]. split; [rewrite Hfail, Hdep; reflexivity|].
  unfold entry_only.
  destruct (find_interface (ifa_name cur) results) as [i|].
  - rewrite firstn_all, skipn_all. split; [reflexivity | constructor].
  - destruct (classify os cur) as [ty|].
    + rewrite firstn_app, Nat.sub_diag, firstn_all, app_nil_r.
      rewrite skipn_app, Nat.sub_diag, skipn_all. simpl.
      split; [reflexivity | repeat constructor].
    + rewrite firstn_all, skipn_all. split; [reflexivity | constructor].
Qed.

Lemma failed_flag_query_skips_address_witness :
  process_record failing_query [] flagged_record =
    Some [new_interface failing_query flagged_record kLoopback].
Proof.
  destruct (failed_flag_query_skips_address failing_query [] flagged_record
              (SockaddrIn6 {| sin6_family := 30; sin6_port := 0;
                              sin6_flowinfo := 0;
                              sin6_addr := loopback_bytes;
                              sin6_scope_id := 0 |}))
    as [H _].
  - reflexivity.
  - reflexivity.
  - reflexivity.
  - simpl. lia.
  - simpl. lia.
  - simpl. lia.
  - exact H.
Defined.

(** ** Prefix lengths *)

Lemma leading_ff_repeat :
  forall n rest result,
    match rest with b :: _ => b <> 255 | [] => True end ->
    leading_ff (repeat 255 n ++ rest) result =
    (Nat.iter n (fun r => to_uint8 (r + 8)) result, rest).
Proof.
  induction n as [|n IH]; intros rest result Hrest.
  - simpl. destruct rest as [|b rest']; [reflexivity|].
    simpl. destruct (Z.eqb_spec b 255) as [E|_]; [contradiction | reflexivity].
  - cbn [repeat app leading_ff]. rewrite Z.eqb_refl. rewrite (IH rest _ Hrest).
    rewrite Nat.iter_succ_r. reflexivity.
Qed.

Lemma iter_add8 :
  forall n result,
    0 <= result -> result + 8 * Z.of_nat n < 256 ->
    Nat.iter n (fun r => to_uint8 (r + 8)) result = result + 8 * Z.of_nat n.
Proof.
  induction n as [|n IH]; intros result Hlo Hhi.
  - simpl. lia.
  - rewrite Nat.iter_succ, IH by lia.
    unfold to_uint8. rewrite Z.mod_small by lia. lia.
Qed.

Lemma all_zero_repeat : forall m, all_zero (repeat 0 m) = true.
Proof.
  induction m as [|m IH]; [reflexivity | exact IH].
Qed.

(** The loop over the bits started at any count: the count of the loop
    started at 0 is added, in a [uint8_t]. *)
Lemma leading_bits_shift :
  forall fuel b result,
    0 <= result < 256 ->
    leading_bits fuel b result =
    match leading_bits fuel b 0 with
    | Some (b', j) => Some (b', to_uint8 (result + j))
    | None => None
    end.
Proof.
  induction fuel as [|fuel IH]; intros b result Hr.
  - simpl. destruct (Z.land b 128 =? 0); [|reflexivity].
    unfold to_uint8. rewrite Z.add_0_r, Z.mod_small by lia. reflexivity.
  - cbn [leading_bits]. destruct (Z.land b 128 =? 0).
    + unfold to_uint8. rewrite Z.add_0_r, Z.mod_small by lia. reflexivity.
    + rewrite (IH _ (to_uint8 (result + 1))).
      2:{ unfold to_uint8. apply Z.mod_pos_bound. lia. }
      rewrite (IH _ (to_uint8 (0 + 1))).
      2:{ unfold to_uint8. apply Z.mod_pos_bound. lia. }
      destruct (leading_bits fuel (to_uint8 (Z.shiftl b 1)) 0) as [[b' j]|];
        [|reflexivity].
      f_equal. f_equal. unfold to_uint8.
      change ((0 + 1) mod 256) with 1.
      rewrite Z.add_mod_idemp_l by lia.
      rewrite Z.add_mod_idemp_r by lia.
      f_equal. lia.
Qed.

Lemma iter_add8_range :
  forall n, 0 <= Nat.iter n (fun r => to_uint8 (r + 8)) 0 < 256.
Proof.
  intros [|n]; [simpl; lia|].
  rewrite Nat.iter_succ. unfold to_uint8. apply Z.mod_pos_bound. lia.
Qed.

(** A property checked on the 256 bytes holds of every byte. *)
Lemma forall_bytes :
  forall P : Z -> bool,
    forallb P (map Z.of_nat (seq 0 256)) = true ->
    forall b, is_byte b -> P b = true.
Proof.
  intros P Hall b Hb. rewrite forallb_forall in Hall. apply Hall.
  rewrite <- (Z2Nat.id b) by (unfold is_byte in Hb; lia).
  apply in_map. apply in_seq. unfold is_byte in Hb. lia.
Qed.

Lemma bits_loop_sound_all : forall b, is_byte b -> bits_loop_sound b = true.
Proof.
  apply forall_bytes. vm_compute. reflexivity.
Qed.

(** The loop over the bits of a byte ends within its eight turns: the
    fuel of the model is never used up. *)
Lemma leading_bits_ends :
  forall b result,
    is_byte b -> 0 <= result < 256 ->
    exists last_byte result', leading_bits 8 b result = Some (last_byte, result').
Proof.
  intros b result Hb Hr. rewrite leading_bits_shift by exact Hr.
  pose proof (bits_loop_sound_all b Hb) as Hsound.
  unfold bits_loop_sound in Hsound.
  destruct (leading_bits 8 b 0) as [[last_byte j]|]; [|discriminate Hsound].
  eauto.
Qed.

Lemma leading_bits_partial :
  forall k, 0 < k < 8 -> leading_bits 8 (partial_byte k) 0 = Some (0, k).
Proof.
  intros k Hk.
  assert (H : k = 1 \/ k = 2 \/ k = 3 \/ k = 4 \/ k = 5 \/ k = 6 \/ k = 7)
    by lia.
  repeat (destruct H as [H|H]; [subst k; reflexivity|]).
  subst k. reflexivity.
Qed.

Lemma partial_byte_not_ff : forall k, 0 <= k < 8 -> partial_byte k <> 255.
Proof.
  intros k Hk. unfold partial_byte.
  assert (2 <= 2 ^ (8 - k)).
  { change 2 with (2 ^ 1) at 1. apply Z.pow_le_mono_r; lia. }
  lia.
Qed.

Lemma partial_byte_not_zero : forall k, 0 < k < 8 -> partial_byte k <> 0.
Proof.
  intros k Hk. unfold partial_byte.
  assert (2 ^ (8 - k) < 2 ^ 8) by (apply Z.pow_lt_mono_r; lia).
  change (2 ^ 8) with 256 in *. lia.
Qed.

Lemma ToPrefixLength_canonical :
  forall n k m,
    0 <= k < 8 -> 8 * Z.of_nat n + k < 256 ->
    ToPrefixLength (canonical_netmask n k m) = Some (8 * Z.of_nat n + k).
Proof.
  intros n k m Hk Hlen. unfold ToPrefixLength, canonical_netmask.
  destruct (Z.eqb_spec k 0) as [E|E].
  - subst k. rewrite leading_ff_repeat.
    2:{ destruct m; simpl; [exact I | lia]. }
    rewrite iter_add8 by lia. simpl app.
    destruct m as [|m]; simpl.
    + f_equal. lia.
    + change (forallb (fun b => b =? 0) (repeat 0 m)) with (all_zero (repeat 0 m)).
      rewrite all_zero_repeat. f_equal. lia.
  - rewrite leading_ff_repeat.
    2:{ simpl. apply partial_byte_not_ff. lia. }
    rewrite iter_add8 by lia. cbn [app]. cbv beta iota.
    destruct (Z.eqb_spec (partial_byte k) 0) as [Z0|_].
    { exfalso. apply (partial_byte_not_zero k); [lia | exact Z0]. }
    cbn [negb]. cbv iota.
    rewrite leading_bits_shift by lia.
    rewrite leading_bits_partial by lia.
    rewrite Z.eqb_refl, all_zero_repeat.
    unfold to_uint8. rewrite Z.mod_small by lia. reflexivity.
Qed.

Lemma leading_ones_ff :
  forall rest, leading_ones (byte_bits 255 ++ rest) = 8 + leading_ones rest.
Proof.
  intros rest. cbn [byte_bits map app]. 
  change (Z.testbit 255 7) with true. change (Z.testbit 255 6) with true.
  change (Z.testbit 255 5) with true. change (Z.testbit 255 4) with true.
  change (Z.testbit 255 3) with true. change (Z.testbit 255 2) with true.
  change (Z.testbit 255 1) with true. change (Z.testbit 255 0) with true.
  cbn [leading_ones]. lia.
Qed.

Lemma leading_ones_zeros :
  forall m, leading_ones (mask_bits (repeat 0 m)) = 0.
Proof.
  intros [|m]; reflexivity.
Qed.

Lemma leading_ones_canonical :
  forall n k m,
    0 <= k < 8 ->
    leading_ones (mask_bits (canonical_netmask n k m)) = 8 * Z.of_nat n + k.
Proof.
  intros n k m Hk. unfold canonical_netmask, mask_bits.
  induction n as [|n IH].
  - cbn [repeat app].
    assert (H : k = 0 \/ k = 1 \/ k = 2 \/ k = 3 \/ k = 4 \/ k = 5 \/
                k = 6 \/ k = 7) by lia.
    destruct H as [H|H]; [subst k; apply leading_ones_zeros|].
    repeat (destruct H as [H|H]; [subst k; reflexivity|]).
    subst k. reflexivity.
  - cbn [repeat app flat_map]. rewrite leading_ones_ff, IH. lia.
Qed.

Lemma ToPrefixLength_hole_after :
  forall n b rest,
    b <> 255 -> all_zero rest = false ->
    ToPrefixLength (repeat 255 n ++ b :: rest) = None.
Proof.
  intros n b rest Hb Hrest. unfold ToPrefixLength.
  rewrite leading_ff_repeat by exact Hb.
  destruct (Z.eqb_spec b 0) as [E|E]; simpl negb; cbv iota.
  - subst b. simpl. rewrite Hrest. reflexivity.
  - destruct (leading_bits 8 b _) as [[last_byte result']|]; [|reflexivity].
    destruct (last_byte =? 0); [|reflexivity].
    rewrite Hrest. reflexivity.
Qed.

Lemma ToPrefixLength_hole_inside :
  forall n b rest,
    is_byte b -> b <> 255 -> is_partial_byte b = false ->
    ToPrefixLength (repeat 255 n ++ b :: rest) = None.
Proof.
  intros n b rest Hbyte Hb Hpart. unfold ToPrefixLength.
  rewrite leading_ff_repeat by exact Hb.
  destruct (Z.eqb_spec b 0) as [E|E]; simpl negb; cbv iota.
  - subst b. discriminate Hpart.
  - rewrite leading_bits_shift by apply iter_add8_range.
    pose proof (bits_loop_sound_all b Hbyte) as Hsound.
    unfold bits_loop_sound in Hsound.
    destruct (leading_bits 8 b 0) as [[last_byte j]|]; [|reflexivity].
    destruct (last_byte =? 0); [|reflexivity].
    rewrite Hpart in Hsound. simpl in Hsound.
    apply Z.eqb_eq in Hsound. contradiction.
Qed.

(** [C8] For a netmask in canonical form ([n] bytes 0xff, a byte of [k]
    leading one-bits when [k] is not 0, [m] bytes 0) of fewer than 256
    one-bits, [ToPrefixLength] returns the number of its leading one-bits,
    which is [8 * n + k]; 255.255.255.0 gives 24 and 255.255.224.0 gives
    19.  For a netmask with a byte that is not 0 behind the first byte
    that is not 0xff, and for one whose first byte that is not 0xff has a
    zero-bit above a one-bit, a check fails and no value is returned (the
    loop over the bits of a byte always ends, so that a result [None] is
    a failed check). *)
Theorem ToPrefixLength_spec :
  (forall n k m,
     0 <= k < 8 -> 8 * Z.of_nat n + k < 256 ->
     ToPrefixLength (canonical_netmask n k m) =
       Some (leading_ones (mask_bits (canonical_netmask n k m))) /\
     leading_ones (mask_bits (canonical_netmask n k m)) = 8 * Z.of_nat n + k) /\
  ToPrefixLength [255; 255; 255; 0] = Some 24 /\
  ToPrefixLength [255; 255; 224; 0] = Some 19 /\
  (forall n b rest,
     b <> 255 -> all_zero rest = false ->
     ToPrefixLength (repeat 255 n ++ b :: rest) = None) /\
  (forall n b rest,
     is_byte b -> b <> 255 -> is_partial_byte b = false ->
     ToPrefixLength (repeat 255 n ++ b :: rest) = None) /\
  (forall b result,
     is_byte b -> 0 <= result < 256 ->
     exists last_byte result',
       leading_bits 8 b result = Some (last_byte, result')).
Proof.
  split; [|split; [|split; [|split; [|split]]]].
  - intros n k m Hk Hlen. rewrite leading_ones_canonical by exact Hk.
    split; [apply ToPrefixLength_canonical; assumption | reflexivity].
  - reflexivity.
  - reflexivity.
  - exact ToPrefixLength_hole_after.
  - exact ToPrefixLength_hole_inside.
  - exact leading_bits_ends.
Qed.

Lemma ToPrefixLength_spec_witness :
  (ToPrefixLength (canonical_netmask 2 3 1) =
     Some (leading_ones (mask_bits (canonical_netmask 2 3 1))) /\
   leading_ones (mask_bits (canonical_netmask 2 3 1)) = 8 * Z.of_nat 2 + 3) /\
  ToPrefixLength (repeat 255 1 ++ 0 :: [255; 0]) = None /\
  ToPrefixLength (repeat 255 1 ++ 160 :: [0; 0]) = None.
Proof.
  destruct ToPrefixLength_spec as [Hcanon [_ [_ [Hafter [Hinside _]]]]].
  split; [|split].
  - apply (Hcanon 2%nat 3 1%nat); lia.
  - apply (Hafter 1%nat 0 [255; 0]); [lia | reflexivity].
  - apply (Hinside 1%nat 160 [0; 0]); [unfold is_byte; lia | lia | reflexivity].
Defined.

(** ** Native socket addresses: encoding, then decoding *)

Lemma bswap16_bytes :
  forall h l, is_byte h -> is_byte l -> bswap16 (256 * h + l) = 256 * l + h.
Proof.
  intros h l Hh Hl.
  pose proof (forall_bytes
                (fun h => forallb (fun l => bswap16 (256 * h + l) =? 256 * l + h)
                                  byte_list)) as Hall.
  assert (Hcheck : forallb
                     (fun h => forallb
                                 (fun l => bswap16 (256 * h + l) =? 256 * l + h)
                                 byte_list)
                     (map Z.of_nat (seq 0 256)) = true)
    by (vm_compute; reflexivity).
  specialize (Hall Hcheck h Hh). cbv beta in Hall.
  pose proof (forall_bytes _ Hall l Hl) as Heq. cbv beta in Heq.
  apply Z.eqb_eq in Heq. exact Heq.
Qed.

Lemma bswap16_involutive :
  forall x, 0 <= x < 65536 -> bswap16 (bswap16 x) = x.
Proof.
  intros x Hx.
  assert (Hh : is_byte (x / 256))
    by (unfold is_byte; split;
        [apply Z.div_pos; lia | apply Z.div_lt_upper_bound; lia]).
  assert (Hl : is_byte (x mod 256))
    by (unfold is_byte; apply Z.mod_pos_bound; lia).
  rewrite (Z.div_mod x 256) at 1 by lia.
  rewrite (bswap16_bytes _ _ Hh Hl), (bswap16_bytes _ _ Hl Hh).
  symmetry. apply Z.div_mod. lia.
Qed.

Lemma ntohs_htons :
  forall os x, 0 <= x < 65536 -> ntohs os (htons os x) = x.
Proof.
  intros os x Hx. unfold ntohs, htons.
  destruct (little_endian os); [apply bswap16_involutive; exact Hx | reflexivity].
Qed.

Lemma bytes_eqb_refl : forall l, bytes_eqb l l = true.
Proof.
  induction l as [|x l IH]; [reflexivity|].
  simpl. rewrite Z.eqb_refl. exact IH.
Qed.

Lemma bytes_eqb_eq : forall a b, bytes_eqb a b = true <-> a = b.
Proof.
  induction a as [|x a IH]; intros [|y b]; simpl; split; intros H;
    try reflexivity; try discriminate.
  - apply andb_true_iff in H. destruct H as [Hxy Hab].
    apply Z.eqb_eq in Hxy. apply IH in Hab. congruence.
  - injection H as Hxy Hab. subst. rewrite Z.eqb_refl.
    apply bytes_eqb_refl.
Qed.

(** [C1] For every endpoint the native structure chosen by the version
    of the address ([ToSockAddrIn] for version 4, [ToSockAddrIn6] for
    version 6) is produced and can be read back.  The version 4 structure
    holds the family, the port in network order and the four bytes, and
    has its padding zeroed; the version 6 structure holds the family, the
    port in network order and the sixteen bytes, has the flow information
    zeroed, and holds the scope id when the address is link-local with a
    scope id that is not 0, and 0 otherwise, whatever scope id the
    address carries.  For an endpoint whose address carries a scope id
    only when it is link-local, reading the structure back
    ([GetIPAddressFromSockAddr] and [ntohs] on the port) gives an endpoint
    equal to the first one, scope id included. *)
Theorem sockaddr_round_trip :
  forall os e,
    valid_endpoint e ->
    exists internal decoded,
      SocketAddressPosix_of_endpoint os e = Some internal /\
      RecomputeEndpoint os internal = Some decoded /\
      (scope_only_on_link_local (address e) ->
       IPEndpoint_eqb decoded e = true) /\
      match internal with
      | InternalV4 sa =>
          version (address e) = kV4 /\
          ToSockAddrIn os e = Some sa /\
          sin_family sa = AF_INET os /\
          sin_port sa = htons os (port e) /\
          sin_addr sa = bytes (address e) /\
          sin_zero sa = repeat 0 8
      | InternalV6 sa =>
          version (address e) = kV6 /\
          ToSockAddrIn6 os e = Some sa /\
          sin6_family sa = AF_INET6 os /\
          sin6_port sa = htons os (port e) /\
          sin6_addr sa = bytes (address e) /\
          sin6_flowinfo sa = 0 /\
          sin6_scope_id sa =
            (if IsLinkLocal (address e) && negb (GetScopeId (address e) =? 0)
             then GetScopeId (address e) else 0)
      end.
Proof.
  intros os [[v l scope] p] [[Hlen [Hbytes [Hscope Hv4]]] Hport].
  simpl in *. sixteen l Hlen.
  destruct v.
  - (* version 4 *)
    specialize (Hv4 eq_refl). subst scope.
    eexists. eexists.
    split; [reflexivity|]. split; [reflexivity|].
    split; [|repeat split].
    intros _. unfold IPEndpoint_eqb, IPAddress_eqb. simpl.
    rewrite !Z.eqb_refl. simpl.
    apply Z.eqb_eq. apply ntohs_htons. exact Hport.
  - (* version 6 *)
    eexists. eexists.
    split; [reflexivity|]. split; [reflexivity|].
    split; [|repeat split].
    intros Hinv. unfold IPEndpoint_eqb, IPAddress_eqb. simpl.
    rewrite !Z.eqb_refl. simpl.
    apply andb_true_iff. split.
    + apply Z.eqb_eq.
      unfold scope_only_on_link_local, GetScopeId in Hinv. simpl in Hinv.
      match goal with
      | |- (if ?c && _ then _ else _) = _ => destruct c eqn:Hll
      end.
      * simpl. destruct (Z.eqb_spec scope 0) as [E|E]; simpl; congruence.
      * simpl. symmetry. apply Hinv. reflexivity.
    + apply Z.eqb_eq. apply ntohs_htons. exact Hport.
Qed.

Lemma is_byte_dec_true :
  forall l, forallb (fun b => (0 <=? b) && (b <? 256)) l = true ->
            Forall is_byte l.
Proof.
  intros l H. rewrite forallb_forall in H. apply Forall_forall.
  intros b Hb. specialize (H b Hb). unfold is_byte. lia.
Qed.

Lemma sockaddr_round_trip_witness :
  exists internal decoded,
    SocketAddressPosix_of_endpoint posix_lo scoped_link_local_endpoint =
      Some internal /\
    RecomputeEndpoint posix_lo internal = Some decoded /\
    IPEndpoint_eqb decoded scoped_link_local_endpoint = true /\
    GetScopeId (address decoded) = 3.
Proof.
  destruct (sockaddr_round_trip posix_lo scoped_link_local_endpoint)
    as [internal [decoded [Henc [Hdec [Hround _]]]]].
  - repeat split; try (simpl; lia).
    + apply is_byte_dec_true. reflexivity.
    + intros H. discriminate H.
  - assert (Heq : IPEndpoint_eqb decoded scoped_link_local_endpoint = true).
    { apply Hround. intros H. discriminate H. }
    exists internal, decoded. repeat split; try assumption.
    unfold IPEndpoint_eqb, IPAddress_eqb in Heq.
    apply andb_true_iff in Heq. destruct Heq as [Heq _].
    apply andb_true_iff in Heq. destruct Heq as [_ Heq].
    apply Z.eqb_eq in Heq. exact Heq.
Defined.

(** The round trip as the claim states it, for every endpoint: it fails
    on the address [::1] made with the scope id 5, which is read back with
    the scope id 0. *)
Lemma sockaddr_round_trip_drops_scope :
  valid_endpoint scoped_loopback_endpoint /\
  exists sa decoded,
    ToSockAddrIn6 posix_lo scoped_loopback_endpoint = Some sa /\
    RecomputeEndpoint posix_lo (InternalV6 sa) = Some decoded /\
    GetScopeId (address decoded) = 0 /\
    IPEndpoint_eqb decoded scoped_loopback_endpoint = false.
Proof.
  split.
  - repeat split; try (simpl; lia).
    + apply is_byte_dec_true. reflexivity.
    + intros H. discriminate H.
  - eexists. eexists. split; [reflexivity|]. split; [reflexivity|].
    split; reflexivity.
Qed.

(** ** The order of addresses *)

Lemma be_value_acc :
  forall l acc,
    fold_left (fun acc b => acc * 256 + b) l acc =
    acc * 256 ^ Z.of_nat (length l) + be_value l.
Proof.
  unfold be_value. induction l as [|x l IH]; intros acc.
  - simpl. lia.
  - cbn [fold_left length]. rewrite IH, (IH (0 * 256 + x)).
    rewrite Nat2Z.inj_succ, Z.pow_succ_r by lia. ring.
Qed.

Lemma be_value_cons :
  forall x l, be_value (x :: l) = x * 256 ^ Z.of_nat (length l) + be_value l.
Proof.
  intros x l. unfold be_value at 1. cbn [fold_left].
  rewrite be_value_acc. ring.
Qed.

Lemma be_value_bound :
  forall l, Forall is_byte l -> 0 <= be_value l < 256 ^ Z.of_nat (length l).
Proof.
  induction l as [|x l IH]; intros Hl.
  - unfold be_value. simpl. lia.
  - inversion Hl as [|? ? Hx Hl']; subst. specialize (IH Hl').
    rewrite be_value_cons. cbn [length].
    rewrite Nat2Z.inj_succ, Z.pow_succ_r by lia.
    unfold is_byte in Hx. nia.
Qed.

Lemma memcmp_firstn :
  forall n a b, memcmp a b n = memcmp (firstn n a) (firstn n b) n.
Proof.
  induction n as [|n IH]; intros a b; [reflexivity|].
  destruct a as [|x a], b as [|y b]; try reflexivity.
  cbn [firstn memcmp]. rewrite IH. reflexivity.
Qed.

Lemma memcmp_values :
  forall n a b, memcmp a b n = -1 \/ memcmp a b n = 0 \/ memcmp a b n = 1.
Proof.
  induction n as [|n IH]; intros a b; [right; left; reflexivity|].
  destruct a as [|x a], b as [|y b]; try (right; left; reflexivity).
  cbn [memcmp]. destruct (x =? y); [apply IH|].
  destruct (x <? y); [left | right; right]; reflexivity.
Qed.

Lemma memcmp_swap : forall n a b, memcmp b a n = - memcmp a b n.
Proof.
  induction n as [|n IH]; intros a b; [reflexivity|].
  destruct a as [|x a], b as [|y b]; try reflexivity.
  cbn [memcmp]. rewrite (Z.eqb_sym y x).
  destruct (Z.eqb_spec x y) as [E|E]; [apply IH|].
  destruct (Z.ltb_spec x y), (Z.ltb_spec y x); try reflexivity; lia.
Qed.

(** [memcmp] on two blocks of [n] bytes is the comparison of the two
    numbers written most significant byte first. *)
Lemma memcmp_be_value :
  forall n a b,
    length a = n -> length b = n -> Forall is_byte a -> Forall is_byte b ->
    (memcmp a b n < 0 <-> be_value a < be_value b) /\
    (memcmp a b n = 0 <-> a = b).
Proof.
  induction n as [|n IH]; intros a b Ha Hb Fa Fb.
  - destruct a; [|discriminate]. destruct b; [|discriminate].
    simpl. unfold be_value. simpl. split; split; intros; try lia; reflexivity.
  - destruct a as [|x a]; [discriminate|]. destruct b as [|y b]; [discriminate|].
    injection Ha as Ha. injection Hb as Hb.
    inversion Fa as [|? ? Hx Fa']; subst.
    inversion Fb as [|? ? Hy Fb']; subst.
    destruct (IH a b eq_refl Hb Fa' Fb') as [IHlt IHeq].
    pose proof (be_value_bound a Fa') as Ba.
    pose proof (be_value_bound b Fb') as Bb.
    rewrite !be_value_cons. rewrite Hb in *.
    set (w := 256 ^ Z.of_nat (length a)) in *.
    cbn [memcmp].
    destruct (Z.eqb_spec x y) as [E|E].
    + subst y. split.
      * rewrite IHlt. lia.
      * rewrite IHeq. split; intros H; [subst; reflexivity | congruence].
    + destruct (Z.ltb_spec x y) as [L|L].
      * split; split; intros H; try lia; try nia. congruence.
      * split; split; intros H; try lia; try nia. congruence.
Qed.

Lemma valid_firstn_length :
  forall a n, valid a -> (n <= 16)%nat -> length (firstn n (bytes_ a)) = n.
Proof.
  intros a n [Hlen _] Hn. rewrite length_firstn. lia.
Qed.

Lemma valid_firstn_bytes :
  forall a n, valid a -> Forall is_byte (firstn n (bytes_ a)).
Proof.
  intros a n [_ [Hb _]]. rewrite <- (firstn_skipn n (bytes_ a)) in Hb.
  apply Forall_app in Hb. destruct Hb as [Hb _]. exact Hb.
Qed.

Lemma ltb_same_version :
  forall a b n,
    valid a -> valid b -> (n <= 16)%nat ->
    (memcmp (bytes_ a) (bytes_ b) n < 0 <->
     be_value (firstn n (bytes_ a)) < be_value (firstn n (bytes_ b))) /\
    (memcmp (bytes_ a) (bytes_ b) n = 0 <->
     firstn n (bytes_ a) = firstn n (bytes_ b)).
Proof.
  intros a b n Va Vb Hn. rewrite memcmp_firstn.
  apply memcmp_be_value.
  - apply valid_firstn_length; assumption.
  - apply valid_firstn_length; assumption.
  - apply valid_firstn_bytes; assumption.
  - apply valid_firstn_bytes; assumption.
Qed.

(** [C3] For two addresses: exactly one of [a < b], [a == b], [a > b]
    holds; version 4 is below version 6; two addresses of version 4 are
    in the order of their four bytes read as a big-endian number; two
    addresses of version 6 are in the order of their sixteen bytes read
    as a big-endian number, and for equal bytes in the order of their
    scope ids. *)
Theorem IPAddress_order :
  forall a b,
    valid a -> valid b ->
    exactly_one (IPAddress_ltb a b) (IPAddress_eqb a b) (IPAddress_gtb a b) /\
    (version a = kV4 -> version b = kV6 -> IPAddress_ltb a b = true) /\
    (version a = kV4 -> version b = kV4 ->
     (IPAddress_ltb a b = true <-> be_value (bytes a) < be_value (bytes b))) /\
    (version a = kV6 -> version b = kV6 ->
     (IPAddress_ltb a b = true <->
      be_value (bytes a) < be_value (bytes b) \/
      (bytes a = bytes b /\ GetScopeId a < GetScopeId b))).
Proof.
  intros a b Va Vb.
  pose proof (ltb_same_version a b 4 Va Vb ltac:(lia)) as [L4 E4].
  pose proof (ltb_same_version a b 16 Va Vb ltac:(lia)) as [L16 E16].
  pose proof (memcmp_swap 4 (bytes_ a) (bytes_ b)) as S4.
  pose proof (memcmp_swap 16 (bytes_ a) (bytes_ b)) as S16.
  pose proof (memcmp_values 4 (bytes_ a) (bytes_ b)) as V4.
  pose proof (memcmp_values 16 (bytes_ a) (bytes_ b)) as V16.
  destruct Va as [_ [_ [_ Za]]]. destruct Vb as [_ [_ [_ Zb]]].
  unfold exactly_one, IPAddress_gtb, IPAddress_ltb, IPAddress_eqb, IsV4,
    version, bytes, size, GetScopeId, kV4Size, kV6Size in *.
  destruct a as [va la sa], b as [vb lb sb]. cbn [version_ bytes_ scope_id_] in *.
  destruct va, vb; cbn [Version_eqb Version_ltb negb andb].
  - (* both of version 4 *)
    rewrite (Za eq_refl), (Zb eq_refl), Z.eqb_refl, andb_true_r, S4.
    split; [|split; [|split]].
    + destruct (bytes_eqb (firstn 4 la) (firstn 4 lb)) eqn:Eb.
      * apply bytes_eqb_eq in Eb. apply E4 in Eb. rewrite Eb. simpl. tauto.
      * assert (Hne : memcmp la lb 4 <> 0).
        { intros H0. apply E4 in H0. apply bytes_eqb_eq in H0. congruence. }
        destruct V4 as [H|[H|H]]; rewrite H; simpl; tauto || lia.
    + intros _ H. discriminate H.
    + intros _ _. rewrite Z.ltb_lt. exact L4.
    + intros H. discriminate H.
  - (* version 4 and version 6 *)
    split; [|split; [|split]].
    + tauto.
    + reflexivity.
    + intros _ H. discriminate H.
    + intros H. discriminate H.
  - (* version 6 and version 4 *)
    split; [|split; [|split]].
    + tauto.
    + intros H. discriminate H.
    + intros H. discriminate H.
    + intros _ H. discriminate H.
  - (* both of version 6 *)
    rewrite S16.
    split; [|split; [|split]].
    + destruct (bytes_eqb (firstn 16 la) (firstn 16 lb)) eqn:Eb.
      * apply bytes_eqb_eq in Eb. apply E16 in Eb. rewrite Eb. simpl.
        destruct (Z.eqb_spec sa sb) as [Es|Es].
        -- subst sb. rewrite Z.ltb_irrefl. tauto.
        -- destruct (Z.ltb_spec sa sb), (Z.ltb_spec sb sa); try lia; tauto.
      * assert (Hne : memcmp la lb 16 <> 0).
        { intros H0. apply E16 in H0. apply bytes_eqb_eq in H0. congruence. }
        destruct V16 as [H|[H|H]]; rewrite H; simpl; tauto || lia.
    + intros H. discriminate H.
    + intros H. discriminate H.
    + intros _ _. split.
      * intros H.
        destruct (Z.eqb_spec (memcmp la lb 16) 0) as [E0|E0]; simpl in H.
        -- right. split; [apply E16; exact E0 | apply Z.ltb_lt; exact H].
        -- left. apply L16. apply Z.ltb_lt. exact H.
      * intros [H|[Hb Hs]].
        -- apply L16 in H.
           destruct (Z.eqb_spec (memcmp la lb 16) 0) as [E0|E0]; simpl; [lia|].
           apply Z.ltb_lt. exact H.
        -- apply E16 in Hb. rewrite Hb. simpl. apply Z.ltb_lt. exact Hs.
Qed.

(** ** Searching in text and reading numbers *)

Lemma starts_with_char :
  forall c s, starts_with [c] s = true <-> exists s', s = c :: s'.
Proof.
  intros c [|x s]; simpl; split; intros H.
  - discriminate.
  - destruct H as [s' H]. discriminate.
  - rewrite andb_true_r in H. apply Ascii.eqb_eq in H. subst. eauto.
  - destruct H as [s' H]. injection H as -> _.
    rewrite Ascii.eqb_refl. reflexivity.
Qed.

(** The first occurrence of a character splits the text. *)
Lemma find_char_split :
  forall c s p,
    find [c] s = Some p ->
    s = firstn p s ++ c :: skipn (S p) s /\ ~ In c (firstn p s).
Proof.
  intros c s. induction s as [|x s IH]; intros p H.
  - simpl in H. discriminate.
  - cbn [find] in H. destruct (starts_with [c] (x :: s)) eqn:E.
    + injection H as <-. apply starts_with_char in E.
      destruct E as [s' E]. injection E as -> ->.
      split; [reflexivity | intros []].
    + destruct (find [c] s) as [q|] eqn:Eq; [|discriminate].
      simpl in H. injection H as <-.
      destruct (IH q eq_refl) as [Hs Hn].
      split.
      * cbn [firstn skipn app]. f_equal. exact Hs.
      * cbn [firstn]. intros [Hx|Hin]; [|contradiction].
        subst x. simpl in E. rewrite Ascii.eqb_refl in E. discriminate.
Qed.

Lemma find_char_none :
  forall c s, ~ In c s -> find [c] s = None.
Proof.
  intros c s. induction s as [|x s IH]; intros Hn; [reflexivity|].
  cbn [find starts_with].
  destruct (Ascii.eqb_spec c x) as [E|E].
  - exfalso. apply Hn. left. symmetry. exact E.
  - simpl. rewrite IH; [reflexivity|]. intros Hin. apply Hn. right. exact Hin.
Qed.

Lemma find_char_in :
  forall c s p, find [c] s = Some p -> In c s.
Proof.
  intros c s p H. destruct (find_char_split c s p H) as [Hs _].
  rewrite Hs. apply in_or_app. right. left. reflexivity.
Qed.

(** What [span_digits] takes off is made of digits, and it stops at the
    first character that is not one. *)
Lemma span_digits_split :
  forall base s ds rest,
    span_digits base s = (ds, rest) ->
    exists pre,
      s = pre ++ rest /\
      map (digit_in base) pre = map Some ds /\
      match rest with c :: _ => digit_in base c = None | [] => True end.
Proof.
  intros base s. induction s as [|c s IH]; intros ds rest H.
  - simpl in H. injection H as <- <-. exists []. repeat split.
  - cbn [span_digits] in H. destruct (digit_in base c) as [d|] eqn:Ed.
    + destruct (span_digits base s) as [ds' rest'] eqn:Es.
      injection H as <- <-.
      destruct (IH ds' rest' eq_refl) as [pre [Hs [Hm Hr]]].
      exists (c :: pre). split; [simpl; f_equal; exact Hs|].
      split; [simpl; rewrite Ed, Hm; reflexivity | exact Hr].
    + injection H as <- <-. exists []. repeat split. exact Ed.
Qed.

Lemma span_digits_digits :
  forall base pre rest,
    forallb (is_digit_of base) pre = true ->
    match rest with c :: _ => digit_in base c = None | [] => True end ->
    exists ds,
      span_digits base (pre ++ rest) = (ds, rest) /\
      map (digit_in base) pre = map Some ds.
Proof.
  intros base pre rest. induction pre as [|c pre IH]; intros Hd Hr.
  - exists []. split; [|reflexivity]. simpl.
    destruct rest as [|c rest]; [reflexivity|].
    simpl. rewrite Hr. reflexivity.
  - simpl in Hd. apply andb_true_iff in Hd. destruct Hd as [Hc Hd].
    destruct (IH Hd Hr) as [ds [Hs Hm]].
    unfold is_digit_of in Hc. destruct (digit_in base c) as [d|] eqn:Ed;
      [|discriminate].
    exists (d :: ds). split.
    + cbn [app span_digits]. rewrite Ed, Hs. reflexivity.
    + simpl. rewrite Ed, Hm. reflexivity.
Qed.

Lemma digits_value_nonneg :
  forall base ds,
    0 <= base -> Forall (fun d => 0 <= d) ds -> 0 <= digits_value base ds.
Proof.
  intros base ds Hb. unfold digits_value.
  assert (G : forall acc, 0 <= acc -> Forall (fun d => 0 <= d) ds ->
                          0 <= fold_left (fun acc d => acc * base + d) ds acc).
  { induction ds as [|d ds IH]; intros acc Ha Hd; [exact Ha|].
    inversion Hd; subst. simpl. apply IH; [nia | assumption]. }
  apply G. lia.
Qed.

Lemma digit_value_nonneg :
  forall c d, digit_value c = Some d -> 0 <= d.
Proof.
  intros c d. unfold digit_value.
  destruct (((48 <=? code c) && (code c <=? 57))%bool) eqn:E1;
    [intros H; injection H as <-; lia|].
  destruct (((97 <=? code c) && (code c <=? 122))%bool) eqn:E2;
    [intros H; injection H as <-; lia|].
  destruct (((65 <=? code c) && (code c <=? 90))%bool) eqn:E3;
    [intros H; injection H as <-; lia | discriminate].
Qed.

Lemma digit_in_nonneg :
  forall base c d, digit_in base c = Some d -> 0 <= d < base.
Proof.
  intros base c d. unfold digit_in.
  destruct (digit_value c) as [d'|] eqn:E; [|discriminate].
  destruct (Z.ltb_spec d' base) as [Hlt|Hge]; [|discriminate].
  intros Hd. injection Hd as <-. apply digit_value_nonneg in E. lia.
Qed.

Lemma span_digits_nonneg :
  forall base s ds rest,
    span_digits base s = (ds, rest) -> Forall (fun d => 0 <= d) ds.
Proof.
  intros base s. induction s as [|c s IH]; intros ds rest H.
  - simpl in H. injection H as <- <-. constructor.
  - cbn [span_digits] in H. destruct (digit_in base c) as [d|] eqn:Ed.
    + destruct (span_digits base s) as [ds' rest'] eqn:Es.
      injection H as <- <-. constructor.
      * apply digit_in_nonneg in Ed. lia.
      * eapply IH. reflexivity.
    + injection H as <- <-. constructor.
Qed.

(** A successful [from_chars] for an unsigned type: digits were taken
    off the front, and the value is in the range of the type. *)
Lemma from_chars_unsigned_ok :
  forall base max s old,
    0 <= base ->
    fc_ec (from_chars_unsigned base max s old) = errc_ok ->
    exists pre,
      s = pre ++ fc_rest (from_chars_unsigned base max s old) /\
      pre <> [] /\
      forallb (is_digit_of base) pre = true /\
      0 <= fc_value (from_chars_unsigned base max s old) <= max.
Proof.
  intros base max s old Hbase. unfold from_chars_unsigned.
  destruct (span_digits base s) as [ds rest] eqn:Es.
  pose proof (span_digits_nonneg _ _ _ _ Es) as Hnn.
  destruct (span_digits_split _ _ _ _ Es) as [pre [Hs [Hm _]]].
  destruct ds as [|d ds]; [simpl; discriminate|].
  destruct (Z.leb_spec (digits_value base (d :: ds)) max) as [Hle|Hgt];
    simpl; [|discriminate].
  intros _. exists pre. split; [exact Hs|]. split.
  - intros ->. discriminate Hm.
  - split.
    + clear -Hm. revert Hm. generalize (d :: ds). clear.
      induction pre as [|c pre IH]; intros l Hm; [reflexivity|].
      destruct l as [|x l]; [discriminate|]. simpl in Hm.
      injection Hm as Hc Hm. simpl. unfold is_digit_of at 1. rewrite Hc.
      simpl. eapply IH. exact Hm.
    + split; [apply digits_value_nonneg; assumption | exact Hle].
Qed.

(** A successful scan took [k] values of the range off the front of the
    text, written with digits and separators only. *)
Lemma scan_values_ok :
  forall sep base max k i s vs rest,
    0 <= base ->
    scan_values sep base max k i s = Some (vs, rest) ->
    exists pre,
      s = pre ++ rest /\
      forallb (is_group_char sep base) pre = true /\
      length vs = k /\
      Forall (fun v => 0 <= v <= max) vs.
Proof.
  intros sep base max k. induction k as [|k IH]; intros i s vs rest Hb H.
  - simpl in H. injection H as <- <-. exists []. repeat split. constructor.
  - cbn [scan_values] in H.
    set (after_sep := if (0 <? i)%nat then _ else _) in H.
    assert (Hsep : forall s1, after_sep = Some s1 ->
                   exists sp, s = sp ++ s1 /\
                              forallb (is_group_char sep base) sp = true).
    { intros s1. subst after_sep. destruct (0 <? i)%nat.
      - destruct s as [|c s']; [discriminate|].
        destruct (Ascii.eqb_spec c sep) as [E|E]; [|discriminate].
        intros H1. injection H1 as <-. exists [c]. split; [reflexivity|].
        simpl. unfold is_group_char. subst c. rewrite Ascii.eqb_refl.
        reflexivity.
      - intros H1. injection H1 as <-. exists []. split; reflexivity. }
    destruct after_sep as [s1|]; [|discriminate].
    destruct (Hsep s1 eq_refl) as [sp [Hs Hsp]].
    destruct (fc_ec (from_chars_unsigned base max s1 0)) eqn:Eec;
      try discriminate.
    destruct (from_chars_unsigned_ok base max s1 0 Hb Eec)
      as [pre [Hs1 [_ [Hpre Hval]]]].
    destruct (scan_values sep base max k (S i)
                (fc_rest (from_chars_unsigned base max s1 0)))
      as [[vs' rest']|] eqn:Erec; [|discriminate].
    injection H as <- <-.
    destruct (IH _ _ _ _ Hb Erec) as [pre' [Hs2 [Hpre' [Hlen Hvs]]]].
    exists (sp ++ pre ++ pre'). split.
    + rewrite Hs, Hs1, Hs2 at 1. rewrite <- !app_assoc. reflexivity.
    + split.
      * rewrite !forallb_app, Hsp, Hpre'. simpl. rewrite andb_true_r.
        clear -Hpre. induction pre as [|c pre IHp]; [reflexivity|].
        simpl in *. apply andb_true_iff in Hpre. destruct Hpre as [Hc Hp].
        unfold is_group_char. rewrite Hc, orb_true_r. simpl. apply IHp, Hp.
      * split; [simpl; f_equal; exact Hlen|].
        constructor; assumption.
Qed.

(** A text [ParseV4] accepts is made of decimal digits and dots. *)
Lemma ParseV4_chars :
  forall s a,
    ParseV4 s = Value a ->
    forallb (is_group_char "."%char 10) s = true.
Proof.
  intros s a. unfold ParseV4.
  destruct (scan_values "."%char 10 UINT8_MAX 4 0 s) as [[vs rest]|] eqn:E;
    [|discriminate].
  destruct rest as [|c rest]; [|discriminate].
  intros _.
  assert (Hbase : 0 <= 10) by lia.
  destruct (scan_values_ok _ _ _ _ _ _ _ _ Hbase E) as [pre [Hs [Hpre _]]].
  rewrite app_nil_r in Hs. subst pre. exact Hpre.
Qed.

Lemma ParseV4_rejects_char :
  forall s c,
    In c s -> is_group_char "."%char 10 c = false ->
    ParseV4 s = Failure (ErrorOf kInvalidIPV4Address).
Proof.
  intros s c Hin Hc.
  destruct (ParseV4 s) as [a|e] eqn:E.
  - apply ParseV4_chars in E. rewrite forallb_forall in E.
    rewrite (E c Hin) in Hc. discriminate.
  - revert E. unfold ParseV4.
    destruct (scan_values "."%char 10 UINT8_MAX 4 0 s) as [[vs [|x rest]]|];
      intros E; try discriminate; symmetry; exact E.
Qed.

(** ** The zone suffix *)

Lemma digit_in_decimal :
  forall c d,
    digit_in 10 c = Some d -> is_decimal_digit c = true /\ d = code c - 48.
Proof.
  intros c d. unfold digit_in, digit_value, is_decimal_digit.
  destruct (((48 <=? code c) && (code c <=? 57))%bool) eqn:E1.
  - destruct (Z.ltb_spec (code c - 48) 10) as [L|L]; [|discriminate].
    intros Hd. injection Hd as <-. split; reflexivity.
  - destruct (((97 <=? code c) && (code c <=? 122))%bool) eqn:E2.
    + destruct (Z.ltb_spec (code c - 87) 10) as [L|L]; [lia | discriminate].
    + destruct (((65 <=? code c) && (code c <=? 90))%bool) eqn:E3;
        [|discriminate].
      destruct (Z.ltb_spec (code c - 55) 10) as [L|L]; [lia | discriminate].
Qed.

Lemma decimal_digits_value :
  forall pre ds,
    map (digit_in 10) pre = map Some ds ->
    forallb is_decimal_digit pre = true /\
    digits_value 10 ds = decimal_value pre.
Proof.
  assert (G : forall pre ds acc,
            map (digit_in 10) pre = map Some ds ->
            forallb is_decimal_digit pre = true /\
            fold_left (fun acc d => acc * 10 + d) ds acc =
            fold_left (fun acc c => acc * 10 + (code c - 48)) pre acc).
  { induction pre as [|c pre IH]; intros [|d ds] acc Hm; try discriminate.
    - split; reflexivity.
    - simpl in Hm. injection Hm as Hc Hm.
      apply digit_in_decimal in Hc. destruct Hc as [Hc ->].
      destruct (IH ds (acc * 10 + (code c - 48)) Hm) as [Hd Hv].
      split; [simpl; rewrite Hc; exact Hd | exact Hv]. }
  intros pre ds Hm. apply G. exact Hm.
Qed.

Lemma parse_scope_id_zero :
  forall os id,
    interface_index os id = 0 -> ~ positive_decimal id ->
    parse_scope_id os id = 0.
Proof.
  intros os id Hidx Hnot. unfold parse_scope_id. rewrite Hidx. simpl.
  unfold from_chars_unsigned.
  destruct (span_digits 10 id) as [ds rest] eqn:Es.
  destruct (span_digits_split _ _ _ _ Es) as [pre [Hs [Hm _]]].
  destruct ds as [|d ds]; [reflexivity|].
  destruct (Z.leb_spec (digits_value 10 (d :: ds)) UINT32_MAX); simpl;
    [|reflexivity].
  destruct rest as [|c rest]; [|reflexivity].
  destruct (Z.ltb_spec 0 (digits_value 10 (d :: ds))) as [Hpos|_];
    [|reflexivity].
  exfalso. apply Hnot. rewrite app_nil_r in Hs. subst pre.
  destruct (decimal_digits_value _ _ Hm) as [Hd Hv].
  split; [intros ->; discriminate Hm|]. split; [exact Hd | lia].
Qed.

Lemma find_percent_prefix :
  forall s p,
    find (lit "%") s = Some p -> find (lit "%") (substr s 0 p) = None.
Proof.
  intros s p H. apply find_char_none.
  destruct (find_char_split _ _ _ H) as [_ Hn]. exact Hn.
Qed.

(** [ParseV6] on a text with a percent sign, in terms of [ParseV6] on the
    text before it. *)
Lemma ParseV6_scoped :
  forall os s p,
    find (lit "%") s = Some p ->
    ParseV6 os s =
    let scope_id := parse_scope_id os (substr_from s (p + 1)) in
    if scope_id =? 0 then Failure (ErrorOf kInvalidIPV6Address)
    else
      match ParseV6 os (substr s 0 p) with
      | Value a0 =>
          if IsLinkLocal a0 then Value (set_scope_id a0 scope_id)
          else Failure (ErrorOf kInvalidIPV6Address)
      | Failure _ => Failure (ErrorOf kInvalidIPV6Address)
      end.
Proof.
  intros os s p H. pose proof (find_percent_prefix s p H) as Hpre.
  unfold ParseV6 at 2. rewrite Hpre.
  unfold ParseV6. rewrite H. cbv zeta.
  destruct (parse_scope_id os (substr_from s (p + 1)) =? 0); [reflexivity|].
  destruct (scan_values ":"%char 16 UINT16_MAX 8 0
              (ExpandIPv6DoubleColon (substr s 0 p)))
    as [[hextets [|c rest]]|]; try reflexivity.
  simpl. destruct (IsLinkLocal (IPAddress_of_hextets hextets)); reflexivity.
Qed.

Lemma Parse_with_percent :
  forall os s p, find (lit "%") s = Some p -> Parse os s = ParseV6 os s.
Proof.
  intros os s p H. unfold Parse.
  rewrite (ParseV4_rejects_char s "%"%char); [reflexivity| |reflexivity].
  exact (find_char_in _ _ _ H).
Qed.

(** [IsLinkLocal] is the prefix fe80::/10: version 6, first byte 0xfe,
    the two top bits of the second byte 1 and 0. *)
Lemma IsLinkLocal_prefix :
  forall a,
    valid a ->
    (IsLinkLocal a = true <->
     version a = kV6 /\
     nth 0 (bytes a) 0 = 254 /\
     Z.testbit (nth 1 (bytes a) 0) 7 = true /\
     Z.testbit (nth 1 (bytes a) 0) 6 = false).
Proof.
  intros [v l scope] [Hlen [Hbytes _]]. cbn [bytes_] in *.
  sixteen l Hlen.
  inversion Hbytes as [|? ? _ Hrest]; subst.
  inversion Hrest as [|? ? Hb1 _]; subst.
  pose proof (forall_bytes top_bits_sound ltac:(vm_compute; reflexivity) _ Hb1)
    as Hbits.
  unfold top_bits_sound in Hbits. apply Bool.eqb_prop in Hbits.
  unfold IsLinkLocal, IsV6, version, bytes, size.
  cbn [version_ bytes_ nth]. destruct v; cbn [Version_eqb negb kV4Size kV6Size firstn nth].
  - split; [discriminate | intros [H _]; discriminate H].
  - rewrite Hbits. split.
    + intros H. apply andb_true_iff in H. destruct H as [H0 H1].
      apply Z.eqb_eq in H0. apply andb_true_iff in H1. destruct H1 as [H7 H6].
      apply negb_true_iff in H6. repeat split; assumption.
    + intros [_ [H0 [H7 H6]]]. rewrite H0, H7, H6. reflexivity.
Qed.

Lemma is_decimal_digit_in :
  forall c, is_decimal_digit c = true -> digit_in 10 c = Some (code c - 48).
Proof.
  intros c H. unfold is_decimal_digit in H. unfold digit_in, digit_value.
  cbv zeta. rewrite H. apply andb_true_iff in H. destruct H as [Hlo Hhi].
  apply Z.leb_le in Hlo, Hhi.
  destruct (Z.ltb_spec (code c - 48) 10); [reflexivity | lia].
Qed.

Lemma parse_scope_id_decimal :
  forall os id,
    interface_index os id = 0 -> positive_decimal id ->
    parse_scope_id os id =
    if decimal_value id <=? UINT32_MAX then decimal_value id else 0.
Proof.
  intros os id Hidx [Hne [Hdigits Hpos]]. unfold parse_scope_id.
  rewrite Hidx. change (0 =? 0) with true. cbv iota zeta.
  assert (Hd : forallb (is_digit_of 10) id = true).
  { clear -Hdigits. induction id as [|c id IH]; [reflexivity|].
    cbn [forallb] in *. apply andb_true_iff in Hdigits.
    destruct Hdigits as [Hc Hrest]. rewrite (IH Hrest), andb_true_r.
    unfold is_digit_of. rewrite (is_decimal_digit_in c Hc). reflexivity. }
  destruct (span_digits_digits 10 id [] Hd I) as [ds [Hs Hm]].
  rewrite app_nil_r in Hs.
  destruct (decimal_digits_value _ _ Hm) as [_ Hv].
  unfold from_chars_unsigned. rewrite Hs.
  destruct ds as [|d ds].
  { destruct id; [congruence | discriminate Hm]. }
  rewrite Hv.
  destruct (Z.leb_spec (decimal_value id) UINT32_MAX); cbn [fc_ec fc_rest fc_value];
    [|reflexivity].
  destruct (Z.ltb_spec 0 (decimal_value id)); [reflexivity | lia].
Qed.

(** [C6] For a text with a zone suffix, the text [id] after the first
    percent sign.  The scope id found for [id] is the index
    [if_nametoindex] gives for it on a POSIX system when that is not 0;
    else the number [id] denotes, when [id] is a positive decimal number
    of at most 32 bits; else none: when [id] is not the name of an
    interface and is not a positive decimal number, or is one that does
    not fit 32 bits, [Parse] fails.  An address [Parse] returns is
    link-local and carries the scope id found for [id], which is not 0;
    when a scope id is found for [id], [Parse] returns the address of
    the text before the percent sign with that scope id if that address
    is link-local, and fails if it is not.  "fe80::1%invalidscope" fails
    where no interface has that name, and "::1%lo" fails.  Link-local
    means version 6, first byte 0xfe, and the two top bits of the second
    byte 1 and 0. *)
Theorem zone_suffix :
  forall os,
    (forall s p,
       find (lit "%") s = Some p ->
       let id := substr_from s (p + 1) in
       (interface_index os id = 0 -> ~ positive_decimal id ->
        Parse os s = Failure (ErrorOf kInvalidIPV6Address)) /\
       (forall a,
          Parse os s = Value a ->
          IsLinkLocal a = true /\
          GetScopeId a = parse_scope_id os id /\
          GetScopeId a <> 0) /\
       (forall a0,
          ParseV6 os (substr s 0 p) = Value a0 ->
          parse_scope_id os id <> 0 ->
          Parse os s =
          if IsLinkLocal a0
          then Value (set_scope_id a0 (parse_scope_id os id))
          else Failure (ErrorOf kInvalidIPV6Address)) /\
       (forall a0,
          ParseV6 os (substr s 0 p) = Value a0 ->
          IsLinkLocal a0 = true ->
          (IS_POSIX os = true -> if_nametoindex os (c_str id) <> 0 ->
           Parse os s =
             Value (set_scope_id a0 (if_nametoindex os (c_str id)))) /\
          ((IS_POSIX os = false \/ if_nametoindex os (c_str id) = 0) ->
           positive_decimal id -> decimal_value id <= UINT32_MAX ->
           Parse os s = Value (set_scope_id a0 (decimal_value id)))) /\
       ((IS_POSIX os = false \/ if_nametoindex os (c_str id) = 0) ->
        positive_decimal id -> UINT32_MAX < decimal_value id ->
        Parse os s = Failure (ErrorOf kInvalidIPV6Address))) /\
    (interface_index os (lit "invalidscope") = 0 ->
     Parse os (lit "fe80::1%invalidscope") =
       Failure (ErrorOf kInvalidIPV6Address)) /\
    Parse os (lit "::1%lo") = Failure (ErrorOf kInvalidIPV6Address) /\
    (forall a,
       valid a ->
       (IsLinkLocal a = true <->
        version a = kV6 /\
        nth 0 (bytes a) 0 = 254 /\
        Z.testbit (nth 1 (bytes a) 0) 7 = true /\
        Z.testbit (nth 1 (bytes a) 0) 6 = false)).
Proof.
  intros os.
  assert (Index : forall id,
            IS_POSIX os = false \/ if_nametoindex os (c_str id) = 0 ->
            interface_index os id = 0).
  { intros id [H|H]; unfold interface_index; [rewrite H; reflexivity|].
    destruct (IS_POSIX os); [exact H | reflexivity]. }
  assert (General :
    forall s p,
      find (lit "%") s = Some p ->
      let id := substr_from s (p + 1) in
      (interface_index os id = 0 -> ~ positive_decimal id ->
       Parse os s = Failure (ErrorOf kInvalidIPV6Address)) /\
      (forall a,
         Parse os s = Value a ->
         IsLinkLocal a = true /\
         GetScopeId a = parse_scope_id os id /\
         GetScopeId a <> 0) /\
      (forall a0,
         ParseV6 os (substr s 0 p) = Value a0 ->
         parse_scope_id os id <> 0 ->
         Parse os s =
         if IsLinkLocal a0
         then Value (set_scope_id a0 (parse_scope_id os id))
         else Failure (ErrorOf kInvalidIPV6Address))).
  { intros s p H id.
    rewrite (Parse_with_percent os s p H), (ParseV6_scoped os s p H).
    fold id. cbv zeta.
    split; [|split].
    - intros Hidx Hnot. rewrite (parse_scope_id_zero os id Hidx Hnot).
      reflexivity.
    - intros a.
      destruct (Z.eqb_spec (parse_scope_id os id) 0) as [E|E]; [discriminate|].
      destruct (ParseV6 os (substr s 0 p)) as [a0|e]; [|discriminate].
      destruct (IsLinkLocal a0) eqn:Ell; [|discriminate].
      intros Ha. injection Ha as <-.
      split; [exact Ell|]. split; [reflexivity | exact E].
    - intros a0 Ha0 Hscope. rewrite Ha0.
      destruct (Z.eqb_spec (parse_scope_id os id) 0) as [E|E];
        [contradiction | reflexivity]. }
  split; [|split; [|split; [|exact IsLinkLocal_prefix]]].
  - intros s p H id.
    destruct (General s p H) as [Hfail [Hvalue Hfound]]. fold id in Hfound.
    split; [exact Hfail|]. split; [exact Hvalue|]. split; [exact Hfound|].
    split.
    + intros a0 Ha0 Hll. split.
      * intros Hposix Hname.
        assert (Hid : parse_scope_id os id = if_nametoindex os (c_str id)).
        { unfold parse_scope_id, interface_index. rewrite Hposix.
          destruct (Z.eqb_spec (if_nametoindex os (c_str id)) 0);
            [contradiction | reflexivity]. }
        rewrite (Hfound a0 Ha0) by (rewrite Hid; exact Hname).
        rewrite Hll, Hid. reflexivity.
      * intros Hnone Hdec Hmax.
        assert (Hid : parse_scope_id os id = decimal_value id).
        { rewrite (parse_scope_id_decimal os id (Index id Hnone) Hdec).
          destruct (Z.leb_spec (decimal_value id) UINT32_MAX);
            [reflexivity | lia]. }
        destruct Hdec as [_ [_ Hpos]].
        rewrite (Hfound a0 Ha0) by (rewrite Hid; lia).
        rewrite Hll, Hid. reflexivity.
    + intros Hnone Hdec Hover.
      rewrite (Parse_with_percent os s p H), (ParseV6_scoped os s p H).
      fold id. cbv zeta.
      rewrite (parse_scope_id_decimal os id (Index id Hnone) Hdec).
      destruct (Z.leb_spec (decimal_value id) UINT32_MAX); [lia|].
      reflexivity.
  - intros Hidx.
    destruct (General (lit "fe80::1%invalidscope") 7%nat eq_refl) as [Hfail _].
    apply Hfail; [exact Hidx|].
    intros [_ [Hdigits _]]. discriminate Hdigits.
  - destruct (Z.eq_dec (parse_scope_id os (lit "lo")) 0) as [E|E].
    + rewrite (Parse_with_percent os (lit "::1%lo") 3%nat eq_refl).
      rewrite (ParseV6_scoped os (lit "::1%lo") 3%nat eq_refl).
      change (substr_from (lit "::1%lo") (3 + 1)) with (lit "lo").
      cbv zeta. rewrite E. reflexivity.
    + destruct (General (lit "::1%lo") 3%nat eq_refl) as [_ [_ Hnot]].
      apply (Hnot (IPAddress_v6 0 0 0 0 0 0 0 1)); [reflexivity | exact E].
Qed.

Lemma zone_suffix_witness :
  Parse posix_lo (lit "fe80::1%lo0") =
    Value (set_scope_id (IPAddress_v6 65152 0 0 0 0 0 0 1) 1) /\
  Parse posix_lo (lit "fe80::1%0042") =
    Value (set_scope_id (IPAddress_v6 65152 0 0 0 0 0 0 1) 42) /\
  Parse posix_lo (lit "fe80::1%4294967296") =
    Failure (ErrorOf kInvalidIPV6Address) /\
  Parse posix_lo (lit "2001::1%7") = Failure (ErrorOf kInvalidIPV6Address) /\
  Parse posix_lo (lit "fe80::1%invalidscope") =
    Failure (ErrorOf kInvalidIPV6Address).
Proof.
  destruct (zone_suffix posix_lo) as [General [Hinvalid _]].
  destruct (General (lit "fe80::1%lo0") 7%nat eq_refl)
    as [_ [_ [_ [Hname _]]]].
  destruct (General (lit "fe80::1%0042") 7%nat eq_refl)
    as [_ [_ [_ [Hnumber _]]]].
  destruct (General (lit "fe80::1%4294967296") 7%nat eq_refl)
    as [_ [_ [_ [_ Hover]]]].
  destruct (General (lit "2001::1%7") 7%nat eq_refl) as [_ [_ [Hglobal _]]].
  split; [|split; [|split; [|split]]].
  - apply (Hname (IPAddress_v6 65152 0 0 0 0 0 0 1) eq_refl eq_refl).
    + reflexivity.
    + vm_compute. intros H. discriminate H.
  - apply (Hnumber (IPAddress_v6 65152 0 0 0 0 0 0 1) eq_refl eq_refl).
    + right. reflexivity.
    + split; [discriminate|]. split; [reflexivity|]. vm_compute. reflexivity.
    + vm_compute. intros H. discriminate H.
  - apply Hover.
    + right. reflexivity.
    + split; [discriminate|]. split; [reflexivity|]. vm_compute. reflexivity.
    + vm_compute. reflexivity.
  - apply (Hglobal (IPAddress_v6 8193 0 0 0 0 0 0 1)).
    + reflexivity.
    + vm_compute. intros H. discriminate H.
  - apply Hinvalid. reflexivity.
Defined.

(** ** The double colon *)

Lemma hex_digit_not_colon :
  forall c, is_digit_of 16 c = true -> c <> ":"%char.
Proof.
  intros c H E. subst c. discriminate H.
Qed.

Lemma hex_digit_not_percent :
  forall c, is_digit_of 16 c = true -> c <> "%"%char.
Proof.
  intros c H E. subst c. discriminate H.
Qed.

Lemma hex_value_digits :
  forall g ds,
    map (digit_in 16) g = map Some ds -> digits_value 16 ds = hex_value g.
Proof.
  intros g ds H. unfold hex_value. f_equal. revert ds H.
  induction g as [|c g IH]; intros [|d ds] H; try discriminate.
  - reflexivity.
  - simpl in H. injection H as Hc Hm. simpl. rewrite Hc. f_equal.
    apply IH. exact Hm.
Qed.

(** Reading a hextet that stands before the end of the text or before a
    colon. *)
Lemma from_chars_hextet :
  forall g rest,
    hextet_text g ->
    match rest with c :: _ => c = ":"%char | [] => True end ->
    from_chars_unsigned 16 UINT16_MAX (g ++ rest) 0 =
    {| fc_value := hex_value g; fc_rest := rest; fc_ec := errc_ok |}.
Proof.
  intros g rest [Hne [Hd Hv]] Hrest.
  destruct (span_digits_digits 16 g rest Hd) as [ds [Hs Hm]].
  { destruct rest as [|c rest']; [exact I|]. subst c. reflexivity. }
  unfold from_chars_unsigned. rewrite Hs.
  destruct ds as [|d ds].
  - destruct g; [contradiction | discriminate Hm].
  - rewrite (hex_value_digits g (d :: ds) Hm).
    destruct (Z.leb_spec (hex_value g) UINT16_MAX); [reflexivity | lia].
Qed.

Lemma join_colon_cons :
  forall g groups, join_colon (g :: groups) = g ++ colon_groups groups.
Proof.
  intros g groups. revert g.
  induction groups as [|g' groups IH]; intros g.
  - simpl. rewrite app_nil_r. reflexivity.
  - cbn [join_colon]. cbn [join_colon] in IH. rewrite IH.
    unfold colon_groups. simpl. reflexivity.
Qed.

Lemma colon_groups_head :
  forall groups,
    match colon_groups groups with c :: _ => c = ":"%char | [] => True end.
Proof.
  intros [|g groups]; simpl; [exact I | reflexivity].
Qed.

Lemma scan_colon_groups :
  forall groups i,
    Forall hextet_text groups ->
    scan_values ":"%char 16 UINT16_MAX (length groups) (S i)
                (colon_groups groups) =
    Some (map hex_value groups, []).
Proof.
  induction groups as [|g groups IH]; intros i Hg; [reflexivity|].
  inversion Hg as [|? ? Hg1 Hg2]; subst.
  unfold colon_groups. cbn [map concat length scan_values app].
  change (0 <? S i)%nat with true. cbv iota.
  rewrite Ascii.eqb_refl.
  fold (colon_groups groups).
  rewrite (from_chars_hextet g (colon_groups groups) Hg1
             (colon_groups_head groups)).
  cbn [fc_ec fc_rest fc_value]. rewrite (IH (S i) Hg2). reflexivity.
Qed.

(** Eight hextets joined by colons are scanned to their values. *)
Lemma scan_join_colon :
  forall groups,
    groups <> [] -> Forall hextet_text groups ->
    scan_values ":"%char 16 UINT16_MAX (length groups) 0 (join_colon groups) =
    Some (map hex_value groups, []).
Proof.
  intros [|g groups] Hne Hg; [contradiction|].
  inversion Hg as [|? ? Hg1 Hg2]; subst.
  rewrite join_colon_cons. cbn [length scan_values].
  change (0 <? 0)%nat with false. cbv iota.
  rewrite (from_chars_hextet g (colon_groups groups) Hg1
             (colon_groups_head groups)).
  cbn [fc_ec fc_rest fc_value]. rewrite (scan_colon_groups groups 0 Hg2).
  reflexivity.
Qed.

Lemma find_skip :
  forall pre rest,
    Forall (fun c => c <> ":"%char) pre ->
    find kDoubleColon (pre ++ rest) =
    option_map (Nat.add (length pre)) (find kDoubleColon rest).
Proof.
  induction pre as [|c pre IH]; intros rest Hpre.
  - simpl. destruct (find kDoubleColon rest); reflexivity.
  - inversion Hpre as [|? ? Hc Hpre']; subst.
    cbn [app find length]. unfold kDoubleColon at 1. cbn [lit list_ascii_of_string starts_with].
    destruct (Ascii.eqb_spec ":"%char c) as [E|_]; [symmetry in E; contradiction|].
    cbn [andb]. rewrite (IH rest Hpre').
    destruct (find kDoubleColon rest); reflexivity.
Qed.

Lemma find_colon_then_other :
  forall c rest,
    c <> ":"%char ->
    find kDoubleColon (":"%char :: c :: rest) =
    option_map S (find kDoubleColon (c :: rest)).
Proof.
  intros c rest Hc. cbn [find]. unfold kDoubleColon at 1.
  cbn [lit list_ascii_of_string starts_with].
  destruct (Ascii.eqb_spec ":"%char c) as [E|_]; [symmetry in E; contradiction|].
  rewrite andb_false_r. reflexivity.
Qed.

Lemma hextet_chars :
  forall g, hextet_text g -> Forall (fun c => c <> ":"%char) g.
Proof.
  intros g [_ [Hd _]]. apply Forall_forall. intros c Hin.
  rewrite forallb_forall in Hd. apply hex_digit_not_colon. apply Hd, Hin.
Qed.

Lemma hextet_head :
  forall g, hextet_text g ->
            exists c g', g = c :: g' /\ c <> ":"%char.
Proof.
  intros [|c g'] Hg; [destruct Hg as [Hne _]; contradiction|].
  exists c, g'. split; [reflexivity|].
  apply hextet_chars in Hg. inversion Hg. assumption.
Qed.

(** The first double colon of [A :: B] is the one between the two. *)
Lemma find_join_double_colon :
  forall A rest,
    Forall hextet_text A ->
    find kDoubleColon (join_colon A ++ kDoubleColon ++ rest) =
    Some (length (join_colon A)).
Proof.
  induction A as [|g A IH]; intros rest HA; [reflexivity|].
  inversion HA as [|? ? Hg HA']; subst.
  destruct A as [|g' A].
  - cbn [join_colon]. rewrite (find_skip g _ (hextet_chars g Hg)).
    cbn [kDoubleColon lit list_ascii_of_string app find starts_with].
    simpl. rewrite Nat.add_0_r. reflexivity.
  - change (join_colon (g :: g' :: A))
      with (g ++ ":"%char :: join_colon (g' :: A)).
    rewrite <- app_assoc. rewrite (find_skip g _ (hextet_chars g Hg)).
    cbn [app]. specialize (IH rest HA').
    inversion HA' as [|? ? Hg' _]; subst.
    destruct (hextet_head g' Hg') as [c [t [-> Hc]]].
    rewrite join_colon_cons in *. cbn [app] in *.
    rewrite (find_colon_then_other c _ Hc). rewrite IH. cbn [option_map].
    f_equal. rewrite length_app. cbn [length]. lia.
Qed.

Lemma find_colon_groups_none :
  forall groups,
    Forall hextet_text groups ->
    find kDoubleColon (colon_groups groups) = None.
Proof.
  induction groups as [|g groups IH]; intros Hg; [reflexivity|].
  inversion Hg as [|? ? Hg1 Hg2]; subst.
  unfold colon_groups. cbn [map concat]. fold (colon_groups groups).
  destruct (hextet_head g Hg1) as [c [t [-> Hc]]].
  cbn [app]. rewrite (find_colon_then_other c _ Hc).
  change (c :: t ++ colon_groups groups) with ((c :: t) ++ colon_groups groups).
  rewrite (find_skip (c :: t) _ (hextet_chars _ Hg1)).
  rewrite (IH Hg2). reflexivity.
Qed.

(** Hextets joined by single colons hold no double colon. *)
Lemma find_join_none :
  forall groups,
    Forall hextet_text groups ->
    find kDoubleColon (join_colon groups) = None.
Proof.
  intros [|g groups] Hg; [reflexivity|].
  inversion Hg as [|? ? Hg1 Hg2]; subst.
  rewrite join_colon_cons, (find_skip g _ (hextet_chars g Hg1)).
  rewrite (find_colon_groups_none groups Hg2). reflexivity.
Qed.

Lemma rfind_none :
  forall pat s, find pat s = None -> rfind pat s = None.
Proof.
  intros pat s. induction s as [|c s IH]; intros H.
  - simpl in *. destruct (starts_with pat []); [discriminate | reflexivity].
  - cbn [find] in H. cbn [rfind].
    destruct (starts_with pat (c :: s)); [discriminate|].
    destruct (find pat s); [discriminate|].
    rewrite (IH eq_refl). reflexivity.
Qed.

Lemma rfind_app :
  forall pat pre s i,
    rfind pat s = Some i -> rfind pat (pre ++ s) = Some (length pre + i)%nat.
Proof.
  intros pat pre s i H. induction pre as [|c pre IH]; [exact H|].
  cbn [app rfind length]. rewrite IH. reflexivity.
Qed.

(** The last double colon of [A :: B] is the one between the two. *)
Lemma rfind_join_double_colon :
  forall A B,
    Forall hextet_text B ->
    rfind kDoubleColon (join_colon A ++ kDoubleColon ++ join_colon B) =
    Some (length (join_colon A)).
Proof.
  intros A B HB.
  rewrite (rfind_app kDoubleColon (join_colon A) _ 0);
    [rewrite Nat.add_0_r; reflexivity|].
  assert (Hnone : rfind kDoubleColon (":"%char :: join_colon B) = None).
  { apply rfind_none. destruct B as [|g B]; [reflexivity|].
    inversion HB as [|? ? Hg HB']; subst.
    destruct (hextet_head g Hg) as [c [t [-> Hc]]].
    rewrite join_colon_cons. cbn [app].
    rewrite (find_colon_then_other c _ Hc).
    change (c :: t ++ colon_groups B) with ((c :: t) ++ colon_groups B).
    rewrite (find_skip (c :: t) _ (hextet_chars _ Hg)).
    rewrite (find_colon_groups_none B HB'). reflexivity. }
  change (kDoubleColon ++ join_colon B)
    with (":"%char :: ":"%char :: join_colon B).
  cbn [rfind]. cbn [rfind] in Hnone. rewrite Hnone.
  reflexivity.
Qed.

Lemma count_char_app :
  forall c a b, count_char c (a ++ b) = count_char c a + count_char c b.
Proof.
  intros c a b. induction a as [|x a IH]; [reflexivity|].
  cbn [app count_char]. rewrite IH. lia.
Qed.

Lemma count_colon_hextet :
  forall g, hextet_text g -> count_char ":"%char g = 0.
Proof.
  intros g Hg. apply hextet_chars in Hg.
  induction Hg as [|c g Hc _ IH]; [reflexivity|].
  cbn [count_char]. destruct (Ascii.eqb_spec c ":"%char); [contradiction|].
  exact IH.
Qed.

Lemma count_colon_groups :
  forall groups,
    Forall hextet_text groups ->
    count_char ":"%char (colon_groups groups) = Z.of_nat (length groups).
Proof.
  induction groups as [|g groups IH]; intros Hg; [reflexivity|].
  inversion Hg as [|? ? Hg1 Hg2]; subst.
  unfold colon_groups. cbn [map concat app]. fold (colon_groups groups).
  cbn [count_char]. rewrite Ascii.eqb_refl, count_char_app.
  rewrite (count_colon_hextet g Hg1), (IH Hg2).
  cbn [length]. lia.
Qed.

Lemma count_colon_join :
  forall groups,
    Forall hextet_text groups ->
    count_char ":"%char (join_colon groups) = single_colons groups.
Proof.
  intros [|g groups] Hg; [reflexivity|].
  inversion Hg as [|? ? Hg1 Hg2]; subst.
  rewrite join_colon_cons, count_char_app.
  rewrite (count_colon_hextet g Hg1), (count_colon_groups groups Hg2).
  reflexivity.
Qed.

Lemma to_int_small :
  forall x, -2147483648 <= x < 2147483648 -> to_int x = x.
Proof.
  intros x Hx. unfold to_int. rewrite Z.mod_small by lia. lia.
Qed.

Lemma join_colon_app :
  forall A B,
    A <> [] -> B <> [] ->
    join_colon (A ++ B) = join_colon A ++ ":"%char :: join_colon B.
Proof.
  induction A as [|g A IH]; intros B HA HB; [contradiction|].
  destruct A as [|g' A].
  - destruct B as [|b B]; [contradiction|]. reflexivity.
  - change (join_colon ((g :: g' :: A) ++ B))
      with (g ++ ":"%char :: join_colon ((g' :: A) ++ B)).
    rewrite (IH B) by (assumption || discriminate).
    change (join_colon (g :: g' :: A))
      with (g ++ ":"%char :: join_colon (g' :: A)).
    rewrite <- app_assoc. reflexivity.
Qed.

Lemma zero_groups_join :
  forall z,
    concat (repeat (lit "0:") z) ++ lit "0" =
    join_colon (repeat (lit "0") (S z)).
Proof.
  induction z as [|z IH]; [reflexivity|].
  cbn [repeat concat]. rewrite <- app_assoc, IH. reflexivity.
Qed.

Lemma zero_groups_spec :
  forall z : nat,
    (1 <= z)%nat ->
    zero_groups (Z.of_nat z) ++ lit "0" = join_colon (repeat (lit "0") z).
Proof.
  intros [|z] Hz; [lia|]. unfold zero_groups.
  replace (Z.to_nat (Z.of_nat (S z) - 1)) with z by lia.
  apply zero_groups_join.
Qed.

Lemma join_colon_length_pos :
  forall g A, hextet_text g -> (0 < length (join_colon (g :: A)))%nat.
Proof.
  intros g A [Hne _]. rewrite join_colon_cons, length_app.
  destruct g; [contradiction|]. simpl. lia.
Qed.

Lemma join_colon_nil :
  forall A,
    Forall hextet_text A -> (length (join_colon A) = 0%nat <-> A = []).
Proof.
  intros [|g A] HA; split; intros H; try reflexivity; try discriminate.
  inversion HA as [|? ? Hg _]; subst.
  pose proof (join_colon_length_pos g A Hg). lia.
Qed.

Lemma single_colons_length :
  forall A, single_colons A = Z.of_nat (length A - 1).
Proof.
  intros [|g A]; [reflexivity|]. cbn [single_colons length]. f_equal. lia.
Qed.

Lemma expand_double_colon :
  forall A B,
    Forall hextet_text A -> Forall hextet_text B ->
    (length A + length B <= 7)%nat ->
    ExpandIPv6DoubleColon (join_colon A ++ kDoubleColon ++ join_colon B) =
    join_colon (A ++ repeat (lit "0") (8 - length A - length B) ++ B).
Proof.
  intros A B HA HB Hlen. unfold ExpandIPv6DoubleColon.
  rewrite (find_join_double_colon A _ HA), (rfind_join_double_colon A B HB).
  cbn [option_nat_eqb]. rewrite Nat.eqb_refl. cbn [negb].
  rewrite !count_char_app, (count_colon_join A HA), (count_colon_join B HB).
  change (count_char ":"%char kDoubleColon) with 2.
  rewrite !single_colons_length.
  assert (Hsub : substr (join_colon A ++ kDoubleColon ++ join_colon B) 0
                        (length (join_colon A) + 1) =
                 join_colon A ++ lit ":").
  { unfold substr. cbn [skipn]. rewrite firstn_app_2. reflexivity. }
  assert (Hfrom : substr_from (join_colon A ++ kDoubleColon ++ join_colon B)
                              (length (join_colon A) + 1) =
                  ":"%char :: join_colon B).
  { unfold substr_from. rewrite skipn_app.
    rewrite skipn_all2 by lia.
    replace (length (join_colon A) + 1 - length (join_colon A))%nat
      with 1%nat by lia.
    reflexivity. }
  rewrite Hsub, Hfrom.
  rewrite !length_app. change (length kDoubleColon) with 2%nat.
  pose proof (join_colon_nil A HA) as NA.
  pose proof (join_colon_nil B HB) as NB.
  set (z := (8 - length A - length B)%nat).
  assert (Hz : (1 <= z)%nat) by (subst z; lia).
  assert (Hrep : repeat (lit "0") z <> []).
  { destruct z; [lia | discriminate]. }
  rewrite to_int_small by lia.
  destruct (Nat.eqb_spec (length (join_colon A)) 0) as [EA|EA];
    destruct (Nat.eqb_spec (length (join_colon A))
                (length (join_colon A) + (2 + length (join_colon B)) - 2))
      as [EB|EB];
    cbn [negb]; cbv iota.
  - (* nothing on either side *)
    assert (A = []) by (apply NA; exact EA).
    assert (B = []) by (apply NB; lia).
    subst A B z. reflexivity.
  - (* hextets behind only *)
    assert (A = []) by (apply NA; exact EA). subst A.
    assert (B <> []) by (intros E; apply NB in E; lia).
    cbn [app length] in *.
    replace (8 - (Z.of_nat (0 - 1) + (2 + Z.of_nat (length B - 1)) - 2) - 1)
      with (Z.of_nat z) by (subst z; destruct B; [congruence | cbn [length] in *; lia]).
    rewrite (zero_groups_spec z Hz).
    rewrite join_colon_app by assumption. reflexivity.
  - (* hextets in front only *)
    assert (B = []) by (apply NB; lia). subst B.
    assert (A <> []) by (intros E; apply NA in E; lia).
    cbn [length] in *. rewrite !app_nil_r.
    replace (8 - (Z.of_nat (length A - 1) + (2 + Z.of_nat (0 - 1)) - 2) - 1)
      with (Z.of_nat z) by (subst z; destruct A; [congruence | cbn [length] in *; lia]).
    rewrite <- app_assoc, (zero_groups_spec z Hz).
    rewrite join_colon_app by assumption.
    rewrite <- app_assoc. reflexivity.
  - (* hextets on both sides *)
    assert (A <> []) by (intros E; apply NA in E; lia).
    assert (B <> []) by (intros E; apply NB in E; lia).
    replace (8 - (Z.of_nat (length A - 1) + (2 + Z.of_nat (length B - 1)) - 2)
             - 1 - 1)
      with (Z.of_nat z)
      by (subst z; destruct A, B; try congruence; cbn [length] in *; lia).
    rewrite <- (app_assoc (join_colon A ++ lit ":")).
    rewrite (zero_groups_spec z Hz).
    rewrite (join_colon_app A)
      by (assumption ||
          (intros E; apply app_eq_nil in E; destruct E; contradiction)).
    rewrite (join_colon_app (repeat (lit "0") z)) by assumption.
    rewrite <- !app_assoc. reflexivity.
Qed.

Lemma join_colon_chars :
  forall groups,
    Forall hextet_text groups ->
    Forall (fun c => c = ":"%char \/ is_digit_of 16 c = true)
           (join_colon groups).
Proof.
  induction groups as [|g groups IH]; intros Hg; [constructor|].
  inversion Hg as [|? ? Hg1 Hg2]; subst. specialize (IH Hg2).
  assert (Hgc : Forall (fun c => c = ":"%char \/ is_digit_of 16 c = true) g).
  { destruct Hg1 as [_ [Hd _]]. apply Forall_forall. intros c Hin.
    right. rewrite forallb_forall in Hd. apply Hd, Hin. }
  destruct groups as [|g' groups]; [exact Hgc|].
  change (join_colon (g :: g' :: groups))
    with (g ++ ":"%char :: join_colon (g' :: groups)).
  apply Forall_app. split; [exact Hgc|].
  constructor; [left; reflexivity | exact IH].
Qed.

Lemma no_percent :
  forall s,
    Forall (fun c => c = ":"%char \/ is_digit_of 16 c = true) s ->
    find (lit "%") s = None.
Proof.
  intros s Hs. apply find_char_none. intros Hin.
  rewrite Forall_forall in Hs. destruct (Hs _ Hin) as [E|E]; discriminate E.
Qed.

Lemma ParseV6_plain :
  forall os s hextets,
    find (lit "%") s = None ->
    scan_values ":"%char 16 UINT16_MAX 8 0 (ExpandIPv6DoubleColon s) =
      Some (hextets, []) ->
    ParseV6 os s = Value (IPAddress_of_hextets hextets).
Proof.
  intros os s hextets Hp Hscan. unfold ParseV6. rewrite Hp. cbv zeta iota.
  rewrite Hscan. reflexivity.
Qed.

Lemma Parse_with_colon :
  forall os s, In ":"%char s -> Parse os s = ParseV6 os s.
Proof.
  intros os s Hin. unfold Parse.
  rewrite (ParseV4_rejects_char s ":"%char Hin); reflexivity.
Qed.

Lemma Parse_eight_groups :
  forall os groups,
    length groups = 8%nat -> Forall hextet_text groups ->
    Parse os (join_colon groups) =
    Value (IPAddress_of_hextets (map hex_value groups)).
Proof.
  intros os groups Hlen Hg.
  rewrite Parse_with_colon.
  - apply ParseV6_plain.
    + apply no_percent, join_colon_chars, Hg.
    + unfold ExpandIPv6DoubleColon. rewrite (find_join_none groups Hg).
      rewrite <- Hlen. apply scan_join_colon; [|exact Hg].
      intros ->. discriminate Hlen.
  - destruct groups as [|g [|g' groups]]; try discriminate Hlen.
    change (join_colon (g :: g' :: groups))
      with (g ++ ":"%char :: join_colon (g' :: groups)).
    apply in_or_app. right. left. reflexivity.
Qed.

Lemma hextet_text_zero : hextet_text (lit "0").
Proof.
  split; [discriminate|]. split; [reflexivity|]. vm_compute. discriminate.
Qed.

Lemma Parse_double_colon :
  forall os A B,
    Forall hextet_text A -> Forall hextet_text B ->
    (length A + length B <= 7)%nat ->
    Parse os (join_colon A ++ kDoubleColon ++ join_colon B) =
    Value (IPAddress_of_hextets
             (map hex_value A ++ repeat 0 (8 - length A - length B) ++
              map hex_value B)).
Proof.
  intros os A B HA HB Hlen.
  set (zeros := repeat (lit "0") (8 - length A - length B)).
  assert (Hall : Forall hextet_text (A ++ zeros ++ B)).
  { apply Forall_app. split; [exact HA|]. apply Forall_app.
    split; [|exact HB]. apply Forall_forall. intros g Hin.
    apply repeat_spec in Hin. subst g. exact hextet_text_zero. }
  assert (Hcount : length (A ++ zeros ++ B) = 8%nat).
  { subst zeros. rewrite !length_app, repeat_length. lia. }
  rewrite Parse_with_colon.
  - replace (map hex_value A ++ repeat 0 (8 - length A - length B) ++
             map hex_value B)
      with (map hex_value (A ++ zeros ++ B)).
    2:{ subst zeros. rewrite !map_app, map_repeat. reflexivity. }
    apply ParseV6_plain.
    + apply no_percent. apply Forall_app. split.
      * apply join_colon_chars, HA.
      * apply Forall_app. split.
        -- repeat constructor.
        -- apply join_colon_chars, HB.
    + rewrite (expand_double_colon A B HA HB Hlen). fold zeros.
      rewrite <- Hcount. apply scan_join_colon; [|exact Hall].
      intros E. rewrite E in Hcount. discriminate Hcount.
  - apply in_or_app. right. left. reflexivity.
Qed.

Lemma starts_with_nil_false :
  forall pat, pat <> [] -> starts_with pat [] = false.
Proof.
  intros [|c pat] H; [contradiction | reflexivity].
Qed.

(** [find] answers a position that is at most any position where the
    pattern occurs, [rfind] one that is at least that. *)
Lemma find_first :
  forall pat s i,
    occurs_at pat s i -> exists f, find pat s = Some f /\ (f <= i)%nat.
Proof.
  intros pat s. induction s as [|c s IH]; intros i H; unfold occurs_at in H.
  - rewrite skipn_nil in H. simpl. rewrite H. exists 0%nat. split; [reflexivity | lia].
  - cbn [find]. destruct (starts_with pat (c :: s)) eqn:E.
    + exists 0%nat. split; [reflexivity | lia].
    + destruct i as [|i]; [simpl in H; congruence|].
      destruct (IH i H) as [f [Hf Hle]]. rewrite Hf.
      exists (S f). split; [reflexivity | lia].
Qed.

Lemma rfind_last :
  forall pat s j,
    pat <> [] -> occurs_at pat s j ->
    exists r, rfind pat s = Some r /\ (j <= r)%nat.
Proof.
  intros pat s. induction s as [|c s IH]; intros j Hpat H;
    unfold occurs_at in H.
  - rewrite skipn_nil, (starts_with_nil_false pat Hpat) in H. discriminate.
  - cbn [rfind]. destruct j as [|j].
    + simpl in H. destruct (rfind pat s) as [r|].
      * exists (S r). split; [reflexivity | lia].
      * rewrite H. exists 0%nat. split; [reflexivity | lia].
    + destruct (IH j Hpat H) as [r [Hr Hle]]. rewrite Hr.
      exists (S r). split; [reflexivity | lia].
Qed.

Lemma expand_two_double_colons :
  forall s i j,
    i <> j ->
    occurs_at kDoubleColon s i -> occurs_at kDoubleColon s j ->
    ExpandIPv6DoubleColon s = [].
Proof.
  assert (Hpat : kDoubleColon <> []) by discriminate.
  assert (G : forall s i j, (i < j)%nat ->
              occurs_at kDoubleColon s i -> occurs_at kDoubleColon s j ->
              ExpandIPv6DoubleColon s = []).
  { intros s i j Hij Hi Hj.
    destruct (find_first _ _ _ Hi) as [f [Hf Hfi]].
    destruct (rfind_last _ _ _ Hpat Hj) as [r [Hr Hjr]].
    unfold ExpandIPv6DoubleColon. rewrite Hf, Hr. cbn [option_nat_eqb].
    destruct (Nat.eqb_spec f r) as [E|_]; [lia | reflexivity]. }
  intros s i j Hne Hi Hj.
  destruct (Nat.lt_total i j) as [L|[E|L]];
    [exact (G s i j L Hi Hj) | contradiction | exact (G s j i L Hj Hi)].
Qed.

Lemma occurs_at_in :
  forall s i, occurs_at kDoubleColon s i -> In ":"%char s.
Proof.
  intros s i H. unfold occurs_at in H.
  rewrite <- (firstn_skipn i s). apply in_or_app. right.
  destruct (skipn i s) as [|c t]; [discriminate|].
  unfold kDoubleColon in H. cbn [lit list_ascii_of_string starts_with] in H.
  apply andb_true_iff in H. destruct H as [Hc _].
  apply Ascii.eqb_eq in Hc. subst c. left. reflexivity.
Qed.

Lemma address_part_incl :
  forall s c, In c (address_part s) -> In c s.
Proof.
  intros s c. unfold address_part.
  destruct (find (lit "%") s) as [p|]; [|tauto].
  unfold substr. cbn [skipn]. intros Hin.
  rewrite <- (firstn_skipn p s). apply in_or_app. left. exact Hin.
Qed.

Lemma Parse_two_double_colons :
  forall os s i j,
    i <> j ->
    occurs_at kDoubleColon (address_part s) i ->
    occurs_at kDoubleColon (address_part s) j ->
    Parse os s = Failure (ErrorOf kInvalidIPV6Address).
Proof.
  intros os s i j Hne Hi Hj.
  rewrite Parse_with_colon
    by (apply address_part_incl; exact (occurs_at_in _ _ Hi)).
  pose proof (expand_two_double_colons _ i j Hne Hi Hj) as Hexp.
  unfold address_part in Hexp. unfold ParseV6.
  destruct (find (lit "%") s) as [p|]; cbv zeta iota.
  - destruct (parse_scope_id os (substr_from s (p + 1)) =? 0); [reflexivity|].
    rewrite Hexp. reflexivity.
  - rewrite Hexp. reflexivity.
Qed.

(** [C4] A text of eight hextets joined by colons is accepted.  A text
    with one double colon, [k] hextets in all around it, [k] at most 7,
    is expanded to the text with [8 - k] hextets 0 in the place of the
    double colon, and [Parse] returns the address of these eight hextets.
    A text in which the double colon occurs at two places before any
    zone suffix is rejected.  "abcd::10fe:dbca" gives the bytes ab cd, ten
    bytes 0, 10 fe db ca. *)
Theorem double_colon :
  forall os,
    (forall groups,
       length groups = 8%nat -> Forall hextet_text groups ->
       Parse os (join_colon groups) =
       Value (IPAddress_of_hextets (map hex_value groups))) /\
    (forall A B,
       Forall hextet_text A -> Forall hextet_text B ->
       (length A + length B <= 7)%nat ->
       ExpandIPv6DoubleColon (join_colon A ++ kDoubleColon ++ join_colon B) =
         join_colon (A ++ repeat (lit "0") (8 - length A - length B) ++ B) /\
       Parse os (join_colon A ++ kDoubleColon ++ join_colon B) =
         Value (IPAddress_of_hextets
                  (map hex_value A ++ repeat 0 (8 - length A - length B) ++
                   map hex_value B))) /\
    (forall s i j,
       i <> j ->
       occurs_at kDoubleColon (address_part s) i ->
       occurs_at kDoubleColon (address_part s) j ->
       Parse os s = Failure (ErrorOf kInvalidIPV6Address)) /\
    (exists a,
       Parse os (lit "abcd::10fe:dbca") = Value a /\
       bytes a = [171; 205; 0; 0; 0; 0; 0; 0; 0; 0; 0; 0; 16; 254; 219; 202]).
Proof.
  intros os. split; [|split; [|split]].
  - apply Parse_eight_groups.
  - intros A B HA HB Hlen. split.
    + apply expand_double_colon; assumption.
    + apply Parse_double_colon; assumption.
  - apply Parse_two_double_colons.
  - eexists. split; reflexivity.
Qed.

Lemma hextet_text_checked :
  forall g,
    negb (str_eqb g []) && forallb (is_digit_of 16) g &&
    (hex_value g <=? UINT16_MAX) = true ->
    hextet_text g.
Proof.
  intros g H. apply andb_true_iff in H. destruct H as [H Hv].
  apply andb_true_iff in H. destruct H as [Hne Hd].
  split; [intros ->; discriminate Hne|]. split; [exact Hd|].
  apply Z.leb_le. exact Hv.
Qed.

Lemma double_colon_witness :
  Parse posix_lo (join_colon [abcd] ++ kDoubleColon ++ join_colon [x10fe; dbca]) =
    Value (IPAddress_of_hextets
             (map hex_value [abcd] ++ repeat 0 (8 - 1 - 2) ++
              map hex_value [x10fe; dbca])) /\
  Parse posix_lo (lit "::abcd::dbca") = Failure (ErrorOf kInvalidIPV6Address).
Proof.
  destruct (double_colon posix_lo) as [_ [Hone [Htwo _]]].
  split.
  - apply (Hone [abcd] [x10fe; dbca]).
    + repeat constructor; apply hextet_text_checked; reflexivity.
    + repeat constructor; apply hextet_text_checked; reflexivity.
    + simpl. lia.
  - apply (Htwo (lit "::abcd::dbca") 0%nat 6%nat).
    + lia.
    + reflexivity.
    + reflexivity.
Defined.

(** The rejection as stated for every text in which the double colon
    occurs a second time: it fails on "fe80::1%lo0::", where the second
    double colon is in the zone suffix and the platform reads the name of
    the interface up to the colon. *)
Lemma double_colon_in_zone_accepted :
  occurs_at kDoubleColon (lit "fe80::1%lo0::") 4 /\
  occurs_at kDoubleColon (lit "fe80::1%lo0::") 11 /\
  Parse alias_names (lit "fe80::1%lo0::") =
    Value (set_scope_id (IPAddress_v6 65152 0 0 0 0 0 0 1) 1).
Proof.
  split; [reflexivity|]. split; reflexivity.
Qed.

(** ** Every way to make an address gives a value of the class *)

Lemma to_uint8_byte : forall x, is_byte (to_uint8 x).
Proof.
  intros x. unfold is_byte, to_uint8. apply Z.mod_pos_bound. lia.
Qed.

Lemma valid_default : valid IPAddress_default.
Proof.
  unfold valid. split; [reflexivity|].
  split; [apply is_byte_dec_true; reflexivity|].
  split; [simpl; lia | reflexivity].
Qed.

Lemma valid_v4 :
  forall b1 b2 b3 b4,
    is_byte b1 -> is_byte b2 -> is_byte b3 -> is_byte b4 ->
    valid (IPAddress_v4 b1 b2 b3 b4).
Proof.
  intros b1 b2 b3 b4 H1 H2 H3 H4. unfold valid. split; [|split; [|split]].
  - reflexivity.
  - simpl. repeat (constructor; [assumption || (unfold is_byte; lia)|]).
    constructor.
  - simpl. lia.
  - reflexivity.
Qed.

Lemma valid_v6 :
  forall h0 h1 h2 h3 h4 h5 h6 h7,
    valid (IPAddress_v6 h0 h1 h2 h3 h4 h5 h6 h7).
Proof.
  intros. unfold valid. split; [|split; [|split]].
  - reflexivity.
  - simpl. repeat (constructor; [apply to_uint8_byte|]). constructor.
  - simpl. lia.
  - intros H. discriminate H.
Qed.

Lemma valid_of_hextets : forall h, valid (IPAddress_of_hextets h).
Proof.
  intros h. apply valid_v6.
Qed.

Lemma valid_scoped :
  forall b scope_id,
    (16 <= length b)%nat -> Forall is_byte b ->
    0 <= scope_id < 4294967296 ->
    valid (IPAddress_scoped b scope_id).
Proof.
  intros b scope_id Hlen Hb Hs. unfold valid. split; [|split; [|split]].
  - unfold IPAddress_scoped. cbn [bytes_]. rewrite length_firstn. lia.
  - unfold IPAddress_scoped. cbn [bytes_].
    rewrite <- (firstn_skipn 16 b) in Hb.
    apply Forall_app in Hb. destruct Hb as [Hb _]. exact Hb.
  - exact Hs.
  - intros H. discriminate H.
Qed.

Lemma valid_from_span :
  forall v b a,
    Forall is_byte b -> IPAddress_from_span v b = Some a -> valid a.
Proof.
  intros v b a Hb. unfold IPAddress_from_span, IPAddress_of_span.
  set (n := match v with kV4 => kV4Size | kV6 => kV6Size end).
  assert (Hn : (n <= 16)%nat) by (subst n; destruct v; cbv; lia).
  destruct (Nat.leb_spec n (length b)) as [Hle|_]; [|discriminate].
  intros H. injection H as <-. unfold valid. split; [|split; [|split]];
    [| | simpl; lia | reflexivity].
  - cbn [bytes_].
    rewrite length_app, length_firstn, length_skipn.
    cbn [length]. lia.
  - cbn [bytes_]. apply Forall_app. split.
    + rewrite <- (firstn_skipn n b) in Hb.
      apply Forall_app in Hb. destruct Hb as [Hb _]. exact Hb.
    + apply Forall_forall. intros x Hin.
      assert (Hin' : In x (repeat 0 16)).
      { rewrite <- (firstn_skipn n (repeat 0 16)). apply in_or_app.
        right. exact Hin. }
      apply repeat_spec in Hin'. subst x. unfold is_byte. lia.
Qed.

Lemma scan_values_nth :
  forall vs max i,
    Forall (fun v => 0 <= v <= max) vs -> 0 <= max -> 0 <= nth i vs 0 <= max.
Proof.
  intros vs max i Hvs Hmax. destruct (Nat.lt_ge_cases i (length vs)) as [L|L].
  - rewrite Forall_forall in Hvs. apply Hvs. apply nth_In. exact L.
  - rewrite nth_overflow by exact L. lia.
Qed.

Lemma valid_ParseV4 : forall s a, ParseV4 s = Value a -> valid a.
Proof.
  intros s a. unfold ParseV4.
  destruct (scan_values "."%char 10 UINT8_MAX 4 0 s) as [[vs rest]|] eqn:E;
    [|discriminate].
  destruct rest as [|c rest]; [|discriminate].
  intros H. injection H as <-.
  assert (Hbase : 0 <= 10) by lia.
  destruct (scan_values_ok _ _ _ _ _ _ _ _ Hbase E) as [_ [_ [_ [_ Hvs]]]].
  assert (Hb : forall i, is_byte (nth i vs 0)).
  { intros i. pose proof (scan_values_nth vs UINT8_MAX i Hvs) as Hi.
    unfold is_byte. unfold UINT8_MAX in Hi. lia. }
  apply valid_v4; apply Hb.
Qed.

Lemma parse_scope_id_range :
  forall os id,
    index_is_uint32 os -> 0 <= parse_scope_id os id < 4294967296.
Proof.
  intros os id Hos. unfold parse_scope_id.
  assert (Hidx : 0 <= interface_index os id < 4294967296).
  { unfold interface_index. destruct (IS_POSIX os); [apply Hos | lia]. }
  destruct (interface_index os id =? 0); [|exact Hidx].
  assert (Hbase : 0 <= 10) by lia.
  destruct (fc_ec (from_chars_unsigned 10 UINT32_MAX id 0)) eqn:Eec;
    try exact Hidx.
  destruct (from_chars_unsigned_ok 10 UINT32_MAX id 0 Hbase Eec)
    as [_ [_ [_ [_ Hv]]]].
  destruct (fc_rest (from_chars_unsigned 10 UINT32_MAX id 0)); [|exact Hidx].
  destruct (0 <? fc_value (from_chars_unsigned 10 UINT32_MAX id 0));
    [|exact Hidx].
  unfold UINT32_MAX in *. lia.
Qed.

Lemma valid_ParseV6 :
  forall os s a, index_is_uint32 os -> ParseV6 os s = Value a -> valid a.
Proof.
  intros os s a Hos. unfold ParseV6.
  set (scope_id := match find (lit "%") s with
                   | Some p => parse_scope_id os (substr_from s (p + 1))
                   | None => 0
                   end).
  assert (Hscope : 0 <= scope_id < 4294967296).
  { subst scope_id. destruct (find (lit "%") s);
      [apply parse_scope_id_range; exact Hos | lia]. }
  destruct (match find (lit "%") s with
            | Some _ => scope_id =? 0
            | None => false
            end); [discriminate|].
  destruct (scan_values ":"%char 16 UINT16_MAX 8 0 _) as [[hextets rest]|];
    [|discriminate].
  destruct rest as [|c rest]; [|discriminate].
  destruct (negb (scope_id =? 0)).
  - destruct (negb (IsLinkLocal (IPAddress_of_hextets hextets)));
      [discriminate|].
    intros H. injection H as <-.
    destruct (valid_of_hextets hextets) as [Hl [Hb _]].
    unfold valid. split; [exact Hl|]. split; [exact Hb|].
    split; [exact Hscope|]. intros H. discriminate H.
  - intros H. injection H as <-. apply valid_of_hextets.
Qed.

Lemma valid_Parse :
  forall os s a, index_is_uint32 os -> Parse os s = Value a -> valid a.
Proof.
  intros os s a Hos. unfold Parse.
  destruct (ParseV4 s) as [a4|e] eqn:E4.
  - intros H. injection H as <-. exact (valid_ParseV4 s a4 E4).
  - apply valid_ParseV6. exact Hos.
Qed.

(** An address [Parse] returns carries a scope id only when it is
    link-local. *)
Lemma Parse_scope_only_on_link_local :
  forall os s a, Parse os s = Value a -> scope_only_on_link_local a.
Proof.
  intros os s a. unfold Parse, scope_only_on_link_local.
  destruct (ParseV4 s) as [a4|e] eqn:E4.
  - intros H _. injection H as <-. revert E4. unfold ParseV4.
    destruct (scan_values "."%char 10 UINT8_MAX 4 0 s) as [[vs [|c rest]]|];
      try discriminate.
    intros H. injection H as <-. reflexivity.
  - unfold ParseV6.
    destruct (match find (lit "%") s with
              | Some _ => _
              | None => false
              end); [discriminate|].
    destruct (scan_values ":"%char 16 UINT16_MAX 8 0 _) as [[hextets rest]|];
      [|discriminate].
    destruct rest as [|c rest]; [|discriminate].
    destruct (negb (_ =? 0)).
    + destruct (IsLinkLocal (IPAddress_of_hextets hextets)) eqn:Ell;
        [|discriminate].
      intros H Hll. injection H as <-.
      unfold IsLinkLocal, IsV6 in *. simpl in *. congruence.
    + intros H _. injection H as <-. reflexivity.
Qed.

Lemma IPAddress_order_witness :
  exactly_one
    (IPAddress_ltb (IPAddress_v4 192 168 0 1) (IPAddress_v6 0 0 0 0 0 0 0 1))
    (IPAddress_eqb (IPAddress_v4 192 168 0 1) (IPAddress_v6 0 0 0 0 0 0 0 1))
    (IPAddress_gtb (IPAddress_v4 192 168 0 1) (IPAddress_v6 0 0 0 0 0 0 0 1)) /\
  IPAddress_ltb (IPAddress_v4 192 168 0 1) (IPAddress_v6 0 0 0 0 0 0 0 1) = true.
Proof.
  destruct (IPAddress_order (IPAddress_v4 192 168 0 1)
                            (IPAddress_v6 0 0 0 0 0 0 0 1))
    as [Hone [Hversion _]].
  - apply valid_v4; unfold is_byte; lia.
  - apply valid_v6.
  - split; [exact Hone | apply Hversion; reflexivity].
Defined.

(** ** Text output read back *)

Lemma hex2_sound_all : forall b, is_byte b -> hex2_sound b = true.
Proof.
  apply forall_bytes. vm_compute. reflexivity.
Qed.

Lemma dec_sound_all : forall b, is_byte b -> dec_sound b = true.
Proof.
  apply forall_bytes. vm_compute. reflexivity.
Qed.

Lemma hextet_of_bytes :
  forall b b',
    is_byte b -> is_byte b' ->
    hextet_text (hex2 b ++ hex2 b') /\
    hex_value (hex2 b ++ hex2 b') = 256 * b + b'.
Proof.
  intros b b' Hb Hb'.
  pose proof (hex2_sound_all b Hb) as S1.
  pose proof (hex2_sound_all b' Hb') as S2.
  unfold hex2_sound in *.
  destruct (hex2 b) as [|c1 [|c2 [|? ?]]]; try discriminate.
  destruct (hex2 b') as [|c3 [|c4 [|? ?]]]; try discriminate.
  destruct (digit_in 16 c1) as [d1|] eqn:E1; [|discriminate].
  destruct (digit_in 16 c2) as [d2|] eqn:E2; [|discriminate].
  destruct (digit_in 16 c3) as [d3|] eqn:E3; [|discriminate].
  destruct (digit_in 16 c4) as [d4|] eqn:E4; [|discriminate].
  apply Z.eqb_eq in S1, S2.
  assert (Hv : hex_value ([c1; c2] ++ [c3; c4]) = 256 * b + b').
  { unfold hex_value, digits_value. cbn [app map fold_left].
    rewrite E1, E2, E3, E4. lia. }
  split; [|exact Hv].
  split; [discriminate|]. split.
  - cbn [app forallb]. unfold is_digit_of. rewrite E1, E2, E3, E4. reflexivity.
  - rewrite Hv. unfold is_byte, UINT16_MAX in *. lia.
Qed.

Lemma hextet_bytes_of_bytes :
  forall b b',
    is_byte b -> is_byte b' -> hextet_bytes (256 * b + b') = [b; b'].
Proof.
  intros b b' Hb Hb'. unfold hextet_bytes, to_uint8, is_byte in *.
  rewrite Z.shiftr_div_pow2 by lia. change (2 ^ 8) with 256.
  replace ((256 * b + b') / 256) with b
    by (apply Z.div_unique with (r := b'); lia).
  replace ((256 * b + b') mod 256) with b'
    by (apply Z.mod_unique with (q := b); lia).
  rewrite Z.mod_small by lia. reflexivity.
Qed.

Lemma from_chars_decimal_byte :
  forall b rest,
    is_byte b ->
    match rest with c :: _ => c = "."%char | [] => True end ->
    from_chars_unsigned 10 UINT8_MAX (show_unsigned 10 b ++ rest) 0 =
    {| fc_value := b; fc_rest := rest; fc_ec := errc_ok |}.
Proof.
  intros b rest Hb Hrest.
  pose proof (dec_sound_all b Hb) as S. unfold dec_sound in S. cbv zeta in S.
  apply andb_true_iff in S. destruct S as [S Hv].
  apply andb_true_iff in S. destruct S as [Hne Hd].
  apply Z.eqb_eq in Hv.
  destruct (span_digits_digits 10 (show_unsigned 10 b) rest Hd)
    as [ds [Hs Hm]].
  { destruct rest as [|c rest']; [exact I|]. subst c. reflexivity. }
  unfold from_chars_unsigned. rewrite Hs.
  assert (Hval : digits_value 10 ds = b).
  { rewrite <- Hv. f_equal. clear -Hm. revert ds Hm.
    induction (show_unsigned 10 b) as [|c s IH]; intros [|d ds] Hm;
      try discriminate; [reflexivity|].
    simpl in Hm. injection Hm as Hc Hm. simpl. rewrite Hc. f_equal.
    apply IH. exact Hm. }
  destruct ds as [|d ds].
  - destruct (show_unsigned 10 b); [discriminate Hne | discriminate Hm].
  - rewrite Hval. unfold is_byte, UINT8_MAX in *.
    destruct (Z.leb_spec b 255); [reflexivity | lia].
Qed.

Lemma print_v4 :
  forall os b0 b1 b2 b3 tail scope,
    IPAddress_print os
      {| version_ := kV4; bytes_ := b0 :: b1 :: b2 :: b3 :: tail;
         scope_id_ := scope |} =
    show_unsigned 10 b0 ++ "."%char ::
    show_unsigned 10 b1 ++ "."%char ::
    show_unsigned 10 b2 ++ "."%char :: show_unsigned 10 b3.
Proof.
  intros. unfold IPAddress_print. cbn [IsV4 version_ Version_eqb].
  unfold IsLinkLocal. cbn [IsV6 version_ Version_eqb negb andb].
  unfold bytes, size. cbn [version_ bytes_ kV4Size firstn show_bytes].
  unfold pad_left. cbn [Nat.sub repeat app Nat.ltb Nat.leb andb Nat.modulo].
  rewrite app_nil_r. reflexivity.
Qed.

Lemma Parse_print_v4 :
  forall os b0 b1 b2 b3 tail scope,
    is_byte b0 -> is_byte b1 -> is_byte b2 -> is_byte b3 ->
    Parse os (IPAddress_print os
                {| version_ := kV4; bytes_ := b0 :: b1 :: b2 :: b3 :: tail;
                   scope_id_ := scope |}) =
    Value (IPAddress_v4 b0 b1 b2 b3).
Proof.
  intros os b0 b1 b2 b3 tail scope H0 H1 H2 H3.
  rewrite print_v4. unfold Parse, ParseV4. cbn [scan_values].
  change (0 <? 0)%nat with false. cbv iota.
  rewrite from_chars_decimal_byte by (exact H0 || reflexivity).
  cbn [fc_ec fc_rest fc_value]. 
  change (0 <? 1)%nat with true. cbv iota. rewrite Ascii.eqb_refl.
  rewrite from_chars_decimal_byte by (exact H1 || reflexivity).
  cbn [fc_ec fc_rest fc_value].
  change (0 <? 2)%nat with true. cbv iota. rewrite Ascii.eqb_refl.
  rewrite from_chars_decimal_byte by (exact H2 || reflexivity).
  cbn [fc_ec fc_rest fc_value].
  change (0 <? 3)%nat with true. cbv iota. rewrite Ascii.eqb_refl.
  rewrite <- (app_nil_r (show_unsigned 10 b3)).
  rewrite from_chars_decimal_byte by (exact H3 || exact I).
  reflexivity.
Qed.

Lemma show_bytes_v6 :
  forall l,
    length l = 16%nat ->
    show_bytes 16 ":"%char 2 2 0 l = join_colon (hex_groups l).
Proof.
  intros l Hlen. sixteen l Hlen. unfold hex2.
  cbv -[pad_left show_unsigned app]. cbn [app].
  rewrite <- !app_assoc. cbn [app]. rewrite app_nil_r. reflexivity.
Qed.

Lemma hex_groups_spec :
  forall l,
    Forall is_byte l ->
    Forall hextet_text (hex_groups l) /\
    map hex_value (hex_groups l) = hextets_of l.
Proof.
  fix IH 1. intros [|b [|b' rest]] Hl; try (split; [constructor | reflexivity]).
  inversion Hl as [|? ? Hb Hl']; subst.
  inversion Hl' as [|? ? Hb' Hrest]; subst.
  destruct (IH rest Hrest) as [Hg Hv].
  destruct (hextet_of_bytes b b' Hb Hb') as [Ht Hval].
  cbn [hex_groups hextets_of map]. split.
  - constructor; assumption.
  - rewrite Hval, Hv. reflexivity.
Qed.

Lemma ParseV6_eight_groups :
  forall os groups,
    length groups = 8%nat -> Forall hextet_text groups ->
    ParseV6 os (join_colon groups) =
    Value (IPAddress_of_hextets (map hex_value groups)).
Proof.
  intros os groups Hlen Hg. apply ParseV6_plain.
  - apply no_percent, join_colon_chars, Hg.
  - unfold ExpandIPv6DoubleColon. rewrite (find_join_none groups Hg).
    rewrite <- Hlen. apply scan_join_colon; [|exact Hg].
    intros ->. discriminate Hlen.
Qed.

Lemma find_char_after :
  forall c pre rest,
    ~ In c pre -> find [c] (pre ++ c :: rest) = Some (length pre).
Proof.
  intros c pre rest. induction pre as [|x pre IH]; intros Hn.
  - cbn [app find starts_with]. rewrite Ascii.eqb_refl. reflexivity.
  - cbn [app find starts_with length].
    destruct (Ascii.eqb_spec c x) as [E|E].
    + exfalso. apply Hn. left. symmetry. exact E.
    + cbn [andb]. rewrite IH; [reflexivity|].
      intros Hin. apply Hn. right. exact Hin.
Qed.

Lemma of_hextets_bytes :
  forall l,
    length l = 16%nat -> Forall is_byte l ->
    bytes_ (IPAddress_of_hextets (hextets_of l)) = l.
Proof.
  intros l Hlen Hl. sixteen l Hlen.
  repeat match goal with
         | H : Forall is_byte (_ :: _) |- _ =>
             let Hb := fresh "Hb" in
             let Hr := fresh "Hr" in
             inversion H as [|? ? Hb Hr]; subst; clear H
         end.
  unfold IPAddress_of_hextets, IPAddress_v6.
  cbn [hextets_of nth bytes_].
  rewrite !hextet_bytes_of_bytes by assumption. reflexivity.
Qed.

Lemma parse_scope_id_index :
  forall os id,
    interface_index os id <> 0 -> parse_scope_id os id = interface_index os id.
Proof.
  intros os id H. unfold parse_scope_id.
  destruct (Z.eqb_spec (interface_index os id) 0); [contradiction | reflexivity].
Qed.

Lemma IPAddress_eqb_same :
  forall v l l' scope,
    l = l' ->
    IPAddress_eqb {| version_ := v; bytes_ := l; scope_id_ := scope |}
                  {| version_ := v; bytes_ := l'; scope_id_ := scope |} = true.
Proof.
  intros v l l' scope <-. unfold IPAddress_eqb. cbn [version_ bytes_ scope_id_].
  rewrite bytes_eqb_refl, Z.eqb_refl. destruct v; reflexivity.
Qed.

(** Where the text written for an address parses to an equal address:
    for every address of version 4, and for every address of version 6
    whose scope id is 0, or is the index of an interface whose name the
    platform gives and resolves back to that index. *)
Lemma print_parse_round_trip :
  forall os a,
    valid a ->
    scope_only_on_link_local a ->
    (GetScopeId a = 0 \/
     exists ifname,
       IS_POSIX os = true /\
       if_indextoname os (GetScopeId a) = Some ifname /\
       if_nametoindex os (c_str ifname) = GetScopeId a) ->
    exists a',
      Parse os (IPAddress_print os a) = Value a' /\
      IPAddress_eqb a a' = true.
Proof.
  intros os [v l scope] [Hlen [Hbytes [_ Hv4]]] Hinv Hscope.
  unfold GetScopeId in *. cbn [version_ bytes_ scope_id_] in *.
  destruct v.
  - (* version 4 *)
    rewrite (Hv4 eq_refl) in *.
    destruct l as [|b0 [|b1 [|b2 [|b3 tail]]]]; try discriminate Hlen.
    inversion Hbytes as [|? ? H0 Hr0]; subst.
    inversion Hr0 as [|? ? H1 Hr1]; subst.
    inversion Hr1 as [|? ? H2 Hr2]; subst.
    inversion Hr2 as [|? ? H3 _]; subst.
    exists (IPAddress_v4 b0 b1 b2 b3). split.
    + apply Parse_print_v4; assumption.
    + unfold IPAddress_eqb, IPAddress_v4, size.
      cbn [version_ bytes_ scope_id_ Version_eqb kV4Size firstn app bytes_eqb].
      rewrite !Z.eqb_refl. reflexivity.
  - (* version 6 *)
    destruct (hex_groups_spec l Hbytes) as [Hgroups Hvalues].
    assert (Hcount : length (hex_groups l) = 8%nat).
    { clear -Hlen. sixteen l Hlen. reflexivity. }
    assert (Hout : show_bytes 16 ":"%char 2 2 0
                     (bytes {| version_ := kV6; bytes_ := l;
                               scope_id_ := scope |}) =
                   join_colon (hex_groups l)).
    { unfold bytes, size. cbn [version_ bytes_ kV6Size].
      rewrite <- Hlen at 1. rewrite firstn_all.
      apply show_bytes_v6. exact Hlen. }
    assert (Hparse : ParseV6 os (join_colon (hex_groups l)) =
                     Value {| version_ := kV6; bytes_ := l; scope_id_ := 0 |}).
    { rewrite (ParseV6_eight_groups os _ Hcount Hgroups), Hvalues.
      f_equal.
      pose proof (of_hextets_bytes l Hlen Hbytes) as Hb.
      unfold IPAddress_of_hextets, IPAddress_v6 in *. cbn [bytes_] in Hb.
      rewrite Hb. reflexivity. }
    unfold IPAddress_print.
    cbn [IsV4 version_ Version_eqb GetScopeId scope_id_]. rewrite Hout.
    destruct (Z.eqb_spec scope 0) as [E0|E0].
    + (* no scope id *)
      subst scope. rewrite andb_false_r.
      exists {| version_ := kV6; bytes_ := l; scope_id_ := 0 |}. split.
      * rewrite (Parse_eight_groups os _ Hcount Hgroups), Hvalues.
        f_equal.
        pose proof (of_hextets_bytes l Hlen Hbytes) as Hb.
        unfold IPAddress_of_hextets, IPAddress_v6 in *. cbn [bytes_] in Hb.
        rewrite Hb. reflexivity.
      * apply IPAddress_eqb_same. reflexivity.
    + (* the scope id of a named interface *)
      destruct Hscope as [Hz | [ifname [Hposix [Hname Hindex]]]];
        [contradiction|].
      assert (Hll : IsLinkLocal {| version_ := kV6; bytes_ := l;
                                   scope_id_ := scope |} = true).
      { destruct (IsLinkLocal _) eqn:E; [reflexivity|].
        exfalso. apply E0. apply Hinv. exact E. }
      rewrite Hll, Hposix, Hname. cbn [negb andb].
      set (text := join_colon (hex_groups l)) in *.
      assert (Hfind : find (lit "%") (text ++ lit "%" ++ ifname) =
                      Some (length text)).
      { apply find_char_after. intros Hin.
        pose proof (join_colon_chars _ Hgroups) as Hc. fold text in Hc.
        rewrite Forall_forall in Hc.
        destruct (Hc _ Hin) as [E|E]; discriminate E. }
      exists {| version_ := kV6; bytes_ := l; scope_id_ := scope |}. split.
      * rewrite (Parse_with_percent os _ _ Hfind).
        rewrite (ParseV6_scoped os _ _ Hfind).
        assert (Hid : substr_from (text ++ lit "%" ++ ifname)
                                  (length text + 1) = ifname).
        { unfold substr_from. rewrite skipn_app, skipn_all2 by lia.
          replace (length text + 1 - length text)%nat with 1%nat by lia.
          reflexivity. }
        assert (Hpart : substr (text ++ lit "%" ++ ifname) 0 (length text) =
                        text).
        { unfold substr. cbn [skipn].
          rewrite firstn_app, Nat.sub_diag, firstn_all. cbn [firstn].
          apply app_nil_r. }
        rewrite Hid, Hpart, Hparse. cbv zeta.
        assert (Hidx : interface_index os ifname = scope).
        { unfold interface_index. rewrite Hposix. exact Hindex. }
        rewrite parse_scope_id_index by (rewrite Hidx; exact E0).
        rewrite Hidx.
        destruct (Z.eqb_spec scope 0); [contradiction|].
        replace (IsLinkLocal {| version_ := kV6; bytes_ := l; scope_id_ := 0 |})
          with true by (rewrite <- Hll; reflexivity).
        reflexivity.
      * apply IPAddress_eqb_same. reflexivity.
Qed.

(** ** The order as a strict total order *)

Lemma be_value_injective :
  forall n a b,
    length a = n -> length b = n -> Forall is_byte a -> Forall is_byte b ->
    be_value a = be_value b -> a = b.
Proof.
  intros n a b Ha Hb Fa Fb Heq.
  destruct (memcmp_be_value n a b Ha Hb Fa Fb) as [Hlt Hzero].
  destruct (memcmp_be_value n b a Hb Ha Fb Fa) as [Hgt _].
  apply Hzero.
  pose proof (memcmp_swap n a b) as Hswap.
  destruct (memcmp_values n a b) as [H|[H|H]]; [|exact H|].
  - assert (be_value a < be_value b) by (apply Hlt; lia). lia.
  - assert (be_value b < be_value a) by (apply Hgt; lia). lia.
Qed.

Lemma IPAddress_ltb_key :
  forall a b,
    valid a -> valid b ->
    (IPAddress_ltb a b = true <-> triple_lt (order_key a) (order_key b)).
Proof.
  intros a b Va Vb.
  pose proof (ltb_same_version a b 4 Va Vb ltac:(lia)) as [L4 E4].
  pose proof (ltb_same_version a b 16 Va Vb ltac:(lia)) as [L16 E16].
  pose proof (be_value_injective 16 (firstn 16 (bytes_ a)) (firstn 16 (bytes_ b))
                (valid_firstn_length a 16 Va ltac:(lia))
                (valid_firstn_length b 16 Vb ltac:(lia))
                (valid_firstn_bytes a 16 Va) (valid_firstn_bytes b 16 Vb))
    as I16.
  destruct Va as [_ [_ [_ Za]]]. destruct Vb as [_ [_ [_ Zb]]].
  unfold IPAddress_ltb, order_key, triple_lt, IsV4, version, bytes, size,
    kV4Size, kV6Size in *.
  destruct a as [va la sa], b as [vb lb sb]. cbn [version_ bytes_ scope_id_] in *.
  destruct va, vb; cbn [Version_eqb Version_ltb negb version_rank].
  - rewrite (Za eq_refl), (Zb eq_refl), Z.ltb_lt, L4. split; [lia|].
    intros [H|[_ [H|[_ H]]]]; lia.
  - split; [lia | reflexivity].
  - split; [discriminate | lia].
  - destruct (Z.eqb_spec (memcmp la lb 16) 0) as [E0|E0]; cbn [negb].
    + rewrite Z.ltb_lt. apply E16 in E0. rewrite E0. split; [lia|].
      intros [H|[_ [H|[_ H]]]]; lia.
    + rewrite Z.ltb_lt, L16. split; [lia|].
      intros [H|[_ [H|[Hb H]]]]; [lia | exact H |].
      exfalso. apply E0. apply E16. apply I16. exact Hb.
Qed.

Lemma IPAddress_eqb_key :
  forall a b,
    valid a -> valid b ->
    (IPAddress_eqb a b = true <-> order_key a = order_key b).
Proof.
  intros a b Va Vb.
  assert (I : forall n, (n <= 16)%nat ->
              be_value (firstn n (bytes_ a)) = be_value (firstn n (bytes_ b)) ->
              firstn n (bytes_ a) = firstn n (bytes_ b)).
  { intros n Hn. apply (be_value_injective n).
    - apply valid_firstn_length; assumption.
    - apply valid_firstn_length; assumption.
    - apply valid_firstn_bytes; assumption.
    - apply valid_firstn_bytes; assumption. }
  unfold IPAddress_eqb, order_key, version, bytes, size, kV4Size, kV6Size in *.
  destruct a as [va la sa], b as [vb lb sb]. cbn [version_ bytes_ scope_id_] in *.
  destruct va, vb; cbn [Version_eqb version_rank andb];
    try (split; [discriminate | intros H; injection H; lia]).
  - rewrite andb_true_iff, bytes_eqb_eq, Z.eqb_eq. split.
    + intros [-> ->]. reflexivity.
    + intros H. injection H as Hb Hs. split; [apply I; [lia | exact Hb] | exact Hs].
  - rewrite andb_true_iff, bytes_eqb_eq, Z.eqb_eq. split.
    + intros [-> ->]. reflexivity.
    + intros H. injection H as Hb Hs. split; [apply I; [lia | exact Hb] | exact Hs].
Qed.

Lemma triple_lt_trans :
  forall x y z, triple_lt x y -> triple_lt y z -> triple_lt x z.
Proof.
  intros [[x1 x2] x3] [[y1 y2] y3] [[z1 z2] z3]. unfold triple_lt. lia.
Qed.

Lemma triple_lt_irrefl : forall x, ~ triple_lt x x.
Proof.
  intros [[x1 x2] x3]. unfold triple_lt. lia.
Qed.

Lemma triple_lt_total :
  forall x y, triple_lt x y \/ x = y \/ triple_lt y x.
Proof.
  intros [[x1 x2] x3] [[y1 y2] y3]. unfold triple_lt.
  destruct (Z.lt_total x1 y1) as [H|[H|H]]; [lia | | lia].
  destruct (Z.lt_total x2 y2) as [H2|[H2|H2]]; [lia | | lia].
  destruct (Z.lt_total x3 y3) as [H3|[H3|H3]]; [lia | | lia].
  right. left. congruence.
Qed.

(** [X1] On the values of the class, [operator<] is a strict total order
    and [operator==] is its equality: [a < b] is the lexicographic
    comparison of version, bytes (as a big-endian number) and scope id,
    and [a == b] says that these three agree; so [<] is irreflexive and
    transitive, two addresses that are not equal are ordered one way,
    and [a <= b] and [a >= b] are [a < b || a == b] and
    [a > b || a == b]. *)
Theorem IPAddress_strict_total_order :
  forall a b c,
    valid a -> valid b -> valid c ->
    (IPAddress_ltb a b = true <-> triple_lt (order_key a) (order_key b)) /\
    (IPAddress_eqb a b = true <-> order_key a = order_key b) /\
    IPAddress_ltb a a = false /\
    (IPAddress_ltb a b = true -> IPAddress_ltb b c = true ->
     IPAddress_ltb a c = true) /\
    (IPAddress_eqb a b = false ->
     IPAddress_ltb a b = true \/ IPAddress_ltb b a = true) /\
    IPAddress_leb a b = IPAddress_ltb a b || IPAddress_eqb a b /\
    IPAddress_geb a b = IPAddress_gtb a b || IPAddress_eqb a b.
Proof.
  intros a b c Va Vb Vc.
  pose proof (IPAddress_ltb_key a b Va Vb) as Lab.
  pose proof (IPAddress_ltb_key b a Vb Va) as Lba.
  pose proof (IPAddress_ltb_key b c Vb Vc) as Lbc.
  pose proof (IPAddress_ltb_key a c Va Vc) as Lac.
  pose proof (IPAddress_ltb_key a a Va Va) as Laa.
  pose proof (IPAddress_eqb_key a b Va Vb) as Eab.
  pose proof (triple_lt_total (order_key a) (order_key b)) as T.
  pose proof (triple_lt_irrefl (order_key a)) as Irr.
  assert (Asym : triple_lt (order_key a) (order_key b) ->
                 triple_lt (order_key b) (order_key a) -> False).
  { intros H1 H2. apply Irr. eapply triple_lt_trans; eassumption. }
  split; [exact Lab|]. split; [exact Eab|]. split; [|split; [|split; [|split]]].
  - destruct (IPAddress_ltb a a); [|reflexivity].
    exfalso. apply Irr, Laa. reflexivity.
  - intros H1 H2. apply Lac.
    eapply triple_lt_trans; [apply Lab, H1 | apply Lbc, H2].
  - intros Hne. destruct T as [H|[H|H]].
    + left. apply Lab, H.
    + apply Eab in H. congruence.
    + right. apply Lba, H.
  - unfold IPAddress_leb.
    destruct (IPAddress_ltb a b) eqn:E1, (IPAddress_eqb a b) eqn:E2,
             (IPAddress_ltb b a) eqn:E3; try reflexivity; exfalso.
    + apply Asym; [apply Lab | apply Lba]; reflexivity.
    + apply Asym; [apply Lab | apply Lba]; reflexivity.
    + assert (Hk : order_key a = order_key b) by (apply Eab; reflexivity).
      apply Irr. rewrite Hk at 1. apply Lba. reflexivity.
    + destruct T as [H|[H|H]].
      * apply Lab in H. congruence.
      * apply Eab in H. congruence.
      * apply Lba in H. congruence.
  - unfold IPAddress_geb, IPAddress_gtb.
    destruct (IPAddress_ltb a b) eqn:E1, (IPAddress_eqb a b) eqn:E2,
             (IPAddress_ltb b a) eqn:E3; try reflexivity; exfalso.
    + apply Asym; [apply Lab | apply Lba]; reflexivity.
    + assert (Hk : order_key a = order_key b) by (apply Eab; reflexivity).
      apply Irr. rewrite Hk at 2. apply Lab. reflexivity.
    + apply Asym; [apply Lab | apply Lba]; reflexivity.
    + destruct T as [H|[H|H]].
      * apply Lab in H. congruence.
      * apply Eab in H. congruence.
      * apply Lba in H. congruence.
Qed.

Lemma IPAddress_strict_total_order_witness :
  IPAddress_ltb (IPAddress_v4 10 0 0 1) (IPAddress_v6 0 0 0 0 0 0 0 1) = true.
Proof.
  destruct (IPAddress_strict_total_order
              (IPAddress_v4 10 0 0 1) (IPAddress_v4 192 168 0 1)
              (IPAddress_v6 0 0 0 0 0 0 0 1))
    as [_ [_ [_ [Htrans _]]]].
  - apply valid_v4; unfold is_byte; lia.
  - apply valid_v4; unfold is_byte; lia.
  - apply valid_v6.
  - apply Htrans; reflexivity.
Defined.

(** [X2] On endpoints of valid addresses, [operator<] is the lexicographic
    order of address and port: exactly one of [a < b], [a == b], [b < a]
    holds, and [<] is transitive. *)
Theorem IPEndpoint_strict_total_order :
  forall a b c,
    valid_endpoint a -> valid_endpoint b -> valid_endpoint c ->
    (IPEndpoint_ltb a b = true <-> endpoint_lt (endpoint_key a) (endpoint_key b)) /\
    (IPEndpoint_eqb a b = true <-> endpoint_key a = endpoint_key b) /\
    exactly_one (IPEndpoint_ltb a b) (IPEndpoint_eqb a b) (IPEndpoint_ltb b a) /\
    (IPEndpoint_ltb a b = true -> IPEndpoint_ltb b c = true ->
     IPEndpoint_ltb a c = true).
Proof.
  assert (Key : forall a b, valid_endpoint a -> valid_endpoint b ->
            (IPEndpoint_ltb a b = true <->
             endpoint_lt (endpoint_key a) (endpoint_key b)) /\
            (IPEndpoint_eqb a b = true <-> endpoint_key a = endpoint_key b)).
  { intros a b [Va _] [Vb _].
    pose proof (IPAddress_ltb_key (address a) (address b) Va Vb) as L.
    pose proof (IPAddress_eqb_key (address a) (address b) Va Vb) as E.
    pose proof (triple_lt_irrefl (order_key (address b))) as Irr.
    unfold IPEndpoint_ltb, IPEndpoint_eqb, IPAddress_neqb, endpoint_lt,
      endpoint_key. cbn [fst snd].
    destruct (IPAddress_eqb (address a) (address b)) eqn:Eab; cbn [negb andb].
    - assert (Hk : order_key (address a) = order_key (address b))
        by (apply E; reflexivity).
      rewrite Hk, Z.ltb_lt, Z.eqb_eq. split; split.
      + intros H. right. split; [reflexivity | exact H].
      + intros [H|[_ H]]; [exfalso; apply Irr; exact H | exact H].
      + intros ->. reflexivity.
      + intros H. apply (f_equal snd) in H. exact H.
    - assert (Hk : order_key (address a) <> order_key (address b)).
      { intros H. apply E in H. discriminate H. }
      rewrite L. split; split.
      + intros H. left. exact H.
      + intros [H|[H _]]; [exact H | exfalso; apply Hk; exact H].
      + discriminate.
      + intros H. apply (f_equal fst) in H. exfalso. apply Hk. exact H. }
  assert (Trans : forall x y z, endpoint_lt x y -> endpoint_lt y z ->
                                endpoint_lt x z).
  { intros [[[x1 x2] x3] x4] [[[y1 y2] y3] y4] [[[z1 z2] z3] z4].
    unfold endpoint_lt, triple_lt. cbn [fst snd].
    intros [H1|[E1 H1]] [H2|[E2 H2]].
    - left. lia.
    - left. injection E2 as <- <- <-. lia.
    - left. injection E1 as -> -> ->. lia.
    - right. split; [congruence | lia]. }
  assert (Total : forall x y, endpoint_lt x y \/ x = y \/ endpoint_lt y x).
  { intros [kx px] [ky py]. unfold endpoint_lt. cbn [fst snd].
    destruct (triple_lt_total kx ky) as [H|[H|H]]; [tauto | | tauto].
    subst ky. destruct (Z.lt_total px py) as [Hp|[Hp|Hp]]; [tauto | | tauto].
    subst py. tauto. }
  assert (Irr : forall x, ~ endpoint_lt x x).
  { intros [k p2]. unfold endpoint_lt. cbn [fst snd].
    intros [H|[_ H]]; [exact (triple_lt_irrefl k H) | lia]. }
  intros a b c Va Vb Vc.
  destruct (Key a b Va Vb) as [Lab Eab].
  destruct (Key b a Vb Va) as [Lba _].
  destruct (Key b c Vb Vc) as [Lbc _].
  destruct (Key a c Va Vc) as [Lac _].
  split; [exact Lab|]. split; [exact Eab|]. split.
  - unfold exactly_one.
    destruct (IPEndpoint_ltb a b) eqn:E1, (IPEndpoint_eqb a b) eqn:E2,
             (IPEndpoint_ltb b a) eqn:E3; try tauto; exfalso.
    + apply (Irr (endpoint_key a)).
      apply (Trans _ (endpoint_key b)); [apply Lab | apply Lba]; reflexivity.
    + assert (Hk : endpoint_key a = endpoint_key b) by (apply Eab; reflexivity).
      apply (Irr (endpoint_key b)). rewrite <- Hk at 1. apply Lab. reflexivity.
    + apply (Irr (endpoint_key a)).
      apply (Trans _ (endpoint_key b)); [apply Lab | apply Lba]; reflexivity.
    + assert (Hk : endpoint_key a = endpoint_key b) by (apply Eab; reflexivity).
      apply (Irr (endpoint_key b)). rewrite <- Hk at 2. apply Lba. reflexivity.
    + destruct (Total (endpoint_key a) (endpoint_key b)) as [H|[H|H]].
      * apply Lab in H. congruence.
      * apply Eab in H. congruence.
      * apply Lba in H. congruence.
  - intros H1 H2. apply Lac.
    apply (Trans _ (endpoint_key b)); [apply Lab, H1 | apply Lbc, H2].
Qed.

Lemma IPEndpoint_strict_total_order_witness :
  IPEndpoint_ltb {| address := IPAddress_v4 192 168 0 1; port := 1 |}
                 {| address := IPAddress_v6 0 0 0 0 0 0 0 1; port := 22 |} = true.
Proof.
  destruct (IPEndpoint_strict_total_order
              {| address := IPAddress_v4 192 168 0 1; port := 1 |}
              {| address := IPAddress_v4 192 168 0 1; port := 1000 |}
              {| address := IPAddress_v6 0 0 0 0 0 0 0 1; port := 22 |})
    as [_ [_ [_ Htrans]]].
  - split; [apply valid_v4; unfold is_byte; lia | simpl; lia].
  - split; [apply valid_v4; unfold is_byte; lia | simpl; lia].
  - split; [apply valid_v6 | simpl; lia].
  - apply Htrans; reflexivity.
Defined.

(** ** What the parsers return *)

Lemma ParseV4_failure :
  forall s e, ParseV4 s = Failure e -> e = ErrorOf kInvalidIPV4Address.
Proof.
  intros s e. unfold ParseV4.
  destruct (scan_values "."%char 10 UINT8_MAX 4 0 s) as [[vs [|c rest]]|];
    intros H; try discriminate; injection H as <-; reflexivity.
Qed.

Lemma ParseV6_failure :
  forall os s e, ParseV6 os s = Failure e -> e = ErrorOf kInvalidIPV6Address.
Proof.
  intros os s e. unfold ParseV6.
  destruct (match find (lit "%") s with
            | Some _ => _
            | None => false
            end); [intros H; injection H as <-; reflexivity|].
  destruct (scan_values ":"%char 16 UINT16_MAX 8 0 _) as [[hextets [|c rest]]|];
    try (intros H; injection H as <-; reflexivity).
  destruct (negb (_ =? 0)); [|discriminate].
  destruct (negb (IsLinkLocal _)); [|discriminate].
  intros H; injection H as <-; reflexivity.
Qed.

Lemma ParseV4_version :
  forall s a, ParseV4 s = Value a -> version a = kV4 /\ GetScopeId a = 0.
Proof.
  intros s a. unfold ParseV4.
  destruct (scan_values "."%char 10 UINT8_MAX 4 0 s) as [[vs [|c rest]]|];
    try discriminate.
  intros H. injection H as <-. split; reflexivity.
Qed.

Lemma ParseV6_version :
  forall os s a, ParseV6 os s = Value a -> version a = kV6.
Proof.
  intros os s a. unfold ParseV6.
  destruct (match find (lit "%") s with
            | Some _ => _
            | None => false
            end); [discriminate|].
  destruct (scan_values ":"%char 16 UINT16_MAX 8 0 _) as [[hextets [|c rest]]|];
    try discriminate.
  destruct (negb (_ =? 0)).
  - destruct (negb (IsLinkLocal _)); [discriminate|].
    intros H. injection H as <-. reflexivity.
  - intros H. injection H as <-. reflexivity.
Qed.

(** [X3] What [IPAddress::Parse] returns.  A failure always carries the
    code [kInvalidIPV6Address], whatever the text: the error of the
    version 4 parser is dropped when the version 6 parser is tried.  A
    value is of version 4, with scope id 0, exactly when the version 4
    parser accepts the text, and is the value of the version 6 parser
    otherwise. *)
Theorem Parse_results :
  forall os s,
    (forall e, Parse os s = Failure e -> e = ErrorOf kInvalidIPV6Address) /\
    (forall e, ParseV4 s = Failure e -> e = ErrorOf kInvalidIPV4Address) /\
    (forall a,
       Parse os s = Value a ->
       (version a = kV4 /\ GetScopeId a = 0 /\ ParseV4 s = Value a) \/
       (version a = kV6 /\ is_value (ParseV4 s) = false /\
        ParseV6 os s = Value a)).
Proof.
  intros os s. split; [|split].
  - intros e. unfold Parse. destruct (ParseV4 s); [discriminate|].
    apply ParseV6_failure.
  - apply ParseV4_failure.
  - intros a. unfold Parse. destruct (ParseV4 s) as [a4|e4] eqn:E4.
    + intros H. injection H as <-. left.
      destruct (ParseV4_version s a4 E4) as [Hv Hs]. repeat split; assumption.
    + intros H. right. split; [exact (ParseV6_version os s a H)|].
      split; [reflexivity | exact H].
Qed.

Lemma Parse_results_witness :
  Parse posix_lo (lit "1920.3.2.1") = Failure (ErrorOf kInvalidIPV6Address).
Proof.
  destruct (Parse_results posix_lo (lit "1920.3.2.1")) as [Hfail _].
  destruct (Parse posix_lo (lit "1920.3.2.1")) as [a|e] eqn:E.
  - discriminate E.
  - f_equal. apply Hfail. reflexivity.
Defined.

Lemma from_chars_signed_ok :
  forall s old,
    fc_ec (from_chars_signed 10 INT_MIN INT_MAX s old) = errc_ok ->
    fc_rest (from_chars_signed 10 INT_MIN INT_MAX s old) = [] ->
    forallb (fun c => is_digit_of 10 c || Ascii.eqb c "-"%char) s = true.
Proof.
  assert (Digits : forall pre, forallb (is_digit_of 10) pre = true ->
            forallb (fun c => is_digit_of 10 c || Ascii.eqb c "-"%char) pre = true).
  { induction pre as [|c pre IH]; [reflexivity|]. simpl.
    intros H. apply andb_true_iff in H. destruct H as [Hc Hp].
    rewrite Hc, (IH Hp). reflexivity. }
  assert (Unsigned : forall s old,
            fc_ec (from_chars_unsigned 10 INT_MAX s old) = errc_ok ->
            fc_rest (from_chars_unsigned 10 INT_MAX s old) = [] ->
            forallb (fun c => is_digit_of 10 c || Ascii.eqb c "-"%char) s = true).
  { intros s old Hec Hrest.
    assert (Hbase : 0 <= 10) by lia.
    destruct (from_chars_unsigned_ok 10 INT_MAX s old Hbase Hec)
      as [pre [Hs [_ [Hpre _]]]].
    rewrite Hrest, app_nil_r in Hs. subst pre. apply Digits, Hpre. }
  intros s old. unfold from_chars_signed.
  destruct s as [|c s']; [apply Unsigned|].
  destruct (Ascii.eqb_spec c "-"%char) as [E|E]; [|apply Unsigned].
  subst c. destruct (span_digits 10 s') as [ds rest] eqn:Es.
  destruct (span_digits_split _ _ _ _ Es) as [pre [Hs [Hm _]]].
  destruct ds as [|d ds]; [simpl; discriminate|].
  destruct (INT_MIN <=? - digits_value 10 (d :: ds)); simpl; [|discriminate].
  intros _ Hrest. subst rest. rewrite app_nil_r in Hs. subst pre.
  apply Digits. clear -Hm. revert Hm. generalize (d :: ds).
  induction s' as [|c s IH]; intros l Hm; [reflexivity|].
  destruct l as [|x l]; [discriminate|]. simpl in Hm. injection Hm as Hc Hm.
  simpl. unfold is_digit_of at 1. rewrite Hc. simpl. eapply IH. exact Hm.
Qed.

Lemma IPEndpoint_Parse_failure :
  forall os s e,
    IPEndpoint_Parse os s = Failure e ->
    error_code e = kParseError /\ In (error_message e) endpoint_messages.
Proof.
  intros os s e. unfold IPEndpoint_Parse, endpoint_messages. cbv zeta.
  destruct (rfind (lit ":") s) as [colon_pos|].
  2:{ intros H. injection H as <-. simpl. tauto. }
  destruct (colon_pos =? 0)%nat.
  { intros H. injection H as <-. simpl. tauto. }
  destruct (colon_pos =? length s - 1)%nat.
  { intros H. injection H as <-. simpl. tauto. }
  destruct (if Ascii.eqb (char_at s 0) "["%char &&
                 Ascii.eqb (char_at s (colon_pos - 1)) "]"%char
            then ParseV6 os (substr s 1 (colon_pos - 2))
            else ParseV4 (substr s 0 colon_pos)) as [a|err].
  2:{ intros H. injection H as <-. simpl. tauto. }
  destruct (fc_ec _); try (intros H; injection H as <-; simpl; tauto).
  destruct (fc_rest _); try (intros H; injection H as <-; simpl; tauto).
  destruct (_ || _); [|discriminate].
  intros H; injection H as <-; simpl; tauto.
Qed.

(** [X4] What [IPEndpoint::Parse] returns.  A failure carries the code
    [kParseError] and one of five reasons.  For a value, the last colon
    of the text is neither its first nor its last character, the port is
    in 0..65535, and the address is what the version 6 parser makes of
    the text between the brackets when the text begins with '[' and has
    ']' before that colon, what the version 4 parser makes of the text
    before the colon otherwise; in this second case the text consists of
    decimal digits, dots, the colon and minus signs, so it holds no white
    space. *)
Theorem IPEndpoint_Parse_results :
  forall os s,
    (forall e,
       IPEndpoint_Parse os s = Failure e ->
       error_code e = kParseError /\ In (error_message e) endpoint_messages) /\
    (forall e,
       IPEndpoint_Parse os s = Value e ->
       exists colon_pos,
         rfind (lit ":") s = Some colon_pos /\
         (0 < colon_pos < length s - 1)%nat /\
         0 <= port e <= 65535 /\
         if Ascii.eqb (char_at s 0) "["%char &&
            Ascii.eqb (char_at s (colon_pos - 1)) "]"%char
         then ParseV6 os (substr s 1 (colon_pos - 2)) = Value (address e)
         else ParseV4 (substr s 0 colon_pos) = Value (address e) /\
              forallb is_v4_endpoint_char s = true).
Proof.
  intros os s. split; [apply IPEndpoint_Parse_failure|].
  intros e He.
  destruct (IPEndpoint_Parse_value os s e He)
    as [colon_pos [Hr [Hpos [Haddr Hport]]]].
  exists colon_pos. split; [exact Hr|]. split; [exact Hpos|].
  split; [exact Hport|].
  destruct (Ascii.eqb (char_at s 0) "["%char &&
            Ascii.eqb (char_at s (colon_pos - 1)) "]"%char) eqn:Eb;
    [exact Haddr|].
  split; [exact Haddr|].
  (* the three parts of the text *)
  assert (Hs : s = substr s 0 colon_pos ++
                   ":"%char :: substr_from s (colon_pos + 1)).
  { clear -Hr. unfold substr, substr_from. cbn [skipn]. revert colon_pos Hr.
    induction s as [|c s IH]; intros p Hr; [discriminate Hr|].
    cbn [rfind] in Hr. destruct (rfind (lit ":") s) as [i|] eqn:Ei.
    - injection Hr as <-. cbn [firstn Nat.add skipn app]. f_equal.
      apply IH. reflexivity.
    - destruct (starts_with (lit ":") (c :: s)) eqn:Ec; [|discriminate].
      injection Hr as <-. apply starts_with_char in Ec.
      destruct Ec as [s' Ec]. injection Ec as -> ->. reflexivity. }
  revert He. unfold IPEndpoint_Parse. cbv zeta. rewrite Hr.
  destruct (colon_pos =? 0)%nat; [discriminate|].
  destruct (colon_pos =? length s - 1)%nat; [discriminate|].
  rewrite Eb, Haddr.
  destruct (fc_ec _) eqn:Eec; try discriminate.
  destruct (fc_rest _) eqn:Erest; [|discriminate].
  intros _.
  pose proof (from_chars_signed_ok _ _ Eec Erest) as Hport_chars.
  pose proof (ParseV4_chars _ _ Haddr) as Haddr_chars.
  rewrite Hs, forallb_app. apply andb_true_iff. split.
  - clear -Haddr_chars. induction (substr s 0 colon_pos) as [|c l IH];
      [reflexivity|].
    simpl in *. apply andb_true_iff in Haddr_chars.
    destruct Haddr_chars as [Hc Hl]. rewrite (IH Hl), andb_true_r.
    unfold is_v4_endpoint_char, is_group_char in *.
    apply orb_true_iff in Hc. destruct Hc as [Hc|Hc]; rewrite Hc;
      rewrite ?orb_true_r; reflexivity.
  - cbn [forallb]. apply andb_true_iff. split; [reflexivity|].
    clear -Hport_chars.
    induction (substr_from s (colon_pos + 1)) as [|c l IH]; [reflexivity|].
    simpl in *. apply andb_true_iff in Hport_chars.
    destruct Hport_chars as [Hc Hl]. rewrite (IH Hl), andb_true_r.
    unfold is_v4_endpoint_char.
    apply orb_true_iff in Hc. destruct Hc as [Hc|Hc]; rewrite Hc;
      rewrite ?orb_true_r; reflexivity.
Qed.

Lemma IPEndpoint_Parse_results_witness :
  error_code (ParseError "invalid port part") = kParseError /\
  In "invalid port part"%string endpoint_messages.
Proof.
  destruct (IPEndpoint_Parse_results posix_lo (lit "1.2.3.4: 5678"))
    as [Hfail _].
  apply (Hfail (ParseError "invalid port part")). reflexivity.
Defined.

(** ** Text written and read again *)

Lemma digit_value_digit_char :
  forall d, 0 <= d < 16 -> digit_value (digit_char d) = Some d.
Proof.
  intros d Hd.
  assert (H : d = 0 \/ d = 1 \/ d = 2 \/ d = 3 \/ d = 4 \/ d = 5 \/ d = 6 \/
              d = 7 \/ d = 8 \/ d = 9 \/ d = 10 \/ d = 11 \/ d = 12 \/
              d = 13 \/ d = 14 \/ d = 15) by lia.
  repeat (destruct H as [H|H]; [subst d; reflexivity|]).
  subst d. reflexivity.
Qed.

Lemma digit_in_digit_char :
  forall base d,
    base <= 16 -> 0 <= d < base -> digit_in base (digit_char d) = Some d.
Proof.
  intros base d Hbase Hd. unfold digit_in.
  rewrite digit_value_digit_char by lia.
  destruct (Z.ltb_spec d base); [reflexivity | lia].
Qed.

Lemma show_digits_sound :
  forall base,
    2 <= base <= 16 ->
    forall fuel n acc,
      (0 < fuel)%nat -> 0 <= n < base ^ Z.of_nat fuel ->
      exists pre ds,
        show_digits fuel base n acc = pre ++ acc /\
        map (digit_in base) pre = map Some ds /\
        pre <> [] /\
        forall a,
          fold_left (fun acc d => acc * base + d) ds a =
          a * base ^ Z.of_nat (length ds) + n.
Proof.
  intros base Hbase. induction fuel as [|fuel IH]; intros n acc Hfuel Hn;
    [lia|].
  cbn [show_digits]. cbv zeta.
  assert (Hmod : 0 <= n mod base < base) by (apply Z.mod_pos_bound; lia).
  destruct (Z.eqb_spec (n / base) 0) as [E|E].
  - exists [digit_char (n mod base)], [n mod base].
    split; [reflexivity|]. split; [|split; [discriminate|]].
    + cbn [map]. rewrite digit_in_digit_char by lia. reflexivity.
    + intros a. cbn [fold_left length].
      change (Z.of_nat 1) with 1. rewrite Z.pow_1_r.
      pose proof (Z.div_mod n base). lia.
  - assert (Hq : 0 <= n / base < base ^ Z.of_nat fuel).
    { split; [apply Z.div_pos; lia|].
      apply Z.div_lt_upper_bound; [lia|].
      rewrite Nat2Z.inj_succ, Z.pow_succ_r in Hn by lia. lia. }
    assert (Hf : (0 < fuel)%nat).
    { destruct fuel; [|lia]. exfalso. apply E.
      change (Z.of_nat 0) with 0 in Hq. rewrite Z.pow_0_r in Hq. lia. }
    destruct (IH (n / base) (digit_char (n mod base) :: acc) Hf Hq)
      as [pre [ds [Hs [Hm [Hne Hv]]]]].
    exists (pre ++ [digit_char (n mod base)]), (ds ++ [n mod base]).
    split; [rewrite Hs, <- app_assoc; reflexivity|].
    split; [|split].
    + rewrite !map_app, Hm. cbn [map].
      rewrite digit_in_digit_char by lia. reflexivity.
    + destruct pre; discriminate.
    + intros a. rewrite fold_left_app, Hv. cbn [fold_left].
      rewrite length_app. cbn [length]. rewrite Nat2Z.inj_add.
      change (Z.of_nat 1) with 1. rewrite Z.pow_add_r, Z.pow_1_r by lia.
      pose proof (Z.div_mod n base). lia.
Qed.

Lemma show_unsigned_sound :
  forall base n,
    2 <= base <= 16 -> 0 <= n ->
    exists ds,
      show_unsigned base n <> [] /\
      map (digit_in base) (show_unsigned base n) = map Some ds /\
      digits_value base ds = n.
Proof.
  intros base n Hbase Hn. unfold show_unsigned.
  assert (Hlt : 0 <= n < base ^ Z.of_nat (S (Z.to_nat (Z.log2 n)))).
  { split; [exact Hn|].
    rewrite Nat2Z.inj_succ, Z2Nat.id by apply Z.log2_nonneg.
    destruct (Z.eq_dec n 0) as [->|Hnz].
    - apply Z.pow_pos_nonneg; [lia|]. simpl. lia.
    - pose proof (Z.log2_spec n) as Hs.
      assert (2 ^ Z.succ (Z.log2 n) <= base ^ Z.succ (Z.log2 n)).
      { apply Z.pow_le_mono_l. lia. }
      lia. }
  destruct (show_digits_sound base Hbase _ n [] (Nat.lt_0_succ _) Hlt)
    as [pre [ds [Hs [Hm [Hne Hv]]]]].
  rewrite app_nil_r in Hs. rewrite Hs. exists ds.
  split; [exact Hne|]. split; [exact Hm|].
  unfold digits_value. rewrite Hv. lia.
Qed.

Lemma digits_are_digits :
  forall base s ds,
    map (digit_in base) s = map Some ds ->
    forallb (is_digit_of base) s = true.
Proof.
  intros base s. induction s as [|c s IH]; intros [|d ds] H;
    try discriminate; [reflexivity|].
  cbn [map] in H. injection H as Hc H. cbn [forallb].
  unfold is_digit_of at 1. rewrite Hc. exact (IH ds H).
Qed.

Lemma digits_no_char :
  forall base s c,
    forallb (is_digit_of base) s = true -> digit_in base c = None ->
    ~ In c s.
Proof.
  intros base s c Hs Hc Hin. rewrite forallb_forall in Hs.
  specialize (Hs c Hin). unfold is_digit_of in Hs. rewrite Hc in Hs.
  discriminate Hs.
Qed.

Lemma from_chars_signed_show :
  forall n old,
    0 <= n <= INT_MAX ->
    from_chars_signed 10 INT_MIN INT_MAX (show_unsigned 10 n) old =
    {| fc_value := n; fc_rest := []; fc_ec := errc_ok |}.
Proof.
  intros n old Hn.
  assert (Hbase : 2 <= 10 <= 16) by lia.
  destruct (show_unsigned_sound 10 n Hbase (proj1 Hn)) as [ds [Hne [Hm Hv]]].
  pose proof (digits_are_digits _ _ _ Hm) as Hd.
  destruct (span_digits_digits 10 (show_unsigned 10 n) [] Hd I)
    as [ds' [Hs Hm']].
  rewrite app_nil_r in Hs.
  assert (ds' = ds).
  { rewrite Hm in Hm'. clear -Hm'. revert ds' Hm'.
    induction ds as [|d ds IH]; intros [|d' ds'] H; try discriminate;
      [reflexivity|].
    injection H as -> H. f_equal. apply IH. exact H. }
  subst ds'.
  assert (Hu : from_chars_unsigned 10 INT_MAX (show_unsigned 10 n) old =
               {| fc_value := n; fc_rest := []; fc_ec := errc_ok |}).
  { unfold from_chars_unsigned. rewrite Hs.
    destruct ds as [|d ds].
    - destruct (show_unsigned 10 n); [congruence | discriminate Hm].
    - rewrite Hv. destruct (Z.leb_spec n INT_MAX); [reflexivity | lia]. }
  unfold from_chars_signed.
  destruct (show_unsigned 10 n) as [|c s] eqn:Es; [exact Hu|].
  destruct (Ascii.eqb_spec c "-"%char) as [E|E]; [|exact Hu].
  subst c. cbn [forallb] in Hd. apply andb_true_iff in Hd.
  destruct Hd as [Hd _]. discriminate Hd.
Qed.

Lemma rfind_port_colon :
  forall text port_text,
    ~ In ":"%char port_text ->
    rfind (lit ":") (text ++ ":"%char :: port_text) = Some (length text).
Proof.
  intros text port_text Hno.
  rewrite (rfind_app (lit ":") text (":"%char :: port_text) 0).
  - f_equal. lia.
  - cbn [rfind].
    rewrite (rfind_none (lit ":") port_text (find_char_none _ _ Hno)).
    reflexivity.
Qed.

(** [IPEndpoint::Parse] on a text whose last colon is known. *)
Lemma IPEndpoint_Parse_split :
  forall os text port_text,
    text <> [] -> port_text <> [] -> ~ In ":"%char port_text ->
    IPEndpoint_Parse os (text ++ ":"%char :: port_text) =
    match
      (if Ascii.eqb (char_at text 0) "["%char &&
          Ascii.eqb (char_at text (length text - 1)) "]"%char
       then ParseV6 os (substr text 1 (length text - 2))
       else ParseV4 text)
    with
    | Failure _ => Failure (ParseError "invalid address part")
    | Value a =>
        let result := from_chars_signed 10 INT_MIN INT_MAX port_text 0 in
        match fc_ec result, fc_rest result with
        | errc_ok, [] =>
            if (fc_value result <? 0) || (UINT16_MAX <? fc_value result)
            then Failure (ParseError "invalid port part")
            else Value {| address := a; port := fc_value result |}
        | _, _ => Failure (ParseError "invalid port part")
        end
    end.
Proof.
  intros os text port_text Ht Hp Hno. unfold IPEndpoint_Parse.
  rewrite (rfind_port_colon text port_text Hno). cbv zeta.
  assert (Hlen : (0 < length text)%nat)
    by (destruct text; [congruence | simpl; lia]).
  assert (Hplen : (0 < length port_text)%nat)
    by (destruct port_text; [congruence | simpl; lia]).
  destruct (Nat.eqb_spec (length text) 0) as [E|_]; [lia|].
  rewrite length_app. cbn [length].
  destruct (Nat.eqb_spec (length text)
                         (length text + S (length port_text) - 1)) as [E|_];
    [lia|].
  unfold char_at. rewrite !app_nth1 by lia.
  assert (H1 : substr (text ++ ":"%char :: port_text) 1 (length text - 2) =
               substr text 1 (length text - 2)).
  { unfold substr. destruct text as [|c text]; [congruence|].
    cbn [app skipn length]. rewrite firstn_app.
    replace (S (length text) - 2 - length text)%nat with 0%nat by lia.
    cbn [firstn]. apply app_nil_r. }
  assert (H2 : substr (text ++ ":"%char :: port_text) 0 (length text) = text).
  { unfold substr. cbn [skipn]. rewrite firstn_app, Nat.sub_diag, firstn_all.
    cbn [firstn]. apply app_nil_r. }
  assert (H3 : substr_from (text ++ ":"%char :: port_text) (length text + 1) =
               port_text).
  { unfold substr_from. rewrite skipn_app, skipn_all2 by lia.
    replace (length text + 1 - length text)%nat with 1%nat by lia.
    reflexivity. }
  rewrite H1, H2, H3. reflexivity.
Qed.

Lemma ParseV4_print :
  forall os b0 b1 b2 b3 tail scope,
    is_byte b0 -> is_byte b1 -> is_byte b2 -> is_byte b3 ->
    ParseV4 (IPAddress_print os
               {| version_ := kV4; bytes_ := b0 :: b1 :: b2 :: b3 :: tail;
                  scope_id_ := scope |}) =
    Value (IPAddress_v4 b0 b1 b2 b3).
Proof.
  intros os b0 b1 b2 b3 tail scope H0 H1 H2 H3.
  pose proof (Parse_print_v4 os b0 b1 b2 b3 tail scope H0 H1 H2 H3) as H.
  unfold Parse in H.
  destruct (ParseV4 _) as [a|e] eqn:E; [exact H|].
  pose proof (ParseV6_version _ _ _ H) as Hv. discriminate Hv.
Qed.

Lemma ParseV6_print :
  forall os l scope,
    length l = 16%nat -> Forall is_byte l ->
    (IsLinkLocal {| version_ := kV6; bytes_ := l; scope_id_ := scope |} =
       false -> scope = 0) ->
    (scope = 0 \/
     exists ifname,
       IS_POSIX os = true /\
       if_indextoname os scope = Some ifname /\
       if_nametoindex os (c_str ifname) = scope) ->
    ParseV6 os (IPAddress_print os
                  {| version_ := kV6; bytes_ := l; scope_id_ := scope |}) =
    Value {| version_ := kV6; bytes_ := l; scope_id_ := scope |}.
Proof.
  intros os l scope Hlen Hbytes Hinv Hscope.
  destruct (hex_groups_spec l Hbytes) as [Hgroups Hvalues].
  assert (Hcount : length (hex_groups l) = 8%nat).
  { clear -Hlen. sixteen l Hlen. reflexivity. }
  assert (Hout : show_bytes 16 ":"%char 2 2 0
                   (bytes {| version_ := kV6; bytes_ := l;
                             scope_id_ := scope |}) =
                 join_colon (hex_groups l)).
  { unfold bytes, size. cbn [version_ bytes_ kV6Size].
    rewrite <- Hlen at 1. rewrite firstn_all.
    apply show_bytes_v6. exact Hlen. }
  assert (Hparse : ParseV6 os (join_colon (hex_groups l)) =
                   Value {| version_ := kV6; bytes_ := l; scope_id_ := 0 |}).
  { rewrite (ParseV6_eight_groups os _ Hcount Hgroups), Hvalues.
    f_equal.
    pose proof (of_hextets_bytes l Hlen Hbytes) as Hb.
    unfold IPAddress_of_hextets, IPAddress_v6 in *. cbn [bytes_] in Hb.
    rewrite Hb. reflexivity. }
  unfold IPAddress_print.
  cbn [IsV4 version_ Version_eqb GetScopeId scope_id_]. rewrite Hout.
  destruct (Z.eqb_spec scope 0) as [E0|E0].
  - subst scope. rewrite andb_false_r. exact Hparse.
  - destruct Hscope as [Hz | [ifname [Hposix [Hname Hindex]]]];
      [contradiction|].
    assert (Hll : IsLinkLocal {| version_ := kV6; bytes_ := l;
                                 scope_id_ := scope |} = true).
    { destruct (IsLinkLocal _) eqn:E; [reflexivity|].
      exfalso. apply E0. apply Hinv. reflexivity. }
    rewrite Hll, Hposix, Hname. cbn [negb andb].
    set (text := join_colon (hex_groups l)) in *.
    assert (Hfind : find (lit "%") (text ++ lit "%" ++ ifname) =
                    Some (length text)).
    { apply find_char_after. intros Hin.
      pose proof (join_colon_chars _ Hgroups) as Hc. fold text in Hc.
      rewrite Forall_forall in Hc.
      destruct (Hc _ Hin) as [E|E]; discriminate E. }
    rewrite (ParseV6_scoped os _ _ Hfind).
    assert (Hid : substr_from (text ++ lit "%" ++ ifname)
                              (length text + 1) = ifname).
    { unfold substr_from. rewrite skipn_app, skipn_all2 by lia.
      replace (length text + 1 - length text)%nat with 1%nat by lia.
      reflexivity. }
    assert (Hpart : substr (text ++ lit "%" ++ ifname) 0 (length text) =
                    text).
    { unfold substr. cbn [skipn].
      rewrite firstn_app, Nat.sub_diag, firstn_all. cbn [firstn].
      apply app_nil_r. }
    rewrite Hid, Hpart, Hparse. cbv zeta.
    assert (Hidx : interface_index os ifname = scope).
    { unfold interface_index. rewrite Hposix. exact Hindex. }
    rewrite parse_scope_id_index by (rewrite Hidx; exact E0).
    rewrite Hidx.
    destruct (Z.eqb_spec scope 0); [contradiction|].
    replace (IsLinkLocal {| version_ := kV6; bytes_ := l; scope_id_ := 0 |})
      with true by (rewrite <- Hll; reflexivity).
    reflexivity.
Qed.

Lemma show_unsigned_chars :
  forall n,
    0 <= n ->
    show_unsigned 10 n <> [] /\
    forallb (is_digit_of 10) (show_unsigned 10 n) = true.
Proof.
  intros n Hn. assert (Hbase : 2 <= 10 <= 16) by lia.
  destruct (show_unsigned_sound 10 n Hbase Hn) as [ds [Hne [Hm _]]].
  split; [exact Hne | exact (digits_are_digits _ _ _ Hm)].
Qed.

Lemma IPEndpoint_Parse_port :
  forall os text n a,
    text <> [] -> 0 <= n < 65536 ->
    (if Ascii.eqb (char_at text 0) "["%char &&
        Ascii.eqb (char_at text (length text - 1)) "]"%char
     then ParseV6 os (substr text 1 (length text - 2))
     else ParseV4 text) = Value a ->
    IPEndpoint_Parse os (text ++ lit ":" ++ show_unsigned 10 n) =
    Value {| address := a; port := n |}.
Proof.
  intros os text n a Ht Hn Ha.
  destruct (show_unsigned_chars n (proj1 Hn)) as [Hne Hd].
  change (text ++ lit ":" ++ show_unsigned 10 n)
    with (text ++ ":"%char :: show_unsigned 10 n).
  rewrite IPEndpoint_Parse_split;
    [|exact Ht | exact Hne | exact (digits_no_char 10 _ ":"%char Hd eq_refl)].
  rewrite Ha. cbv zeta.
  rewrite from_chars_signed_show by (unfold INT_MAX; lia).
  cbn [fc_ec fc_rest fc_value].
  destruct (Z.ltb_spec n 0); [lia|].
  destruct (Z.ltb_spec UINT16_MAX n); [unfold UINT16_MAX in *; lia|].
  reflexivity.
Qed.

(** The text written for an endpoint, read again, where the address
    carries a scope id only when it is link-local. *)
Lemma endpoint_print_parse :
  forall os e,
    valid_endpoint e ->
    scope_only_on_link_local (address e) ->
    (GetScopeId (address e) = 0 \/
     exists ifname,
       IS_POSIX os = true /\
       if_indextoname os (GetScopeId (address e)) = Some ifname /\
       if_nametoindex os (c_str ifname) = GetScopeId (address e)) ->
    exists e',
      IPEndpoint_Parse os (IPEndpoint_print os e) = Value e' /\
      Parse os (IPAddress_print os (address e)) = Value (address e') /\
      IPEndpoint_eqb e e' = true.
Proof.
  intros os [[v l scope] p] [[Hlen [Hbytes [_ Hv4]]] Hport] Hinv Hscope.
  unfold GetScopeId, scope_only_on_link_local in *.
  cbn [address port version_ bytes_ scope_id_] in *.
  unfold IPEndpoint_print, IPEndpoint_eqb. cbn [address port].
  destruct v.
  - (* version 4 *)
    rewrite (Hv4 eq_refl) in *.
    destruct l as [|b0 [|b1 [|b2 [|b3 tail]]]]; try discriminate Hlen.
    inversion Hbytes as [|? ? H0 Hr0]; subst.
    inversion Hr0 as [|? ? H1 Hr1]; subst.
    inversion Hr1 as [|? ? H2 Hr2]; subst.
    inversion Hr2 as [|? ? H3 _]; subst.
    exists {| address := IPAddress_v4 b0 b1 b2 b3; port := p |}.
    cbn [address port IsV6 version_ Version_eqb app].
    pose proof (ParseV4_print os b0 b1 b2 b3 tail 0 H0 H1 H2 H3) as HP.
    split; [|split].
    + apply IPEndpoint_Parse_port; [| exact Hport |].
      * rewrite print_v4.
        destruct (show_unsigned_chars b0 (proj1 H0)) as [Hne _].
        destruct (show_unsigned 10 b0); [congruence | discriminate].
      * rewrite print_v4 in *.
        destruct (show_unsigned_chars b0 (proj1 H0)) as [Hne Hd].
        destruct (show_unsigned 10 b0) as [|c s]; [congruence|].
        cbn [app char_at nth]. cbn [forallb] in Hd.
        apply andb_true_iff in Hd. destruct Hd as [Hc _].
        destruct (Ascii.eqb_spec c "["%char) as [E|_];
          [subst c; discriminate Hc|].
        exact HP.
    + apply Parse_print_v4; assumption.
    + unfold IPAddress_eqb, IPAddress_v4, size.
      cbn [version_ bytes_ scope_id_ Version_eqb kV4Size firstn app bytes_eqb].
      rewrite !Z.eqb_refl. reflexivity.
  - (* version 6 *)
    set (a := {| version_ := kV6; bytes_ := l; scope_id_ := scope |}) in *.
    exists {| address := a; port := p |}.
    cbn [address port]. unfold a at 1 3. cbn [IsV6 version_ Version_eqb].
    pose proof (ParseV6_print os l scope Hlen Hbytes Hinv Hscope) as HP.
    fold a in HP.
    split; [|split].
    + replace (lit "[" ++ IPAddress_print os a ++ lit "]" ++
               lit ":" ++ show_unsigned 10 p)
        with (("["%char :: IPAddress_print os a ++ lit "]") ++
              lit ":" ++ show_unsigned 10 p)
        by (cbn [lit list_ascii_of_string app]; rewrite <- app_assoc;
            reflexivity).
      apply IPEndpoint_Parse_port; [discriminate | exact Hport |].
      cbn [char_at nth length]. rewrite Ascii.eqb_refl.
      rewrite length_app. cbn [lit list_ascii_of_string length].
      replace (S (length (IPAddress_print os a) + 1) - 1)%nat
        with (S (length (IPAddress_print os a))) by lia.
      cbn [nth]. rewrite app_nth2 by lia. rewrite Nat.sub_diag.
      cbn [nth]. rewrite Ascii.eqb_refl. cbn [andb].
      unfold substr. cbn [skipn].
      replace (S (length (IPAddress_print os a) + 1) - 2)%nat
        with (length (IPAddress_print os a)) by lia.
      rewrite firstn_app, Nat.sub_diag, firstn_all. cbn [firstn].
      rewrite app_nil_r. exact HP.
    + rewrite Parse_with_colon; [exact HP|].
      unfold IPAddress_print.
      assert (Hc : In ":"%char
                      (show_bytes 16 ":"%char 2 2 0 (bytes a))).
      { unfold bytes, size, a. cbn [version_ bytes_ kV6Size].
        rewrite <- Hlen at 1. rewrite firstn_all, (show_bytes_v6 l Hlen).
        clear -Hlen. sixteen l Hlen. cbn [hex_groups join_colon].
        apply in_or_app. right. left. reflexivity. }
      cbn [IsV4 a version_ Version_eqb].
      destruct (_ && _); [|exact Hc].
      destruct (IS_POSIX os); [destruct (if_indextoname os _)|];
        apply in_or_app; left; exact Hc.
    + rewrite Z.eqb_refl, andb_true_r. apply IPAddress_eqb_same. reflexivity.
Qed.

Lemma IsLinkLocal_set_scope_id :
  forall a scope_id, IsLinkLocal (set_scope_id a scope_id) = IsLinkLocal a.
Proof.
  intros a scope_id. reflexivity.
Qed.

Lemma print_without_zone :
  forall os a,
    IsLinkLocal a = false ->
    IPAddress_print os a = IPAddress_print os (set_scope_id a 0).
Proof.
  intros os a Hll. unfold IPAddress_print.
  rewrite IsLinkLocal_set_scope_id, Hll. reflexivity.
Qed.

Lemma zone_reads_back_cases :
  forall os a,
    zone_reads_back os a ->
    scope_only_on_link_local a /\
    (GetScopeId a = 0 \/
     exists ifname,
       IS_POSIX os = true /\
       if_indextoname os (GetScopeId a) = Some ifname /\
       if_nametoindex os (c_str ifname) = GetScopeId a).
Proof.
  intros os a [Hzero|[Hll Hname]].
  - split; [intros _; exact Hzero | left; exact Hzero].
  - split; [|right; exact Hname].
    intros H. rewrite Hll in H. discriminate H.
Qed.

(** [X5] Writing an endpoint and reading the text again.  For an endpoint
    whose address has the scope id 0, or is link-local with the index of
    an interface whose name the platform gives and resolves back to that
    index, [IPEndpoint::Parse] accepts the text [operator<<] writes
    (brackets around a version 6 address, the port in decimal) and
    returns an endpoint that [operator==] finds equal; its address is the
    one [IPAddress::Parse] returns for the text written for the address
    alone.  For an endpoint whose address is not link-local and has a
    scope id that is not 0, the text is written without the scope id and
    is read as an endpoint with the scope id 0, which [operator==] tells
    apart from the first one. *)
Theorem IPEndpoint_print_parse_round_trip :
  forall os e,
    valid_endpoint e ->
    (zone_reads_back os (address e) ->
     exists e',
       IPEndpoint_Parse os (IPEndpoint_print os e) = Value e' /\
       Parse os (IPAddress_print os (address e)) = Value (address e') /\
       IPEndpoint_eqb e e' = true) /\
    (IsLinkLocal (address e) = false -> GetScopeId (address e) <> 0 ->
     exists e',
       IPEndpoint_Parse os (IPEndpoint_print os e) = Value e' /\
       GetScopeId (address e') = 0 /\
       IPEndpoint_eqb e e' = false).
Proof.
  intros os e Hvalid. split.
  - intros Hzone.
    destruct (zone_reads_back_cases os (address e) Hzone) as [Hinv Hscope].
    exact (endpoint_print_parse os e Hvalid Hinv Hscope).
  - intros Hll Hscope.
    set (e0 := {| address := set_scope_id (address e) 0; port := port e |}).
    assert (Hvalid0 : valid_endpoint e0).
    { destruct Hvalid as [[Hlen [Hbytes [_ _]]] Hport].
      split; [|exact Hport]. unfold e0, set_scope_id, valid.
      cbn [address bytes_ scope_id_ version_].
      split; [exact Hlen|]. split; [exact Hbytes|].
      split; [lia | intros _; reflexivity]. }
    assert (Hprint : IPEndpoint_print os e = IPEndpoint_print os e0).
    { unfold IPEndpoint_print, e0. cbn [address port].
      rewrite <- (print_without_zone os (address e) Hll). reflexivity. }
    destruct (endpoint_print_parse os e0 Hvalid0) as [e' [Hparse [_ Heq]]].
    { intros _. reflexivity. }
    { left. reflexivity. }
    exists e'. rewrite Hprint. split; [exact Hparse|].
    unfold IPEndpoint_eqb, IPAddress_eqb, e0, GetScopeId in *.
    cbn [address port set_scope_id version_ bytes_ scope_id_ size] in Heq.
    apply andb_true_iff in Heq. destruct Heq as [Haddr _].
    apply andb_true_iff in Haddr. destruct Haddr as [_ Hs].
    apply Z.eqb_eq in Hs. split; [symmetry; exact Hs|].
    rewrite <- Hs.
    destruct (Z.eqb_spec (scope_id_ (address e)) 0) as [E|_];
      [contradiction|].
    rewrite andb_false_r. reflexivity.
Qed.

Lemma IPEndpoint_print_parse_round_trip_witness :
  (exists e',
     IPEndpoint_Parse posix_lo
       (IPEndpoint_print posix_lo
          {| address := IPAddress_scoped ([254; 128] ++ repeat 0 13 ++ [1]) 1;
             port := 8009 |}) = Value e' /\
     Parse posix_lo
       (IPAddress_print posix_lo
          (IPAddress_scoped ([254; 128] ++ repeat 0 13 ++ [1]) 1)) =
       Value (address e') /\
     IPEndpoint_eqb
       {| address := IPAddress_scoped ([254; 128] ++ repeat 0 13 ++ [1]) 1;
          port := 8009 |} e' = true) /\
  (exists e',
     IPEndpoint_Parse posix_lo
       (IPEndpoint_print posix_lo
          {| address := IPAddress_scoped loopback_bytes 1; port := 8009 |}) =
       Value e' /\
     GetScopeId (address e') = 0 /\
     IPEndpoint_eqb
       {| address := IPAddress_scoped loopback_bytes 1; port := 8009 |} e' =
       false).
Proof.
  assert (Hvalid : forall b,
            length b = 16%nat ->
            forallb (fun x => (0 <=? x) && (x <? 256)) b = true ->
            valid_endpoint {| address := IPAddress_scoped b 1; port := 8009 |}).
  { intros b Hlen Hb. split; [|cbn [port]; lia].
    unfold IPAddress_scoped, valid. cbn [address bytes_ scope_id_ version_].
    rewrite firstn_all2 by lia.
    split; [exact Hlen|]. split; [apply is_byte_dec_true; exact Hb|].
    split; [lia|]. intros H. discriminate H. }
  split.
  - apply (proj1 (IPEndpoint_print_parse_round_trip posix_lo
                    {| address :=
                         IPAddress_scoped ([254; 128] ++ repeat 0 13 ++ [1]) 1;
                       port := 8009 |}
                    (Hvalid ([254; 128] ++ repeat 0 13 ++ [1])
                            eq_refl eq_refl))).
    right. split; [reflexivity|].
    exists (lit "lo0"). split; [reflexivity|]. split; reflexivity.
  - apply (proj2 (IPEndpoint_print_parse_round_trip posix_lo
                    {| address := IPAddress_scoped loopback_bytes 1;
                       port := 8009 |}
                    (Hvalid loopback_bytes eq_refl eq_refl))).
    + reflexivity.
    + cbn. intros H. discriminate H.
Defined.

(** ** The texts the parsers accept *)

Lemma group_value_digits :
  forall base g ds,
    map (digit_in base) g = map Some ds -> digits_value base ds = group_value base g.
Proof.
  intros base g ds H. unfold group_value. f_equal. revert ds H.
  induction g as [|c g IH]; intros [|d ds] H; try discriminate;
    [reflexivity|].
  cbn [map] in *. injection H as Hc H. rewrite Hc. f_equal. apply IH, H.
Qed.

Lemma from_chars_unsigned_group :
  forall base max s old,
    fc_ec (from_chars_unsigned base max s old) = errc_ok ->
    exists g,
      s = g ++ fc_rest (from_chars_unsigned base max s old) /\
      group_text base max g /\
      fc_value (from_chars_unsigned base max s old) = group_value base g.
Proof.
  intros base max s old. unfold from_chars_unsigned.
  destruct (span_digits base s) as [ds rest] eqn:Es.
  destruct (span_digits_split _ _ _ _ Es) as [g [Hs [Hm _]]].
  pose proof (group_value_digits _ _ _ Hm) as Hv.
  destruct ds as [|d ds]; [discriminate|].
  destruct (Z.leb_spec (digits_value base (d :: ds)) max) as [Hle|Hgt];
    [|discriminate].
  intros _. cbn [fc_rest fc_value]. exists g.
  split; [exact Hs|]. split; [|exact Hv].
  split; [intros ->; discriminate Hm|].
  split; [|rewrite <- Hv; exact Hle].
  clear -Hm. revert Hm. generalize (d :: ds). induction g as [|c g IH];
    intros [|x l] H; try discriminate; [reflexivity|].
  cbn [map] in H. injection H as Hc H. cbn [forallb].
  unfold is_digit_of at 1. rewrite Hc. exact (IH _ H).
Qed.

Lemma from_chars_unsigned_of_group :
  forall base max g rest old,
    group_text base max g ->
    match rest with c :: _ => digit_in base c = None | [] => True end ->
    from_chars_unsigned base max (g ++ rest) old =
    {| fc_value := group_value base g; fc_rest := rest; fc_ec := errc_ok |}.
Proof.
  intros base max g rest old [Hne [Hd Hmax]] Hrest.
  destruct (span_digits_digits base g rest Hd Hrest) as [ds [Hs Hm]].
  unfold from_chars_unsigned. rewrite Hs.
  pose proof (group_value_digits _ _ _ Hm) as Hv.
  destruct ds as [|d ds].
  - destruct g; [congruence | discriminate Hm].
  - rewrite Hv. destruct (Z.leb_spec (group_value base g) max);
      [reflexivity | lia].
Qed.

Lemma scan_values_groups :
  forall sep base max k i s vs rest,
    scan_values sep base max k (S i) s = Some (vs, rest) ->
    exists groups,
      length groups = k /\
      Forall (group_text base max) groups /\
      s = sep_groups sep groups ++ rest /\
      vs = map (group_value base) groups.
Proof.
  intros sep base max. induction k as [|k IH]; intros i s vs rest H.
  - cbn [scan_values] in H. injection H as <- <-. exists [].
    repeat split. constructor.
  - cbn [scan_values] in H. cbv zeta in H.
    change (0 <? S i)%nat with true in H. cbv iota in H.
    destruct s as [|c s]; [discriminate|].
    destruct (Ascii.eqb_spec c sep) as [->|]; [|discriminate].
    destruct (fc_ec (from_chars_unsigned base max s 0)) eqn:Eec;
      try discriminate.
    destruct (from_chars_unsigned_group base max s 0 Eec)
      as [g [Hs [Hg Hv]]].
    destruct (scan_values sep base max k (S (S i)) _) as [[vs' rest']|] eqn:E;
      [|discriminate].
    injection H as <- <-.
    destruct (IH _ _ _ _ E) as [groups [Hlen [Hall [Hrest Hvs]]]].
    exists (g :: groups). split; [cbn [length]; congruence|].
    split; [constructor; assumption|]. split.
    + unfold sep_groups in *. cbn [map concat app]. f_equal.
      rewrite <- app_assoc, <- Hrest. exact Hs.
    + cbn [map]. rewrite Hv, Hvs. reflexivity.
Qed.

Lemma scan_values_first :
  forall sep base max k s vs rest,
    scan_values sep base max (S k) 0 s = Some (vs, rest) ->
    exists g groups,
      length groups = k /\
      Forall (group_text base max) (g :: groups) /\
      s = g ++ sep_groups sep groups ++ rest /\
      vs = map (group_value base) (g :: groups).
Proof.
  intros sep base max k s vs rest H.
  cbn [scan_values] in H. cbv zeta in H.
  change (0 <? 0)%nat with false in H. cbv iota in H.
  destruct (fc_ec (from_chars_unsigned base max s 0)) eqn:Eec;
    try discriminate.
  destruct (from_chars_unsigned_group base max s 0 Eec) as [g [Hs [Hg Hv]]].
  destruct (scan_values sep base max k 1 _) as [[vs' rest']|] eqn:E;
    [|discriminate].
  injection H as <- <-.
  destruct (scan_values_groups _ _ _ _ _ _ _ _ E)
    as [groups [Hlen [Hall [Hrest Hvs]]]].
  exists g, groups. split; [exact Hlen|].
  split; [constructor; assumption|]. split.
  - rewrite <- Hrest. exact Hs.
  - cbn [map]. rewrite Hv, Hvs. reflexivity.
Qed.

Lemma scan_sep_groups :
  forall sep base max groups i,
    digit_in base sep = None ->
    Forall (group_text base max) groups ->
    scan_values sep base max (length groups) (S i) (sep_groups sep groups) =
    Some (map (group_value base) groups, []).
Proof.
  intros sep base max groups i Hsep Hall. revert i.
  induction Hall as [|g groups Hg Hall IH]; intros i; [reflexivity|].
  cbn [length scan_values]. cbv zeta.
  change (0 <? S i)%nat with true. cbv iota.
  unfold sep_groups. cbn [map concat app]. rewrite Ascii.eqb_refl.
  fold (sep_groups sep groups).
  rewrite (from_chars_unsigned_of_group base max g (sep_groups sep groups) 0 Hg).
  - cbn [fc_ec fc_rest fc_value]. rewrite IH. reflexivity.
  - destruct groups as [|g' groups']; [exact I|].
    unfold sep_groups. cbn [map concat app]. exact Hsep.
Qed.

Lemma scan_first_groups :
  forall sep base max g groups,
    digit_in base sep = None ->
    Forall (group_text base max) (g :: groups) ->
    scan_values sep base max (S (length groups)) 0
                (g ++ sep_groups sep groups) =
    Some (map (group_value base) (g :: groups), []).
Proof.
  intros sep base max g groups Hsep Hall.
  inversion Hall as [|? ? Hg Hrest]; subst.
  cbn [scan_values]. cbv zeta.
  change (0 <? 0)%nat with false. cbv iota.
  rewrite (from_chars_unsigned_of_group base max g (sep_groups sep groups) 0 Hg).
  - cbn [fc_ec fc_rest fc_value].
    rewrite (scan_sep_groups sep base max groups 0 Hsep Hrest). reflexivity.
  - destruct groups as [|g' groups']; [exact I|].
    unfold sep_groups. cbn [map concat app]. exact Hsep.
Qed.

(** [X6] The texts the version 4 parser accepts: exactly four numbers
    joined by dots, each of one or more decimal digits and of a value of
    at most 255 (zeros in front are allowed, a sign, white space and
    an empty number are not); the address has the four values as its
    bytes. *)
Theorem ParseV4_accepts :
  forall s a,
    ParseV4 s = Value a <->
    exists g0 g1 g2 g3,
      group_text 10 UINT8_MAX g0 /\ group_text 10 UINT8_MAX g1 /\
      group_text 10 UINT8_MAX g2 /\ group_text 10 UINT8_MAX g3 /\
      s = g0 ++ "."%char :: g1 ++ "."%char :: g2 ++ "."%char :: g3 /\
      a = IPAddress_v4 (group_value 10 g0) (group_value 10 g1)
                       (group_value 10 g2) (group_value 10 g3).
Proof.
  intros s a. split.
  - unfold ParseV4.
    destruct (scan_values "."%char 10 UINT8_MAX 4 0 s) as [[vs rest]|] eqn:E;
      [|discriminate].
    destruct rest as [|c rest]; [|discriminate].
    intros H. injection H as <-.
    destruct (scan_values_first _ _ _ _ _ _ _ E)
      as [g0 [groups [Hlen [Hall [Hs Hvs]]]]].
    destruct groups as [|g1 [|g2 [|g3 [|g4 groups]]]]; try discriminate Hlen.
    inversion Hall as [|? ? H0 Hr0]; subst.
    inversion Hr0 as [|? ? H1 Hr1]; subst.
    inversion Hr1 as [|? ? H2 Hr2]; subst.
    inversion Hr2 as [|? ? H3 _]; subst.
    exists g0, g1, g2, g3. repeat (split; [assumption|]).
    split; [|reflexivity].
    unfold sep_groups. cbn [map concat app]. rewrite !app_nil_r.
    repeat (rewrite <- app_assoc; cbn [app]). reflexivity.
  - intros [g0 [g1 [g2 [g3 [H0 [H1 [H2 [H3 [-> ->]]]]]]]]].
    unfold ParseV4.
    replace (g0 ++ "."%char :: g1 ++ "."%char :: g2 ++ "."%char :: g3)
      with (g0 ++ sep_groups "."%char [g1; g2; g3])
      by (unfold sep_groups; cbn [map concat app]; rewrite !app_nil_r;
          repeat (rewrite <- app_assoc; cbn [app]); reflexivity).
    assert (Hscan := scan_first_groups "."%char 10 UINT8_MAX g0 [g1; g2; g3]
                       eq_refl).
    cbn [length] in Hscan. rewrite Hscan by (repeat (constructor; [assumption|]); constructor).
    reflexivity.
Qed.

Lemma ParseV4_accepts_witness :
  ParseV4 (lit "010.0.00.255") = Value (IPAddress_v4 10 0 0 255).
Proof.
  apply (proj2 (ParseV4_accepts (lit "010.0.00.255")
                                (IPAddress_v4 10 0 0 255))).
  exists (lit "010"), (lit "0"), (lit "00"), (lit "255").
  repeat split; try discriminate; vm_compute; discriminate.
Defined.

Lemma starts_with_split :
  forall pat t, starts_with pat t = true -> t = pat ++ skipn (length pat) t.
Proof.
  induction pat as [|c pat IH]; intros t H; [reflexivity|].
  destruct t as [|x t]; [discriminate H|].
  cbn [starts_with] in H. apply andb_true_iff in H. destruct H as [Hc H].
  apply Ascii.eqb_eq in Hc. subst x. cbn [length skipn app]. f_equal.
  apply IH, H.
Qed.

Lemma find_split :
  forall pat s p,
    find pat s = Some p ->
    s = firstn p s ++ pat ++ skipn (p + length pat) s /\ length (firstn p s) = p.
Proof.
  intros pat. induction s as [|c s IH]; intros p H.
  - cbn [find] in H. destruct (starts_with pat []) eqn:E; [|discriminate].
    injection H as <-. split; [|reflexivity]. cbn [firstn app Nat.add].
    apply starts_with_split, E.
  - cbn [find] in H. destruct (starts_with pat (c :: s)) eqn:E.
    + injection H as <-. split; [|reflexivity]. cbn [firstn app Nat.add].
      apply starts_with_split, E.
    + destruct (find pat s) as [q|] eqn:Eq; [|discriminate].
      injection H as <-. destruct (IH q eq_refl) as [Hs Hl].
      cbn [firstn app Nat.add skipn length]. split; [|congruence].
      f_equal. exact Hs.
Qed.

Lemma join_colon_split :
  forall G X Y,
    Forall hextet_text G ->
    join_colon G = X ++ ":"%char :: Y ->
    exists G1 G2,
      G = G1 ++ G2 /\ G1 <> [] /\ G2 <> [] /\
      X = join_colon G1 /\ Y = join_colon G2.
Proof.
  induction G as [|g G IH]; intros X Y Hall H.
  - destruct X; discriminate H.
  - inversion Hall as [|? ? Hg HG]; subst.
    rewrite join_colon_cons in H.
    assert (Hsplit : exists X', X = g ++ X' /\
                                colon_groups G = X' ++ ":"%char :: Y).
    { symmetry in H. apply app_eq_app in H.
      destruct H as [l [[Hx Hr]|[Hx Hr]]].
      - exists l. split; [exact Hx | exact Hr].
      - destruct l as [|c l].
        + rewrite app_nil_r in Hx. subst g. exists [].
          rewrite app_nil_r. split; [reflexivity|]. symmetry. exact Hr.
        + exfalso. cbn [app] in Hr. injection Hr as Hc _. subst c.
          pose proof (hextet_chars g Hg) as Hno. rewrite Hx in Hno.
          apply Forall_app in Hno. destruct Hno as [_ Hno].
          inversion Hno as [|? ? Hneq _]. apply Hneq. reflexivity. }
    destruct Hsplit as [X' [-> Hrest]].
    destruct G as [|g' G'].
    { destruct X'; discriminate Hrest. }
    unfold colon_groups in Hrest. cbn [map concat app] in Hrest.
    fold (colon_groups G') in Hrest.
    rewrite <- (join_colon_cons g' G') in Hrest.
    destruct X' as [|c X''].
    + cbn [app] in Hrest. injection Hrest as Hy.
      exists [g], (g' :: G'). rewrite app_nil_r.
      repeat split; try discriminate. symmetry. exact Hy.
    + cbn [app] in Hrest. injection Hrest as Hc Hj. subst c.
      destruct (IH X'' Y HG Hj) as [G1 [G2 [HG12 [Hn1 [Hn2 [Hx Hy]]]]]].
      exists (g :: G1), G2. split; [cbn [app]; congruence|].
      split; [discriminate|]. split; [exact Hn2|]. split; [|exact Hy].
      rewrite Hx. destruct G1 as [|g1 G1]; [congruence|]. reflexivity.
Qed.

Lemma ParseV6_no_zone :
  forall os s a,
    find (lit "%") s = None ->
    ParseV6 os s = Value a ->
    exists hextets,
      scan_values ":"%char 16 UINT16_MAX 8 0 (ExpandIPv6DoubleColon s) =
        Some (hextets, []) /\
      a = IPAddress_of_hextets hextets.
Proof.
  intros os s a Hno. unfold ParseV6. rewrite Hno. cbv zeta.
  destruct (scan_values ":"%char 16 UINT16_MAX 8 0 (ExpandIPv6DoubleColon s))
    as [[hextets [|c rest]]|]; try discriminate.
  change (negb (0 =? 0)) with false. cbv iota.
  intros H. injection H as <-. exists hextets. split; reflexivity.
Qed.

Lemma expand_form :
  forall P R,
    find kDoubleColon (P ++ kDoubleColon ++ R) = Some (length P) ->
    ExpandIPv6DoubleColon (P ++ kDoubleColon ++ R) = [] \/
    exists zeros,
      ExpandIPv6DoubleColon (P ++ kDoubleColon ++ R) =
      match P with [] => [] | _ :: _ => P ++ lit ":" end ++ zeros ++
      match R with [] => [] | _ :: _ => ":"%char :: R end.
Proof.
  intros P R Hfind. unfold ExpandIPv6DoubleColon. rewrite Hfind.
  destruct (negb (option_nat_eqb _ _)); [left; reflexivity|]. right.
  cbv zeta.
  assert (Hlen : length (P ++ kDoubleColon ++ R) =
                 (length P + 2 + length R)%nat).
  { rewrite !length_app. cbn [kDoubleColon lit list_ascii_of_string length].
    lia. }
  rewrite Hlen.
  assert (HP : substr (P ++ kDoubleColon ++ R) 0 (length P + 1) =
               P ++ lit ":").
  { unfold substr. cbn [skipn]. rewrite firstn_app.
    rewrite firstn_all2 by lia.
    replace (length P + 1 - length P)%nat with 1%nat by lia. reflexivity. }
  assert (HR : substr_from (P ++ kDoubleColon ++ R) (length P + 1) =
               ":"%char :: R).
  { unfold substr_from. rewrite skipn_app, skipn_all2 by lia.
    replace (length P + 1 - length P)%nat with 1%nat by lia. reflexivity. }
  rewrite HP, HR.
  destruct P as [|c P]; destruct R as [|d R]; cbn [length].
  - change (0 =? 0)%nat with true. cbn [negb].
    replace (0 =? 0 + 2 + 0 - 2)%nat with true by reflexivity. cbn [negb].
    match goal with
    | |- context [zero_groups ?n] => exists (zero_groups n ++ lit "0")
    end.
    cbn [app]. rewrite ?app_nil_r. repeat (rewrite <- app_assoc; cbn [app]).
    reflexivity.
  - change (0 =? 0)%nat with true. cbn [negb].
    replace (0 =? 0 + 2 + S (length R) - 2)%nat with false
      by (symmetry; apply Nat.eqb_neq; lia).
    cbn [negb]. match goal with
    | |- context [zero_groups ?n] => exists (zero_groups n ++ lit "0")
    end.
    cbn [app]. rewrite ?app_nil_r. repeat (rewrite <- app_assoc; cbn [app]).
    reflexivity.
  - replace (S (length P) =? 0)%nat with false by reflexivity. cbn [negb].
    replace (S (length P) =? S (length P) + 2 + 0 - 2)%nat with true
      by (symmetry; apply Nat.eqb_eq; lia).
    cbn [negb]. match goal with
    | |- context [zero_groups ?n] => exists (zero_groups n ++ lit "0")
    end.
    cbn [app]. rewrite ?app_nil_r. repeat (rewrite <- app_assoc; cbn [app]).
    reflexivity.
  - replace (S (length P) =? 0)%nat with false by reflexivity. cbn [negb].
    replace (S (length P) =? S (length P) + 2 + S (length R) - 2)%nat
      with false by (symmetry; apply Nat.eqb_neq; lia).
    cbn [negb]. match goal with
    | |- context [zero_groups ?n] => exists (zero_groups n ++ lit "0")
    end.
    cbn [app]. rewrite ?app_nil_r. repeat (rewrite <- app_assoc; cbn [app]).
    reflexivity.
Qed.

Lemma scan_eight_groups :
  forall s hextets,
    scan_values ":"%char 16 UINT16_MAX 8 0 s = Some (hextets, []) ->
    exists groups,
      length groups = 8%nat /\ Forall hextet_text groups /\
      s = join_colon groups /\ hextets = map hex_value groups.
Proof.
  intros s hextets H.
  destruct (scan_values_first _ _ _ _ _ _ _ H)
    as [g [groups [Hlen [Hall [Hs Hvs]]]]].
  exists (g :: groups). split; [cbn [length]; congruence|].
  split; [exact Hall|]. split; [|exact Hvs].
  rewrite join_colon_cons, Hs, app_nil_r. reflexivity.
Qed.

(** [X7] The texts without a zone suffix that the version 6 parser
    accepts: exactly eight hextets joined by colons, or hextets joined by
    colons on the two sides of one double colon, at most seven in all
    (none on a side is allowed).  A hextet is one or more hexadecimal
    digits of a value of at most 65535.  So a text with fewer or more
    than eight hextets and no double colon, with a double colon and eight
    hextets or more, or with an empty hextet is rejected. *)
Theorem ParseV6_accepts :
  forall os s a,
    find (lit "%") s = None ->
    (ParseV6 os s = Value a <->
     (exists groups,
        length groups = 8%nat /\ Forall hextet_text groups /\
        s = join_colon groups /\
        a = IPAddress_of_hextets (map hex_value groups)) \/
     (exists A B,
        Forall hextet_text A /\ Forall hextet_text B /\
        (length A + length B <= 7)%nat /\
        s = join_colon A ++ kDoubleColon ++ join_colon B /\
        a = IPAddress_of_hextets
              (map hex_value A ++ repeat 0 (8 - length A - length B) ++
               map hex_value B))).
Proof.
  intros os s a Hno. split.
  - intros H.
    destruct (ParseV6_no_zone os s a Hno H) as [hextets [Hscan Ha]].
    destruct (find kDoubleColon s) as [p|] eqn:Ef.
    + (* one double colon *)
      right.
      destruct (find_split _ _ _ Ef) as [Hs Hp].
      set (P := firstn p s) in *.
      set (R := skipn (p + length kDoubleColon) s) in *.
      assert (Hform : exists A B,
                 Forall hextet_text A /\ Forall hextet_text B /\
                 (length A + length B <= 7)%nat /\
                 P = join_colon A /\ R = join_colon B).
      { assert (Ef' : find kDoubleColon (P ++ kDoubleColon ++ R) =
                      Some (length P)) by (rewrite <- Hs, Hp; exact Ef).
        destruct (expand_form P R Ef') as [He|[zeros He]];
          rewrite <- Hs in He; rewrite He in Hscan; [discriminate Hscan|].
        destruct (scan_eight_groups _ _ Hscan)
          as [G [Hlen [Hall [Hjoin _]]]].
        destruct P as [|c P']; destruct R as [|d R'].
        - exists [], []. repeat split; try constructor. simpl. lia.
        - cbn [app] in Hjoin. symmetry in Hjoin.
          destruct (join_colon_split G zeros (d :: R') Hall Hjoin)
            as [G1 [G2 [HG [Hn1 [Hn2 [_ HR]]]]]].
          rewrite HG in Hall. apply Forall_app in Hall.
          exists [], G2. split; [constructor|]. split; [apply Hall|].
          split; [|split; [reflexivity | exact HR]].
          rewrite HG, length_app in Hlen.
          destruct G1; [congruence|]. cbn [length] in *. lia.
        - rewrite app_nil_r, <- app_assoc in Hjoin. cbn [lit app
            list_ascii_of_string] in Hjoin. symmetry in Hjoin.
          destruct (join_colon_split G (c :: P') zeros Hall Hjoin)
            as [G1 [G2 [HG [Hn1 [Hn2 [HP _]]]]]].
          rewrite HG in Hall. apply Forall_app in Hall.
          exists G1, []. split; [apply Hall|]. split; [constructor|].
          split; [|split; [exact HP | reflexivity]].
          rewrite HG, length_app in Hlen.
          destruct G2; [congruence|]. cbn [length] in *. lia.
        - rewrite <- app_assoc in Hjoin. cbn [lit app
            list_ascii_of_string] in Hjoin. symmetry in Hjoin.
          destruct (join_colon_split G (c :: P') (zeros ++ ":"%char :: d :: R')
                                     Hall Hjoin)
            as [G1 [G2 [HG [Hn1 [Hn2 [HP Hrest]]]]]].
          rewrite HG in Hall. apply Forall_app in Hall.
          destruct Hall as [Hall1 Hall2]. symmetry in Hrest.
          destruct (join_colon_split G2 zeros (d :: R') Hall2 Hrest)
            as [G3 [G4 [HG2 [Hn3 [Hn4 [_ HR]]]]]].
          rewrite HG2 in Hall2. apply Forall_app in Hall2.
          exists G1, G4. split; [exact Hall1|]. split; [apply Hall2|].
          split; [|split; [exact HP | exact HR]].
          rewrite HG, HG2, !length_app in Hlen.
          destruct G3; [congruence|]. cbn [length] in *. lia. }
      destruct Hform as [A [B [HA [HB [Hlen [HPA HRB]]]]]].
      exists A, B. split; [exact HA|]. split; [exact HB|].
      split; [exact Hlen|].
      assert (Hs' : s = join_colon A ++ kDoubleColon ++ join_colon B)
        by (rewrite <- HPA, <- HRB; exact Hs).
      split; [exact Hs'|].
      pose proof (Parse_double_colon os A B HA HB Hlen) as HD.
      rewrite Parse_with_colon in HD
        by (apply in_or_app; right; left; reflexivity).
      rewrite <- Hs', H in HD. injection HD as HD. exact HD.
    + (* no double colon *)
      left. unfold ExpandIPv6DoubleColon in Hscan. rewrite Ef in Hscan.
      destruct (scan_eight_groups _ _ Hscan) as [G [Hlen [Hall [Hs Hv]]]].
      exists G. repeat (split; [assumption|]). rewrite Ha, Hv. reflexivity.
  - intros [[G [Hlen [Hall [-> ->]]]] | [A [B [HA [HB [Hlen [-> ->]]]]]]].
    + apply ParseV6_eight_groups; assumption.
    + rewrite <- (Parse_with_colon os)
        by (apply in_or_app; right; left; reflexivity).
      apply Parse_double_colon; assumption.
Qed.

Lemma ParseV6_accepts_witness :
  ParseV6 posix_lo (lit "fe80::a:1") =
  Value (IPAddress_v6 65152 0 0 0 0 0 10 1).
Proof.
  apply (proj2 (ParseV6_accepts posix_lo (lit "fe80::a:1")
                  (IPAddress_v6 65152 0 0 0 0 0 10 1) eq_refl)).
  right. exists [lit "fe80"], [lit "a"; lit "1"].
  split; [|split; [|split; [|split]]].
  - repeat constructor; try discriminate; vm_compute; discriminate.
  - repeat constructor; try discriminate; vm_compute; discriminate.
  - simpl. lia.
  - reflexivity.
  - reflexivity.
Defined.

(** ** The netmasks that have a prefix length *)

Lemma iter_add8_mod :
  forall n result,
    0 <= result < 256 ->
    Nat.iter n (fun r => to_uint8 (r + 8)) result =
    (result + 8 * Z.of_nat n) mod 256.
Proof.
  induction n as [|n IH]; intros result Hr.
  - cbn [Nat.iter]. change (Z.of_nat 0) with 0.
    rewrite Z.add_0_r, Z.mod_small by lia. reflexivity.
  - rewrite Nat.iter_succ, IH by exact Hr. unfold to_uint8.
    rewrite Z.add_mod_idemp_l by lia. f_equal. lia.
Qed.

Lemma split_leading_ff :
  forall netmask,
    exists n rest,
      netmask = repeat 255 n ++ rest /\
      match rest with b :: _ => b <> 255 | [] => True end.
Proof.
  induction netmask as [|b netmask [n [rest [Hs Hr]]]].
  - exists 0%nat, []. split; [reflexivity | exact I].
  - destruct (Z.eq_dec b 255) as [->|Hb].
    + exists (S n), rest. split; [cbn [repeat app]; congruence | exact Hr].
    + exists 0%nat, (b :: netmask). split; [reflexivity | exact Hb].
Qed.

Lemma all_zero_is_repeat :
  forall l, all_zero l = true -> l = repeat 0 (length l).
Proof.
  induction l as [|b l IH]; intros H; [reflexivity|].
  unfold all_zero in H. cbn [forallb] in H. apply andb_true_iff in H.
  destruct H as [Hb Hl]. apply Z.eqb_eq in Hb. subst b.
  cbn [length repeat]. f_equal. apply IH, Hl.
Qed.

Lemma is_partial_byte_k :
  forall b, is_partial_byte b = true -> exists k, 0 <= k < 8 /\ b = partial_byte k.
Proof.
  intros b H. unfold is_partial_byte in H. apply existsb_exists in H.
  destruct H as [k [Hin Hk]]. apply Z.eqb_eq in Hk. exists k.
  split; [|exact Hk]. cbn [In] in Hin. lia.
Qed.

Lemma ToPrefixLength_wraps :
  forall n k m,
    0 <= k < 8 ->
    ToPrefixLength (canonical_netmask n k m) =
    Some ((8 * Z.of_nat n + k) mod 256).
Proof.
  intros n k m Hk. unfold ToPrefixLength, canonical_netmask.
  destruct (Z.eqb_spec k 0) as [E|E].
  - subst k. rewrite leading_ff_repeat.
    2:{ destruct m; simpl; [exact I | lia]. }
    rewrite iter_add8_mod by lia. cbn [app].
    replace (0 + 8 * Z.of_nat n) with (8 * Z.of_nat n + 0) by lia.
    destruct m as [|m]; [reflexivity|]. cbn [repeat].
    change (negb (0 =? 0)) with false. cbv iota.
    change (all_zero (0 :: repeat 0 m)) with (all_zero (repeat 0 (S m))).
    rewrite all_zero_repeat. reflexivity.
  - rewrite leading_ff_repeat.
    2:{ simpl. apply partial_byte_not_ff. lia. }
    rewrite iter_add8_mod by lia. cbn [app]. cbv beta iota.
    destruct (Z.eqb_spec (partial_byte k) 0) as [Z0|_].
    { exfalso. apply (partial_byte_not_zero k); [lia | exact Z0]. }
    cbn [negb]. cbv iota.
    rewrite leading_bits_shift by (apply Z.mod_pos_bound; lia).
    rewrite leading_bits_partial by lia.
    rewrite Z.eqb_refl, all_zero_repeat. unfold to_uint8.
    rewrite Z.add_mod_idemp_l by lia. apply f_equal.
    apply (f_equal (fun x => x mod 256)). lia.
Qed.

Lemma ToPrefixLength_some_canonical :
  forall netmask p,
    Forall is_byte netmask ->
    ToPrefixLength netmask = Some p ->
    exists n k m,
      0 <= k < 8 /\ netmask = canonical_netmask n k m /\
      length netmask = (n + (if (k =? 0)%Z then 0 else 1) + m)%nat.
Proof.
  intros netmask p Hbytes Hp.
  destruct (split_leading_ff netmask) as [n [rest [Hs Hr]]].
  destruct rest as [|b rest].
  - exists n, 0, 0%nat. split; [lia|]. unfold canonical_netmask.
    cbn [Z.eqb repeat app]. split; [exact Hs|].
    rewrite Hs, length_app, repeat_length. simpl. lia.
  - assert (Hb : is_byte b).
    { rewrite Hs in Hbytes. apply Forall_app in Hbytes.
      destruct Hbytes as [_ Hbytes]. inversion Hbytes. assumption. }
    destruct (all_zero rest) eqn:Ez.
    2:{ rewrite Hs, (ToPrefixLength_hole_after n b rest Hr Ez) in Hp.
        discriminate Hp. }
    destruct (is_partial_byte b) eqn:Epart.
    2:{ rewrite Hs, (ToPrefixLength_hole_inside n b rest Hb Hr Epart) in Hp.
        discriminate Hp. }
    destruct (is_partial_byte_k b Epart) as [k [Hk Hbk]].
    apply all_zero_is_repeat in Ez.
    destruct (Z.eqb_spec k 0) as [E|E].
    + exists n, 0, (S (length rest)). split; [lia|].
      unfold canonical_netmask. cbn [Z.eqb repeat app].
      subst k. change (partial_byte 0) with 0 in Hbk. subst b.
      split; [rewrite <- Ez; exact Hs|].
      rewrite Hs, length_app, repeat_length. simpl. lia.
    + exists n, k, (length rest). split; [exact Hk|].
      unfold canonical_netmask.
      destruct (Z.eqb_spec k 0) as [|_]; [contradiction|].
      cbn [app]. rewrite <- Ez, <- Hbk. split; [exact Hs|].
      rewrite Hs, length_app, repeat_length. simpl. lia.
Qed.

(** [X8] The netmasks for which [ToPrefixLength] returns.  For a netmask
    of fewer than 32 bytes the function returns a value exactly when the
    netmask is in canonical form ([n] bytes 0xff, a byte of [k] leading
    one-bits when [k] is not 0, then bytes 0); the value is [8 * n + k],
    the number of leading one-bits, and is at most eight times the number
    of bytes; for any other netmask a check fails.  The count is kept in
    a [uint8_t]: for a canonical netmask of any length the value returned
    is [8 * n + k] modulo 256. *)
Theorem ToPrefixLength_returns :
  (forall netmask p,
     Forall is_byte netmask -> (length netmask < 32)%nat ->
     (ToPrefixLength netmask = Some p <->
      exists n k m,
        0 <= k < 8 /\ netmask = canonical_netmask n k m /\
        p = 8 * Z.of_nat n + k)) /\
  (forall netmask p,
     Forall is_byte netmask -> (length netmask < 32)%nat ->
     ToPrefixLength netmask = Some p ->
     p = leading_ones (mask_bits netmask) /\
     0 <= p <= 8 * Z.of_nat (length netmask)) /\
  (forall n k m,
     0 <= k < 8 ->
     ToPrefixLength (canonical_netmask n k m) =
     Some ((8 * Z.of_nat n + k) mod 256)).
Proof.
  assert (Hsome : forall netmask p,
            Forall is_byte netmask -> (length netmask < 32)%nat ->
            ToPrefixLength netmask = Some p ->
            exists n k m,
              0 <= k < 8 /\ netmask = canonical_netmask n k m /\
              p = 8 * Z.of_nat n + k /\
              length netmask = (n + (if (k =? 0)%Z then 0 else 1) + m)%nat).
  { intros netmask p Hbytes Hlen Hp.
    destruct (ToPrefixLength_some_canonical netmask p Hbytes Hp)
      as [n [k [m [Hk [Hform Hl]]]]].
    exists n, k, m. split; [exact Hk|]. split; [exact Hform|].
    split; [|exact Hl].
    rewrite Hform, ToPrefixLength_canonical in Hp by lia.
    injection Hp as <-. reflexivity. }
  split; [|split].
  - intros netmask p Hbytes Hlen. split.
    + intros Hp.
      destruct (Hsome netmask p Hbytes Hlen Hp)
        as [n [k [m [Hk [Hform [Hv _]]]]]].
      exists n, k, m. repeat split; assumption || lia.
    + intros [n [k [m [Hk [-> ->]]]]].
      apply ToPrefixLength_canonical; [exact Hk|].
      unfold canonical_netmask in Hlen.
      rewrite !length_app, repeat_length in Hlen. lia.
  - intros netmask p Hbytes Hlen Hp.
    destruct (Hsome netmask p Hbytes Hlen Hp)
      as [n [k [m [Hk [Hform [Hv Hl]]]]]].
    split.
    + rewrite Hform, leading_ones_canonical by exact Hk. exact Hv.
    + rewrite Hl, Hv. destruct (Z.eqb_spec k 0); lia.
  - exact ToPrefixLength_wraps.
Qed.

Lemma ToPrefixLength_returns_witness :
  ToPrefixLength [255; 255; 255; 255; 255; 255; 255; 255; 255; 252; 0; 0; 0; 0; 0; 0] = Some 78 /\
  ToPrefixLength (repeat 255 32) = Some 0.
Proof.
  destruct ToPrefixLength_returns as [Hiff [_ Hwrap]]. split.
  - apply (proj2 (Hiff [255; 255; 255; 255; 255; 255; 255; 255; 255; 252; 0; 0; 0; 0; 0; 0] 78
                    ltac:(repeat constructor; unfold is_byte; lia)
                    ltac:(simpl; lia))).
    exists 9%nat, 6, 6%nat. repeat split; lia.
  - apply (Hwrap 32%nat 0 0%nat). lia.
Defined.

(** ** What the walk over the interface list reports *)

Lemma str_eqb_eq : forall a b, str_eqb a b = true <-> a = b.
Proof.
  induction a as [|x a IH]; intros [|y b]; cbn [str_eqb];
    try (split; [discriminate | discriminate]); [tauto|].
  rewrite andb_true_iff, Ascii.eqb_eq, IH.
  split; [intros [-> ->]; reflexivity | intros H; injection H; auto].
Qed.

Lemma find_interface_some :
  forall n results i,
    find_interface n results = Some i ->
    exists info, nth_error results i = Some info /\ name info = n.
Proof.
  intros n. induction results as [|info rest IH]; intros i H;
    [discriminate H|].
  cbn [find_interface] in H. destruct (str_eqb (name info) n) eqn:E.
  - injection H as <-. exists info. split; [reflexivity|].
    apply str_eqb_eq, E.
  - destruct (find_interface n rest) as [j|]; [|discriminate H].
    injection H as <-. apply (IH j eq_refl).
Qed.

Lemma find_interface_none :
  forall n results,
    find_interface n results = None -> ~ In n (map name results).
Proof.
  intros n. induction results as [|info rest IH]; intros H Hin;
    [exact Hin|].
  cbn [find_interface] in H. destruct (str_eqb (name info) n) eqn:E;
    [discriminate H|].
  destruct (find_interface n rest) as [j|] eqn:Ef; [discriminate H|].
  destruct Hin as [Hin|Hin].
  - apply str_eqb_eq in Hin. rewrite Hin in E. discriminate E.
  - exact (IH eq_refl Hin).
Qed.

Lemma update_at_names :
  forall f i results,
    (forall info, name (f info) = name info) ->
    map name (update_at i f results) = map name results.
Proof.
  intros f i results Hf. revert i.
  induction results as [|info rest IH]; intros [|i]; cbn [update_at map];
    try reflexivity.
  - rewrite Hf. reflexivity.
  - rewrite IH. reflexivity.
Qed.

Lemma update_at_in :
  forall f i results info',
    In info' (update_at i f results) ->
    In info' results \/
    exists info, nth_error results i = Some info /\ info' = f info.
Proof.
  intros f i results info'. revert i.
  induction results as [|info rest IH]; intros [|i] H; cbn [update_at] in H;
    try contradiction.
  - destruct H as [H|H]; [|left; right; exact H].
    right. exists info. split; [reflexivity | symmetry; exact H].
  - destruct H as [H|H]; [left; left; exact H|].
    destruct (IH i H) as [Hin|[info0 [Hn He]]]; [left; right; exact Hin|].
    right. exists info0. split; assumption.
Qed.

Lemma add_record_address_cases :
  forall os results i cur addr results',
    add_record_address os results i cur addr = Some results' ->
    results' = results \/
    (exists hw,
       results' = update_at i (set_hardware_address hw) results /\
       hardware_of os addr hw) \/
    (exists s,
       results' = update_at i (add_address s) results /\
       subnet_of os cur addr s).
Proof.
  intros os results i cur addr results'. unfold add_record_address.
  destruct (Z.eqb_spec (sa_family addr) (AF_LINK os)) as [Hl|Hl].
  { destruct addr as [sa|sa|sa|f]; cbn [as_sockaddr_dl]; try discriminate.
    intros H. injection H as <-. right. left.
    eexists. split; [reflexivity|]. split; [exact Hl|].
    exists sa. split; reflexivity. }
  destruct (Z.eqb_spec (sa_family addr) (AF_INET6 os)) as [H6|H6].
  { destruct (ioctl_SIOCGIFAFLAG_IN6 os _ addr) as [ret flags] eqn:Eq.
    destruct (Z.eqb_spec ret 0) as [Hret|Hret]; cbn [negb orb].
    2:{ intros H. injection H as <-. left. reflexivity. }
    destruct (flag_set flags (IN6_IFF_DEPRECATED os)) eqn:Ed.
    { intros H. injection H as <-. left. reflexivity. }
    destruct addr as [sa|sa|sa|f]; cbn [as_sockaddr_in6]; try discriminate.
    destruct (ToPrefixLength (netmask_bytes_in6 os cur)) as [len|] eqn:Ep;
      [|discriminate].
    intros H. injection H as <-. right. right.
    eexists. split; [reflexivity|]. split; [exact Hl|]. left.
    split; [exact H6|]. rewrite Eq. cbn [fst snd].
    split; [exact Hret|]. split; [exact Ed|].
    exists sa. cbn [subnet_address prefix_length].
    split; [reflexivity|]. split; [reflexivity | exact Ep]. }
  destruct (Z.eqb_spec (sa_family addr) (AF_INET os)) as [H4|H4].
  { destruct addr as [sa|sa|sa|f]; cbn [as_sockaddr_in]; try discriminate.
    destruct (GetIPAddressFromSockAddr_in sa) as [ip|] eqn:Eip;
      [|discriminate].
    destruct (ToPrefixLength (netmask_bytes_in os cur)) as [len|] eqn:Ep;
      [|discriminate].
    intros H. injection H as <-. right. right.
    eexists. split; [reflexivity|]. split; [exact Hl|]. right.
    split; [exact H6|]. split; [exact H4|].
    exists sa. cbn [subnet_address prefix_length].
    split; [reflexivity|]. split; [exact Eip | exact Ep]. }
  intros H. injection H as <-. left. reflexivity.
Qed.

Lemma from_record_more :
  forall os seen seen' n P,
    incl seen seen' -> from_record os seen n P -> from_record os seen' n P.
Proof.
  intros os seen seen' n P Hincl [cur [addr [Hin H]]].
  exists cur, addr. split; [apply Hincl, Hin | exact H].
Qed.

Lemma reported_more :
  forall os seen seen' results,
    incl seen seen' -> reported os seen results -> reported os seen' results.
Proof.
  intros os seen seen' results Hincl [Hnd Hall]. split; [exact Hnd|].
  intros info Hin. destruct (Hall info Hin) as [[cur [Hc Hr]] [Ha Hh]].
  split; [exists cur; split; [apply Hincl, Hc | exact Hr]|]. split.
  - intros s Hs. eapply from_record_more; [exact Hincl | exact (Ha s Hs)].
  - destruct Hh as [Hh|Hh]; [left; exact Hh|]. right.
    eapply from_record_more; [exact Hincl | exact Hh].
Qed.

Lemma reported_add_record_address :
  forall os seen results i cur addr results' info,
    reported os seen results ->
    In cur seen ->
    flag_set (ifa_flags cur) (IFF_RUNNING os) = true ->
    ifa_addr cur = Some addr ->
    nth_error results i = Some info -> name info = ifa_name cur ->
    add_record_address os results i cur addr = Some results' ->
    reported os seen results'.
Proof.
  intros os seen results i cur addr results' info [Hnd Hall] Hcur Hrun Haddr
         Hnth Hname Hadd.
  assert (Hhere : forall P : ifaddrs -> sockaddr -> Prop,
             P cur addr -> from_record os seen (name info) P).
  { intros P HP. exists cur, addr. repeat split; auto. }
  destruct (add_record_address_cases _ _ _ _ _ _ Hadd)
    as [->|[[hw [-> Hhw]]|[s [-> Hs]]]].
  - split; assumption.
  - split; [rewrite update_at_names by reflexivity; exact Hnd|].
    intros info' Hin.
    destruct (update_at_in _ _ _ _ Hin) as [Hold|[info0 [Hn0 ->]]];
      [exact (Hall info' Hold)|].
    rewrite Hnth in Hn0. injection Hn0 as <-.
    destruct (Hall info (nth_error_In _ _ Hnth)) as [Hrec [Ha _]].
    split; [exact Hrec|]. split; [exact Ha|]. right.
    cbn [set_hardware_address hardware_address name].
    apply (Hhere (fun _ addr => hardware_of os addr hw)). exact Hhw.
  - split; [rewrite update_at_names by reflexivity; exact Hnd|].
    intros info' Hin.
    destruct (update_at_in _ _ _ _ Hin) as [Hold|[info0 [Hn0 ->]]];
      [exact (Hall info' Hold)|].
    rewrite Hnth in Hn0. injection Hn0 as <-.
    destruct (Hall info (nth_error_In _ _ Hnth)) as [Hrec [Ha Hh]].
    split; [exact Hrec|]. split; [|exact Hh].
    cbn [add_address addresses name]. intros s' Hin'.
    apply in_app_or in Hin'. destruct Hin' as [Hin'|[<-|[]]].
    + exact (Ha s' Hin').
    + apply (Hhere (fun cur addr => subnet_of os cur addr s)). exact Hs.
Qed.

Lemma reported_process_record :
  forall os seen results cur results',
    reported os seen results ->
    process_record os results cur = Some results' ->
    reported os (seen ++ [cur]) results'.
Proof.
  intros os seen results cur results' Hrep. unfold process_record.
  assert (Hincl : incl seen (seen ++ [cur])) by (apply incl_appl, incl_refl).
  assert (Hcur : In cur (seen ++ [cur]))
    by (apply in_or_app; right; left; reflexivity).
  destruct (flag_set (ifa_flags cur) (IFF_RUNNING os)) eqn:Hrun; cbn [negb orb].
  2:{ intros H. injection H as <-. exact (reported_more _ _ _ _ Hincl Hrep). }
  unfold has_addr. destruct (ifa_addr cur) as [addr|] eqn:Haddr; cbn [negb].
  2:{ intros H. injection H as <-. exact (reported_more _ _ _ _ Hincl Hrep). }
  apply (reported_more _ _ _ _ Hincl) in Hrep.
  destruct (find_interface (ifa_name cur) results) as [i|] eqn:Ef.
  - destruct (find_interface_some _ _ _ Ef) as [info [Hnth Hname]].
    intros Hadd.
    exact (reported_add_record_address _ _ _ _ _ _ _ _ Hrep Hcur Hrun Haddr
             Hnth Hname Hadd).
  - destruct (classify os cur) as [ty|] eqn:Ec.
    2:{ intros H. injection H as <-. exact Hrep. }
    cbv zeta. intros Hadd.
    assert (Hnew : reported os (seen ++ [cur])
                     (results ++ [new_interface os cur ty])).
    { destruct Hrep as [Hnd Hall]. split.
      - rewrite map_app. cbn [map new_interface name].
        apply NoDup_app; [exact Hnd | repeat constructor; intros [] |].
        intros n Hin [<-|[]]. exact (find_interface_none _ _ Ef Hin).
      - intros info Hin. apply in_app_or in Hin.
        destruct Hin as [Hin|[<-|[]]]; [exact (Hall info Hin)|].
        split; [|split].
        + exists cur. split; [exact Hcur|].
          repeat split; try reflexivity; assumption.
        + intros s [].
        + left. reflexivity. }
    refine (reported_add_record_address _ _ _ _ _ _ _
              (new_interface os cur ty) Hnew Hcur Hrun Haddr _ eq_refl Hadd).
    rewrite nth_error_app2 by lia. rewrite Nat.sub_diag. reflexivity.
Qed.

Lemma reported_process_records :
  forall os interfaces seen results results',
    reported os seen results ->
    process_records os results interfaces = Some results' ->
    reported os (seen ++ interfaces) results'.
Proof.
  intros os. induction interfaces as [|cur next IH];
    intros seen results results' Hrep H.
  - cbn [process_records] in H. injection H as <-. rewrite app_nil_r.
    exact Hrep.
  - cbn [process_records] in H.
    destruct (process_record os results cur) as [r|] eqn:E; [|discriminate H].
    replace (seen ++ cur :: next) with ((seen ++ [cur]) ++ next)
      by (rewrite <- app_assoc; reflexivity).
    apply (IH _ r); [|exact H].
    exact (reported_process_record _ _ _ _ _ Hrep E).
Qed.

Lemma ToPrefixLength_bound :
  forall netmask p,
    Forall is_byte netmask -> (length netmask < 32)%nat ->
    ToPrefixLength netmask = Some p ->
    0 <= p <= 8 * Z.of_nat (length netmask).
Proof.
  intros netmask p Hbytes Hlen Hp.
  destruct (ToPrefixLength_some_canonical netmask p Hbytes Hp)
    as [n [k [m [Hk [Hform Hl]]]]].
  rewrite Hform, ToPrefixLength_canonical in Hp by lia.
  assert (Hpv : p = 8 * Z.of_nat n + k) by congruence.
  assert (Hcase : (k = 0 /\ length netmask = (n + 0 + m)%nat) \/
                  (k <> 0 /\ length netmask = (n + 1 + m)%nat)).
  { rewrite Hl. destruct (Z.eqb_spec k 0); [left | right];
      (split; [assumption | reflexivity]). }
  destruct Hcase as [[Hk0 ->] | [Hk0 ->]]; lia.
Qed.

(** [X9] The entries of [ProcessInterfacesList].  When the walk ends
    without a failed check, no two entries it returns have the same name,
    and every entry comes from a record of the list of that name that is
    running: its type is what the media query gives for that record, its
    index the one [if_nametoindex] gives for the name.  Its hardware
    address is six zero bytes or the link-layer address of a running
    record of the name of family [AF_LINK]. *)
Theorem ProcessInterfacesList_entries :
  forall os interfaces results,
    ProcessInterfacesList os interfaces = Some results ->
    NoDup (map name results) /\
    forall info,
      In info results ->
      (exists cur, In cur interfaces /\ record_of os cur info) /\
      (hardware_address info = kUnknownHardwareAddress \/
       from_record os interfaces (name info)
         (fun _ addr => hardware_of os addr (hardware_address info))).
Proof.
  intros os interfaces results H.
  assert (Hempty : reported os [] []).
  { split; [constructor | intros info []]. }
  destruct (reported_process_records os interfaces [] [] results Hempty H)
    as [Hnd Hall].
  split; [exact Hnd|]. intros info Hin.
  destruct (Hall info Hin) as [Hrec [_ Hhw]]. split; assumption.
Qed.

Lemma ProcessInterfacesList_entries_witness :
  NoDup (map name [new_interface failing_query flagged_record kLoopback]).
Proof.
  apply (ProcessInterfacesList_entries failing_query [flagged_record]).
  reflexivity.
Defined.

(** [X10] The addresses of [ProcessInterfacesList].  Every subnet listed
    for an entry is read from a running record of the name of the entry:
    either a record of family [AF_INET6] whose address flags could be
    queried and are not deprecated, or a record of family [AF_INET]; the
    address is the one decoded from the record and the prefix length the
    one [ToPrefixLength] returns for its netmask.  When the netmask bytes
    are bytes, the prefix length is at most 128 for an address of family
    [AF_INET6] and at most 32 for one of family [AF_INET]. *)
Theorem ProcessInterfacesList_addresses :
  forall os interfaces results info s,
    ProcessInterfacesList os interfaces = Some results ->
    In info results -> In s (addresses info) ->
    exists cur addr,
      In cur interfaces /\ ifa_name cur = name info /\
      flag_set (ifa_flags cur) (IFF_RUNNING os) = true /\
      ifa_addr cur = Some addr /\
      subnet_of os cur addr s /\
      (Forall is_byte (netmask_bytes_in os cur) ->
       Forall is_byte (netmask_bytes_in6 os cur) ->
       0 <= prefix_length s <= 8 * Z.of_nat (size (subnet_address s))).
Proof.
  intros os interfaces results info s H Hin Hs.
  assert (Hempty : reported os [] []).
  { split; [constructor | intros i []]. }
  destruct (reported_process_records os interfaces [] [] results Hempty H)
    as [_ Hall].
  destruct (Hall info Hin) as [_ [Ha _]].
  destruct (Ha s Hs) as [cur [addr [Hc [Hn [Hrun [Haddr Hsub]]]]]].
  exists cur, addr. repeat (split; [assumption|]).
  intros Hb4 Hb6.
  destruct Hsub as [_ [[_ [_ [_ [sa [_ [Hip Hp]]]]]] | [_ [_ [sa [_ [Hip Hp]]]]]]].
  - rewrite Hip. unfold GetIPAddressFromSockAddr_in6, IPAddress_scoped, size.
    cbn [version_ kV6Size].
    assert (Hlen : (length (netmask_bytes_in6 os cur) <= 16)%nat).
    { unfold netmask_bytes_in6.
      destruct (ifa_netmask cur) as [nm|]; [|rewrite repeat_length; lia].
      destruct (sa_family nm =? AF_INET6 os); [|rewrite repeat_length; lia].
      destruct (as_sockaddr_in6 nm); [|rewrite repeat_length; lia].
      apply firstn_le_length. }
    assert (Hlt : (length (netmask_bytes_in6 os cur) < 32)%nat) by lia.
    pose proof (ToPrefixLength_bound _ _ Hb6 Hlt Hp). unfold kV6Size. lia.
  - unfold GetIPAddressFromSockAddr_in, IPAddress_from_span,
      IPAddress_of_span in Hip.
    destruct (kV4Size <=? length (firstn 4 (sin_addr sa)))%nat;
      [|discriminate Hip].
    injection Hip as Hip. rewrite <- Hip. unfold size.
    cbn [version_ kV4Size].
    assert (Hlen : (length (netmask_bytes_in os cur) <= 4)%nat).
    { unfold netmask_bytes_in.
      destruct (ifa_netmask cur) as [nm|]; [|rewrite repeat_length; lia].
      destruct (sa_family nm =? AF_INET os); [|rewrite repeat_length; lia].
      destruct (as_sockaddr_in nm); [|rewrite repeat_length; lia].
      apply firstn_le_length. }
    assert (Hlt : (length (netmask_bytes_in os cur) < 32)%nat) by lia.
    pose proof (ToPrefixLength_bound _ _ Hb4 Hlt Hp). unfold kV4Size. lia.
Qed.

Lemma ProcessInterfacesList_addresses_witness :
  exists cur addr,
    In cur [loopback_v4_record] /\ ifa_name cur = name loopback_v4_entry /\
    flag_set (ifa_flags cur) (IFF_RUNNING posix_lo) = true /\
    ifa_addr cur = Some addr /\
    subnet_of posix_lo cur addr loopback_v4_subnet /\
    (Forall is_byte (netmask_bytes_in posix_lo cur) ->
     Forall is_byte (netmask_bytes_in6 posix_lo cur) ->
     0 <= prefix_length loopback_v4_subnet <=
     8 * Z.of_nat (size (subnet_address loopback_v4_subnet))).
Proof.
  apply (ProcessInterfacesList_addresses posix_lo [loopback_v4_record]
           [loopback_v4_entry] loopback_v4_entry loopback_v4_subnet).
  - reflexivity.
  - left. reflexivity.
  - left. reflexivity.
Defined.

(** ** Native socket addresses: decoding, then encoding *)

Lemma htons_ntohs :
  forall os x, 0 <= x < 65536 -> htons os (ntohs os x) = x.
Proof.
  intros os x Hx. unfold htons, ntohs.
  destruct (little_endian os); [apply bswap16_involutive, Hx | reflexivity].
Qed.

(** [X11] A native socket address decoded and encoded again.  The
    constructor from a [sockaddr] accepts the families [AF_INET] and
    [AF_INET6] only; the object it makes has the version of the member it
    filled.  Encoding the endpoint it holds gives back the family, the
    port and the address bytes of the structure; the padding of a version
    4 structure and the flow information of a version 6 structure come
    back as 0, and the scope id comes back only when the address is
    link-local. *)
Theorem sockaddr_decode_encode :
  forall os address,
    (sa_family address <> AF_INET os -> sa_family address <> AF_INET6 os ->
     SocketAddressPosix_of_sockaddr os address = None) /\
    forall st,
      SocketAddressPosix_of_sockaddr os address = Some st ->
      version_agrees st /\
      match address with
      | SockaddrIn sa =>
          internal_address_ st = InternalV4 sa /\
          (length (sin_addr sa) = 4%nat -> 0 <= sin_port sa < 65536 ->
           SocketAddressPosix_of_endpoint os (endpoint_ st) =
           Some (InternalV4 {| sin_family := sin_family sa;
                               sin_port := sin_port sa;
                               sin_addr := sin_addr sa;
                               sin_zero := repeat 0 8 |}))
      | SockaddrIn6 sa =>
          internal_address_ st = InternalV6 sa /\
          (length (sin6_addr sa) = 16%nat -> 0 <= sin6_port sa < 65536 ->
           SocketAddressPosix_of_endpoint os (endpoint_ st) =
           Some (InternalV6
                   {| sin6_family := sin6_family sa;
                      sin6_port := sin6_port sa;
                      sin6_flowinfo := 0;
                      sin6_addr := sin6_addr sa;
                      sin6_scope_id :=
                        if IsLinkLocal (GetIPAddressFromSockAddr_in6 sa)
                        then sin6_scope_id sa else 0 |}))
      | _ => False
      end.
Proof.
  intros os address. unfold SocketAddressPosix_of_sockaddr. split.
  - intros H4 H6.
    destruct (Z.eqb_spec (sa_family address) (AF_INET os)); [contradiction|].
    destruct (Z.eqb_spec (sa_family address) (AF_INET6 os)); [contradiction|].
    reflexivity.
  - intros st.
    destruct (Z.eqb_spec (sa_family address) (AF_INET os)) as [H4|H4].
    + destruct address as [sa|sa|sa|f]; cbn [as_sockaddr_in]; try discriminate.
      cbn [sa_family] in H4. cbn [RecomputeEndpoint].
      unfold GetIPAddressFromSockAddr_in, IPAddress_from_span,
        IPAddress_of_span.
      destruct (Nat.leb_spec kV4Size (length (firstn 4 (sin_addr sa))))
        as [Hlen|Hlen]; [|discriminate].
      intros H. injection H as <-. split; [reflexivity|].
      split; [reflexivity|]. intros Hl Hp.
      cbn [endpoint_]. unfold SocketAddressPosix_of_endpoint, ToSockAddrIn.
      cbn [address port IsV4 version_ Version_eqb negb CopyTo size kV4Size
           bytes_ option_map].
      rewrite htons_ntohs by exact Hp. rewrite H4.
      destruct (sin_addr sa) as [|b0 [|b1 [|b2 [|b3 [|b4 tail]]]]];
        try discriminate Hl.
      reflexivity.
    + destruct (Z.eqb_spec (sa_family address) (AF_INET6 os)) as [H6|H6];
        [|discriminate].
      destruct address as [sa|sa|sa|f]; cbn [as_sockaddr_in6];
        try discriminate.
      cbn [sa_family] in H6. cbn [RecomputeEndpoint].
      intros H. injection H as <-. split; [reflexivity|].
      split; [reflexivity|]. intros Hl Hp.
      cbn [endpoint_]. unfold SocketAddressPosix_of_endpoint, ToSockAddrIn6.
      cbn [address port].
      set (a := GetIPAddressFromSockAddr_in6 sa).
      assert (Hv : IsV4 a = false) by reflexivity.
      assert (Hv6 : IsV6 a = true) by reflexivity.
      rewrite Hv, Hv6. cbn [negb]. cbv iota.
      rewrite htons_ntohs by exact Hp. rewrite H6.
      assert (Hcopy : CopyTo a (repeat 0 16) = Some (sin6_addr sa)).
      { unfold CopyTo, a, GetIPAddressFromSockAddr_in6, IPAddress_scoped, size.
        cbn [version_ bytes_ kV6Size]. clear -Hl.
        destruct sa as [fam prt flow addr scope]. cbn [sin6_addr] in *.
        sixteen addr Hl. reflexivity. }
      rewrite Hcopy. cbn [option_map]. do 2 f_equal.
      unfold GetScopeId. f_equal.
      change (scope_id_ a) with (sin6_scope_id sa).
      destruct (IsLinkLocal a); cbn [andb]; [|reflexivity].
      destruct (Z.eqb_spec (sin6_scope_id sa) 0) as [E|E]; cbn [negb];
        [symmetry; exact E | reflexivity].
Qed.

Lemma sockaddr_decode_encode_witness :
  exists st,
    SocketAddressPosix_of_sockaddr posix_lo (SockaddrIn6 native_link_local) =
      Some st /\
    SocketAddressPosix_of_endpoint posix_lo (endpoint_ st) =
      Some (InternalV6 {| sin6_family := 30; sin6_port := 20480;
                          sin6_flowinfo := 0;
                          sin6_addr := [254; 128] ++ repeat 0 13 ++ [1];
                          sin6_scope_id := 7 |}).
Proof.
  destruct (SocketAddressPosix_of_sockaddr posix_lo
              (SockaddrIn6 native_link_local)) as [st|] eqn:E;
    [|discriminate E].
  exists st. split; [reflexivity|].
  destruct (proj2 (sockaddr_decode_encode posix_lo
                     (SockaddrIn6 native_link_local)) st E) as [_ [_ H]].
  apply H; [reflexivity | cbn [native_link_local sin6_port]; lia].
Defined.

(** ** The address handed to the QUIC library *)

Lemma int_shl_byte :
  forall b n,
    is_byte b -> 0 <= n <= 24 ->
    int_shl b n = if b * 2 ^ n <? 2147483648 then b * 2 ^ n
                   else b * 2 ^ n - 4294967296.
Proof.
  intros b n Hb Hn. unfold int_shl, to_int, is_byte in *.
  rewrite Z.shiftl_mul_pow2 by lia.
  assert (Hpow : 0 < 2 ^ n <= 2 ^ 24).
  { split; [apply Z.pow_pos_nonneg; lia|].
    apply Z.pow_le_mono_r; lia. }
  change (2 ^ 24) with 16777216 in Hpow.
  assert (Hx : 0 <= b * 2 ^ n < 4294967296) by nia.
  destruct (Z.ltb_spec (b * 2 ^ n) 2147483648) as [Hlt|Hge].
  - rewrite Z.mod_small by lia. lia.
  - replace ((b * 2 ^ n + 2147483648) mod 4294967296)
      with (b * 2 ^ n - 2147483648); [lia|].
    apply Z.mod_unique with (q := 1); lia.
Qed.

(** [X12] The address given to the QUIC library.  For an address of
    version 4 the four bytes are put together in an [int] without
    overflow, and the 32-bit number made holds the bytes of the address in
    memory order on a little-endian system, in reverse order on a
    big-endian one; for an address of version 6 the sixteen bytes are
    copied, whatever the structure held before.  An address is never left
    uninitialized. *)
Theorem ToQuicheIpAddress_bytes :
  forall os uninitialized a,
    valid a -> length uninitialized = 16%nat ->
    exists q,
      ToQuicheIpAddress uninitialized a = Some q /\
      match q with
      | QuicheV4 w =>
          IsV4 a = true /\ 0 <= w < 4294967296 /\
          uint32_memory os w =
            (if little_endian os then bytes a else rev (bytes a))
      | QuicheV6 b => IsV6 a = true /\ b = bytes a
      | QuicheUninitialized => False
      end.
Proof.
  intros os uninitialized [v l scope] [Hlen [Hbytes _]] Hu.
  cbn [bytes_] in *. unfold ToQuicheIpAddress.
  destruct v; cbn [IsV4 IsV6 version_ Version_eqb].
  - (* version 4 *)
    unfold bytes, size. cbn [version_ bytes_ kV4Size].
    destruct l as [|b0 [|b1 [|b2 [|b3 tail]]]]; try discriminate Hlen.
    inversion Hbytes as [|? ? H0 Hr0]; subst.
    inversion Hr0 as [|? ? H1 Hr1]; subst.
    inversion Hr1 as [|? ? H2 Hr2]; subst.
    inversion Hr2 as [|? ? H3 _]; subst.
    unfold kV4Size. cbn [firstn nth]. cbv zeta. cbn [firstn nth].
    rewrite (int_shl_byte b3 24 H3), (int_shl_byte b2 16 H2),
      (int_shl_byte b1 8 H1) by lia.
    change (2 ^ 24) with 16777216. change (2 ^ 16) with 65536.
    change (2 ^ 8) with 256.
    unfold is_byte in *.
    destruct (Z.ltb_spec (b2 * 65536) 2147483648) as [_|Hc]; [|lia].
    destruct (Z.ltb_spec (b1 * 256) 2147483648) as [_|Hc]; [|lia].
    unfold int_add, INT_MIN, INT_MAX.
    set (hi := if b3 * 16777216 <? 2147483648 then b3 * 16777216
               else b3 * 16777216 - 4294967296).
    assert (Hhi : (hi = b3 * 16777216 /\ b3 < 128) \/
                  (hi = b3 * 16777216 - 4294967296 /\ 128 <= b3)).
    { subst hi. destruct (Z.ltb_spec (b3 * 16777216) 2147483648); lia. }
    clearbody hi.
    assert (R1 : -2147483648 <= hi + b2 * 65536 <= 2147483647) by lia.
    assert (R2 : -2147483648 <= hi + b2 * 65536 + b1 * 256 <= 2147483647)
      by lia.
    assert (R3 : -2147483648 <= hi + b2 * 65536 + b1 * 256 + b0 <= 2147483647)
      by lia.
    replace ((-2147483648 <=? hi + b2 * 65536) &&
             (hi + b2 * 65536 <=? 2147483647)) with true
      by (symmetry; apply andb_true_iff; split; apply Z.leb_le; lia).
    replace ((-2147483648 <=? hi + b2 * 65536 + b1 * 256) &&
             (hi + b2 * 65536 + b1 * 256 <=? 2147483647)) with true
      by (symmetry; apply andb_true_iff; split; apply Z.leb_le; lia).
    replace ((-2147483648 <=? hi + b2 * 65536 + b1 * 256 + b0) &&
             (hi + b2 * 65536 + b1 * 256 + b0 <=? 2147483647)) with true
      by (symmetry; apply andb_true_iff; split; apply Z.leb_le; lia).
    eexists. split; [reflexivity|]. cbv beta iota.
    assert (Hw : to_uint32 (hi + b2 * 65536 + b1 * 256 + b0) =
                 b3 * 16777216 + b2 * 65536 + b1 * 256 + b0).
    { unfold to_uint32. destruct Hhi as [[-> _]|[-> _]].
      - apply Z.mod_small. lia.
      - symmetry. apply Z.mod_unique with (q := -1); lia. }
    rewrite Hw. split; [reflexivity|]. split; [lia|].
    assert (M0 : (b3 * 16777216 + b2 * 65536 + b1 * 256 + b0) mod 256 = b0).
    { symmetry.
      apply Z.mod_unique with (q := b3 * 65536 + b2 * 256 + b1); lia. }
    assert (D1 : (b3 * 16777216 + b2 * 65536 + b1 * 256 + b0) / 256 =
                 b3 * 65536 + b2 * 256 + b1).
    { symmetry. apply Z.div_unique with (r := b0); lia. }
    assert (D2 : (b3 * 16777216 + b2 * 65536 + b1 * 256 + b0) / 65536 =
                 b3 * 256 + b2).
    { symmetry. apply Z.div_unique with (r := b1 * 256 + b0); lia. }
    assert (D3 : (b3 * 16777216 + b2 * 65536 + b1 * 256 + b0) / 16777216 =
                 b3).
    { symmetry.
      apply Z.div_unique with (r := b2 * 65536 + b1 * 256 + b0); lia. }
    unfold uint32_memory. cbv zeta. rewrite M0, D1, D2, D3.
    replace ((b3 * 65536 + b2 * 256 + b1) mod 256) with b1
      by (apply Z.mod_unique with (q := b3 * 256 + b2); lia).
    replace ((b3 * 256 + b2) mod 256) with b2
      by (apply Z.mod_unique with (q := b3); lia).
    rewrite (Z.mod_small b3) by lia.
    destruct (little_endian os); reflexivity.
  - (* version 6 *)
    unfold CopyTo, bytes, size. cbn [version_ bytes_]. unfold kV6Size.
    rewrite Hu. cbn [Nat.leb].
    eexists. split; [reflexivity|]. split; [reflexivity|].
    rewrite skipn_all2 by lia. apply app_nil_r.
Qed.

Lemma ToQuicheIpAddress_bytes_witness :
  exists q,
    ToQuicheIpAddress (repeat 255 16) (IPAddress_v4 192 168 0 1) = Some q /\
    match q with
    | QuicheV4 w =>
        IsV4 (IPAddress_v4 192 168 0 1) = true /\ 0 <= w < 4294967296 /\
        uint32_memory posix_lo w =
          (if little_endian posix_lo then bytes (IPAddress_v4 192 168 0 1)
           else rev (bytes (IPAddress_v4 192 168 0 1)))
    | QuicheV6 b =>
        IsV6 (IPAddress_v4 192 168 0 1) = true /\
        b = bytes (IPAddress_v4 192 168 0 1)
    | QuicheUninitialized => False
    end.
Proof.
  apply (ToQuicheIpAddress_bytes posix_lo (repeat 255 16)
           (IPAddress_v4 192 168 0 1)).
  - split; [reflexivity|]. split.
    + apply is_byte_dec_true. reflexivity.
    + split; [simpl; lia | reflexivity].
  - reflexivity.
Defined.

(** ** The address argument of the standalone sender *)

Lemma find_char_app :
  forall c pre rest,
    ~ In c pre ->
    find [c] (pre ++ rest) = option_map (Nat.add (length pre)) (find [c] rest).
Proof.
  intros c. induction pre as [|x pre IH]; intros rest Hno.
  - cbn [app length]. destruct (find [c] rest); reflexivity.
  - cbn [app find starts_with length].
    destruct (Ascii.eqb_spec c x) as [E|E].
    + exfalso. apply Hno. left. symmetry. exact E.
    + cbn [andb]. rewrite IH by (intros H; apply Hno; right; exact H).
      destruct (find [c] rest); reflexivity.
Qed.

Lemma expanded_chars :
  forall t hextets,
    scan_values ":"%char 16 UINT16_MAX 8 0 (ExpandIPv6DoubleColon t) =
      Some (hextets, []) ->
    t <> [] /\ Forall (fun c => c = ":"%char \/ is_digit_of 16 c = true) t.
Proof.
  intros t hextets Hscan.
  destruct (scan_eight_groups _ _ Hscan) as [G [Hlen [Hall [Hjoin _]]]].
  pose proof (join_colon_chars G Hall) as Hchars. rewrite <- Hjoin in Hchars.
  assert (Hne : ExpandIPv6DoubleColon t <> []).
  { rewrite Hjoin. destruct G as [|g G]; [discriminate Hlen|].
    inversion Hall as [|? ? Hg _]; subst.
    pose proof (join_colon_length_pos g G Hg) as Hpos.
    intros E. rewrite E in Hpos. cbn [length] in Hpos. lia. }
  destruct (find kDoubleColon t) as [p|] eqn:Ef.
  - destruct (find_split _ _ _ Ef) as [Hs Hp].
    set (P := firstn p t) in *.
    set (R := skipn (p + length kDoubleColon) t) in *.
    assert (Ef' : find kDoubleColon (P ++ kDoubleColon ++ R) =
                  Some (length P)) by (rewrite <- Hs, Hp; exact Ef).
    destruct (expand_form P R Ef') as [He|[zeros He]];
      rewrite <- Hs in He; [contradiction|].
    rewrite He in Hchars. split.
    + rewrite Hs. destruct P; discriminate.
    + rewrite Hs. apply Forall_app. split; [|apply Forall_app; split].
      * destruct P as [|c P']; [constructor|].
        apply Forall_app in Hchars. destruct Hchars as [Hchars _].
        apply Forall_app in Hchars. apply Hchars.
      * repeat constructor.
      * destruct R as [|d R']; [constructor|].
        apply Forall_app in Hchars. destruct Hchars as [_ Hchars].
        apply Forall_app in Hchars. destruct Hchars as [_ Hchars].
        inversion Hchars. assumption.
  - unfold ExpandIPv6DoubleColon in *. rewrite Ef in *.
    split; assumption.
Qed.

Lemma ParseV6_address_part :
  forall os s a,
    ParseV6 os s = Value a ->
    address_part s <> [] /\
    Forall (fun c => c = ":"%char \/ is_digit_of 16 c = true) (address_part s).
Proof.
  intros os s a. unfold ParseV6, address_part. cbv zeta.
  destruct (find (lit "%") s) as [p|].
  - destruct (parse_scope_id os (substr_from s (p + 1)) =? 0);
      [discriminate|].
    destruct (scan_values ":"%char 16 UINT16_MAX 8 0 _)
      as [[hextets [|c rest]]|] eqn:E; try discriminate.
    intros _. exact (expanded_chars _ _ E).
  - destruct (scan_values ":"%char 16 UINT16_MAX 8 0 _)
      as [[hextets [|c rest]]|] eqn:E; try discriminate.
    intros _. exact (expanded_chars _ _ E).
Qed.

Lemma ParseV4_has_dot :
  forall q a, ParseV4 q = Value a -> q <> [] /\ In "."%char q.
Proof.
  intros q a. unfold ParseV4.
  destruct (scan_values "."%char 10 UINT8_MAX 4 0 q) as [[vs rest]|] eqn:E;
    [|discriminate].
  intros _.
  destruct (scan_values_first _ _ _ _ _ _ _ E)
    as [g [groups [Hlen [Hall [Hs _]]]]].
  destruct groups as [|g1 groups]; [discriminate Hlen|].
  inversion Hall as [|? ? [Hg _] _]; subst. split.
  - destruct g; [congruence | discriminate].
  - apply in_or_app. right. unfold sep_groups. cbn [map concat app].
    left. reflexivity.
Qed.

Lemma rfind_char_none :
  forall c s, ~ In c s -> rfind [c] s = None.
Proof.
  intros c s Hno. apply rfind_none, find_char_none, Hno.
Qed.

Lemma Parse_not_endpoint :
  forall os s a,
    Parse os s = Value a -> is_value (IPEndpoint_Parse os s) = false.
Proof.
  intros os s a H.
  destruct (IPEndpoint_Parse os s) as [e|err] eqn:Ee; [|reflexivity].
  exfalso.
  destruct (IPEndpoint_Parse_value os s e Ee)
    as [colon_pos [Hr [Hpos [Haddr _]]]].
  unfold Parse in H. destruct (ParseV4 s) as [a4|e4] eqn:E4.
  - (* a text of version 4 has no colon *)
    pose proof (ParseV4_chars s a4 E4) as Hchars.
    assert (Hno : ~ In ":"%char s).
    { intros Hin. rewrite forallb_forall in Hchars.
      specialize (Hchars _ Hin). discriminate Hchars. }
    change (lit ":") with [":"%char] in Hr.
    rewrite (rfind_char_none _ _ Hno) in Hr. discriminate Hr.
  - (* a text of version 6 *)
    destruct (ParseV6_address_part os s a H) as [Hne Hchars].
    assert (Hprefix : exists rest, s = address_part s ++ rest).
    { unfold address_part. destruct (find (lit "%") s) as [p|].
      - exists (skipn p s). unfold substr. cbn [skipn].
        symmetry. apply firstn_skipn.
      - exists []. symmetry. apply app_nil_r. }
    destruct Hprefix as [rest Hs].
    destruct (address_part s) as [|c t] eqn:Et; [congruence|].
    assert (Hc0 : char_at s 0 = c) by (rewrite Hs; reflexivity).
    assert (Hc : c = ":"%char \/ is_digit_of 16 c = true)
      by (inversion Hchars; assumption).
    assert (Hnb : Ascii.eqb (char_at s 0) "["%char = false).
    { rewrite Hc0. destruct (Ascii.eqb_spec c "["%char) as [->|]; [|reflexivity].
      destruct Hc as [Hc|Hc]; discriminate Hc. }
    rewrite Hnb in Haddr. cbn [andb] in Haddr.
    destruct (ParseV4_has_dot _ _ Haddr) as [_ Hdot].
    pose proof (ParseV4_chars _ _ Haddr) as Hq.
    assert (Hin : In "."%char (c :: t)).
    { rewrite <- Et. unfold address_part.
      unfold substr in Hdot, Hq. cbn [skipn] in Hdot, Hq.
      assert (Hnop : ~ In "%"%char (firstn colon_pos s)).
      { intros Hp. rewrite forallb_forall in Hq.
        specialize (Hq _ Hp). discriminate Hq. }
      remember (firstn colon_pos s) as q eqn:Eq.
      remember (skipn colon_pos s) as r eqn:Er.
      assert (Hqr : s = q ++ r)
        by (rewrite Eq, Er; symmetry; apply firstn_skipn).
      rewrite Hqr. change (lit "%") with ["%"%char].
      rewrite (find_char_app _ _ _ Hnop).
      destruct (find ["%"%char] r) as [p'|]; cbn [option_map].
      - unfold substr. cbn [skipn]. rewrite firstn_app.
        apply in_or_app. left. rewrite firstn_all2 by lia. exact Hdot.
      - apply in_or_app. left. exact Hdot. }
    rewrite Forall_forall in Hchars.
    destruct (Hchars _ Hin) as [E|E]; discriminate E.
Qed.

(** [X13] The address argument of the sender.  A text that
    [IPAddress::Parse] accepts is never accepted by [IPEndpoint::Parse],
    so an address without a port gives that address with the default
    port; a text that [IPEndpoint::Parse] accepts gives that endpoint;
    any other text gives the default address with port 0.  With a default
    port that is not 0, the port of the result is 0 only for a text that
    is no address and no endpoint, or an endpoint written with the port
    0. *)
Theorem ParseAsEndpoint_result :
  forall os kDefaultCastPort s,
    (forall a,
       Parse os s = Value a ->
       is_value (IPEndpoint_Parse os s) = false /\
       ParseAsEndpoint os kDefaultCastPort s =
         {| address := a; port := kDefaultCastPort |}) /\
    (forall e,
       IPEndpoint_Parse os s = Value e ->
       is_value (Parse os s) = false /\
       ParseAsEndpoint os kDefaultCastPort s = e) /\
    (is_value (Parse os s) = false ->
     is_value (IPEndpoint_Parse os s) = false ->
     ParseAsEndpoint os kDefaultCastPort s =
       {| address := IPAddress_default; port := 0 |}) /\
    (kDefaultCastPort <> 0 ->
     port (ParseAsEndpoint os kDefaultCastPort s) = 0 ->
     is_value (Parse os s) = false /\
     forall e, IPEndpoint_Parse os s = Value e -> port e = 0).
Proof.
  intros os kDefaultCastPort s. unfold ParseAsEndpoint.
  split; [|split; [|split]].
  - intros a Ha. pose proof (Parse_not_endpoint os s a Ha) as Hno.
    split; [exact Hno|].
    destruct (IPEndpoint_Parse os s); [discriminate Hno|].
    rewrite Ha. reflexivity.
  - intros e He. split; [|rewrite He; reflexivity].
    destruct (Parse os s) as [a|] eqn:Ea; [|reflexivity].
    pose proof (Parse_not_endpoint os s a Ea) as Hno.
    rewrite He in Hno. discriminate Hno.
  - intros Ha He.
    destruct (IPEndpoint_Parse os s); [discriminate He|].
    destruct (Parse os s); [discriminate Ha|]. reflexivity.
  - intros Hport H.
    destruct (Parse os s) as [a|err] eqn:Ea.
    + pose proof (Parse_not_endpoint os s a Ea) as Hno.
      destruct (IPEndpoint_Parse os s) as [e0|err0]; [discriminate Hno|].
      cbn [port] in H. contradiction.
    + split; [reflexivity|]. intros e1 He. rewrite He in H. exact H.
Qed.

Lemma ParseAsEndpoint_result_witness :
  ParseAsEndpoint posix_lo 8010 (lit "fe80::1%lo0") =
  {| address := IPAddress_scoped ([254; 128] ++ repeat 0 13 ++ [1]) 1;
     port := 8010 |}.
Proof.
  destruct (ParseAsEndpoint_result posix_lo 8010 (lit "fe80::1%lo0"))
    as [Haddr _].
  apply (Haddr (IPAddress_scoped ([254; 128] ++ repeat 0 13 ++ [1]) 1)).
  reflexivity.
Defined.

(** ** The texts that are endpoints *)

Lemma rfind_none_not_in :
  forall c s, rfind [c] s = None -> ~ In c s.
Proof.
  intros c. induction s as [|x s IH]; intros H Hin; [exact Hin|].
  cbn [rfind] in H. destruct (rfind [c] s) as [i|]; [discriminate H|].
  cbn [starts_with] in H.
  destruct (Ascii.eqb_spec c x) as [E|E]; [discriminate H|].
  destruct Hin as [Hin|Hin]; [apply E; symmetry; exact Hin|].
  exact (IH eq_refl Hin).
Qed.

Lemma rfind_char_split :
  forall c s p,
    rfind [c] s = Some p ->
    s = firstn p s ++ c :: skipn (S p) s /\ ~ In c (skipn (S p) s) /\
    length (firstn p s) = p.
Proof.
  intros c. induction s as [|x s IH]; intros p H; [discriminate H|].
  cbn [rfind] in H. destruct (rfind [c] s) as [i|] eqn:Ei.
  - injection H as <-. destruct (IH i eq_refl) as [Hs [Hno Hl]].
    cbn [firstn skipn app length]. split; [f_equal; exact Hs|].
    split; [exact Hno | congruence].
  - destruct (starts_with [c] (x :: s)) eqn:Ec; [|discriminate H].
    injection H as <-. apply starts_with_char in Ec.
    destruct Ec as [s' Ec]. injection Ec as -> ->.
    cbn [firstn skipn app length]. split; [reflexivity|].
    split; [exact (rfind_none_not_in _ _ Ei) | reflexivity].
Qed.

Lemma digits_value_zero :
  forall ds,
    Forall (fun d => 0 <= d) ds -> digits_value 10 ds <= 0 ->
    digits_value 10 ds = 0.
Proof.
  intros ds Hds Hle.
  pose proof (digits_value_nonneg 10 ds) as Hnn.
  assert (0 <= digits_value 10 ds); [|lia].
  apply Hnn; [lia | exact Hds].
Qed.

Lemma group_value_nonneg :
  forall base g, 0 <= base -> 0 <= group_value base g.
Proof.
  intros base g Hb. unfold group_value. apply digits_value_nonneg; [exact Hb|].
  induction g as [|c g IH]; cbn [map]; constructor; [|exact IH].
  destruct (digit_in base c) as [d|] eqn:E; [|lia].
  apply digit_in_nonneg in E. lia.
Qed.

Lemma digits_no_char_signed :
  forall P,
    fc_ec (from_chars_signed 10 INT_MIN INT_MAX P 0) = errc_ok ->
    fc_rest (from_chars_signed 10 INT_MIN INT_MAX P 0) = [] ->
    ~ In ":"%char P.
Proof.
  intros P Hec Hrest Hin.
  pose proof (from_chars_signed_ok P 0 Hec Hrest) as Hchars.
  rewrite forallb_forall in Hchars. specialize (Hchars _ Hin).
  discriminate Hchars.
Qed.

(** The result of [std::from_chars] on the port text, when the whole text
    is read and the value is a port. *)
Lemma from_chars_port :
  forall P n,
    (fc_ec (from_chars_signed 10 INT_MIN INT_MAX P 0) = errc_ok /\
     fc_rest (from_chars_signed 10 INT_MIN INT_MAX P 0) = [] /\
     fc_value (from_chars_signed 10 INT_MIN INT_MAX P 0) = n /\
     0 <= n <= UINT16_MAX) <->
    port_text P n.
Proof.
  intros P n.
  assert (Hminus : digit_in 10 "-"%char = None) by reflexivity.
  assert (Unsigned :
            (fc_ec (from_chars_unsigned 10 INT_MAX P 0) = errc_ok /\
             fc_rest (from_chars_unsigned 10 INT_MAX P 0) = [] /\
             fc_value (from_chars_unsigned 10 INT_MAX P 0) = n /\
             0 <= n <= UINT16_MAX) <->
            (group_text 10 UINT16_MAX P /\ n = group_value 10 P)).
  { split.
    - intros [Hec [Hrest [Hv Hn]]].
      destruct (from_chars_unsigned_group 10 INT_MAX P 0 Hec)
        as [g [Hs [[Hne [Hd _]] Hval]]].
      rewrite Hrest, app_nil_r in Hs. subst g.
      split; [|congruence].
      split; [exact Hne|]. split; [exact Hd|]. rewrite <- Hval, Hv. lia.
    - intros [[Hne [Hd Hmax]] ->].
      assert (Hg : group_text 10 INT_MAX P).
      { split; [exact Hne|]. split; [exact Hd|].
        unfold UINT16_MAX, INT_MAX in *. lia. }
      pose proof (from_chars_unsigned_of_group 10 INT_MAX P [] 0 Hg I) as H.
      rewrite app_nil_r in H. rewrite H. cbn [fc_ec fc_rest fc_value].
      repeat split; try assumption.
      apply group_value_nonneg. lia. }
  unfold from_chars_signed, port_text.
  destruct P as [|c P'].
  { rewrite Unsigned. split; [intros H; left; exact H|].
    intros [H|[zeros [H _]]]; [exact H | discriminate H]. }
  destruct (Ascii.eqb_spec c "-"%char) as [->|Hc].
  - (* a minus sign *)
    destruct (span_digits 10 P') as [ds rest] eqn:Es.
    destruct (span_digits_split _ _ _ _ Es) as [pre [Hs [Hm Hrest]]].
    pose proof (span_digits_nonneg _ _ _ _ Es) as Hnn.
    pose proof (group_value_digits _ _ _ Hm) as Hv.
    split.
    + intros [Hec [Hr [Hval Hn]]]. right. exists P'.
      split; [reflexivity|].
      destruct ds as [|d ds]; [discriminate Hec|].
      destruct (Z.leb_spec INT_MIN (- digits_value 10 (d :: ds)));
        [|discriminate Hec].
      cbn [fc_ec fc_rest fc_value] in *. subst rest.
      rewrite app_nil_r in Hs. subst pre.
      pose proof (digits_value_nonneg 10 (d :: ds) ltac:(lia) Hnn).
      split; [|lia]. split; [intros ->; discriminate Hm|].
      split; [exact (digits_are_digits _ _ _ Hm)|]. rewrite <- Hv. lia.
    + intros [[[_ [Hd _]] _]|[zeros [Hz [[Hne [Hd Hmax]] ->]]]].
      { cbn [forallb] in Hd. apply andb_true_iff in Hd.
        destruct Hd as [Hd _]. discriminate Hd. }
      injection Hz as <-.
      destruct (span_digits_digits 10 P' [] Hd I) as [ds' [Hs' Hm']].
      rewrite app_nil_r in Hs'. rewrite Es in Hs'. injection Hs' as Hds Hr.
      subst rest ds'. rewrite app_nil_r in Hs. subst pre.
      pose proof (group_value_nonneg 10 P' ltac:(lia)) as Hge.
      destruct ds as [|d ds].
      { destruct P'; [congruence | discriminate Hm']. }
      rewrite Hv.
      destruct (Z.leb_spec INT_MIN (- group_value 10 P')) as [_|Hlt];
        [|unfold INT_MIN in Hlt; lia].
      cbn [fc_ec fc_rest fc_value]. unfold UINT16_MAX.
      repeat split; lia.
  - rewrite Unsigned. split; [intros H; left; exact H|].
    intros [H|[zeros [H _]]]; [exact H|].
    injection H as H _. contradiction.
Qed.

(** [X14] The texts [IPEndpoint::Parse] accepts: an address part, a
    colon and a port part without a colon, where the port part is a
    decimal number of at most 65535 or a minus sign and a decimal number
    of value 0, and the address part is a text the version 4 parser
    accepts, or a text the version 6 parser accepts (a zone suffix
    included) between '[' and ']'.  The endpoint returned has the parsed
    address and the value of the port part. *)
Theorem IPEndpoint_Parse_accepts :
  forall os s e,
    IPEndpoint_Parse os s = Value e <->
    exists A P,
      s = A ++ ":"%char :: P /\ port_text P (port e) /\
      (ParseV4 A = Value (address e) \/
       exists T,
         A = "["%char :: T ++ ["]"%char] /\ ParseV6 os T = Value (address e)).
Proof.
  intros os s e. split.
  - intros He.
    destruct (IPEndpoint_Parse_value os s e He)
      as [colon_pos [Hr [Hpos [Haddr Hport]]]].
    change (lit ":") with [":"%char] in Hr.
    destruct (rfind_char_split _ _ _ Hr) as [Hs [Hno Hl]].
    set (A := firstn colon_pos s) in *.
    set (P := skipn (S colon_pos) s) in *.
    assert (HA : A <> []) by (intros E; rewrite E in Hl; cbn in Hl; lia).
    assert (HP : P <> []).
    { intros E. apply (f_equal (@length ascii)) in Hs.
      rewrite length_app, E, Hl in Hs. cbn [length] in Hs. lia. }
    exists A, P. split; [exact Hs|].
    rewrite Hs, (IPEndpoint_Parse_split os A P HA HP Hno) in He.
    destruct (if Ascii.eqb (char_at A 0) "["%char &&
                 Ascii.eqb (char_at A (length A - 1)) "]"%char
              then ParseV6 os (substr A 1 (length A - 2))
              else ParseV4 A) as [a|err] eqn:Ea; [|discriminate He].
    cbv zeta in He.
    destruct (fc_ec (from_chars_signed 10 INT_MIN INT_MAX P 0)) eqn:Eec;
      try discriminate He.
    destruct (fc_rest (from_chars_signed 10 INT_MIN INT_MAX P 0)) eqn:Erest;
      [|discriminate He].
    destruct (Z.ltb_spec (fc_value (from_chars_signed 10 INT_MIN INT_MAX P 0)) 0)
      as [|Hlo]; [discriminate He|].
    destruct (Z.ltb_spec UINT16_MAX
                (fc_value (from_chars_signed 10 INT_MIN INT_MAX P 0)))
      as [|Hhi]; [discriminate He|].
    cbn [orb] in He. injection He as <-. cbn [address port].
    split.
    { apply from_chars_port. repeat split; assumption. }
    destruct (Ascii.eqb_spec (char_at A 0) "["%char) as [E0|E0];
      [|left; exact Ea].
    destruct (Ascii.eqb_spec (char_at A (length A - 1)) "]"%char) as [E1|E1];
      [|left; exact Ea].
    cbn [andb] in Ea. right. exists (substr A 1 (length A - 2)).
    split; [|exact Ea].
    clear -E0 E1 HA. destruct A as [|c A]; [congruence|].
    unfold char_at in *. cbn [nth] in E0. subst c.
    cbn [length] in *.
    replace (S (length A) - 1)%nat with (length A) in E1 by lia.
    destruct A as [|x A]; [discriminate E1|].
    unfold substr. cbn [skipn length]. f_equal.
    replace (S (S (length A)) - 2)%nat with (length A) by lia.
    cbn [nth] in E1.
    assert (Hlast : forall (l : str) y,
              nth (length l) (y :: l) zero = "]"%char ->
              y :: l = firstn (length l) (y :: l) ++ ["]"%char]).
    { induction l as [|z l IH]; intros y H.
      - cbn in H. subst y. reflexivity.
      - cbn [length nth] in H. cbn [length firstn app]. f_equal.
        apply IH. exact H. }
    apply Hlast. exact E1.
  - intros [A [P [-> [Hport Haddr]]]].
    apply from_chars_port in Hport.
    destruct Hport as [Hec [Hrest [Hv Hn]]].
    assert (HP : P <> []).
    { intros ->. discriminate Hec. }
    assert (Hno : ~ In ":"%char P).
    { apply (digits_no_char_signed P); assumption. }
    assert (HA : A <> []).
    { destruct Haddr as [H4|[T [-> _]]]; [|discriminate].
      destruct (ParseV4_has_dot _ _ H4) as [Hne _]. exact Hne. }
    rewrite (IPEndpoint_Parse_split os A P HA HP Hno).
    assert (Ha : (if Ascii.eqb (char_at A 0) "["%char &&
                     Ascii.eqb (char_at A (length A - 1)) "]"%char
                  then ParseV6 os (substr A 1 (length A - 2))
                  else ParseV4 A) = Value (address e)).
    { destruct Haddr as [H4|[T [-> H6]]].
      - pose proof (ParseV4_chars _ _ H4) as Hchars.
        destruct A as [|c A]; [congruence|].
        cbn [forallb] in Hchars. apply andb_true_iff in Hchars.
        destruct Hchars as [Hc _]. unfold char_at at 1. cbn [nth].
        destruct (Ascii.eqb_spec c "["%char) as [->|_];
          [discriminate Hc | exact H4].
      - unfold char_at. cbn [nth length]. rewrite Ascii.eqb_refl.
        rewrite length_app. cbn [length andb].
        replace (S (length T + 1) - 1)%nat with (S (length T)) by lia.
        cbn [nth]. rewrite app_nth2 by lia. rewrite Nat.sub_diag.
        cbn [nth]. rewrite Ascii.eqb_refl.
        unfold substr. cbn [skipn].
        replace (S (length T + 1) - 2)%nat with (length T) by lia.
        rewrite firstn_app, Nat.sub_diag, firstn_all. cbn [firstn].
        rewrite app_nil_r. exact H6. }
    rewrite Ha. cbv zeta. rewrite Hec, Hrest, Hv.
    destruct (Z.ltb_spec (port e) 0); [lia|].
    destruct (Z.ltb_spec UINT16_MAX (port e)); [lia|].
    destruct e; reflexivity.
Qed.

Lemma IPEndpoint_Parse_accepts_witness :
  IPEndpoint_Parse posix_lo (lit "[fe80::1%lo0]:0443") =
  Value {| address := IPAddress_scoped ([254; 128] ++ repeat 0 13 ++ [1]) 1;
           port := 443 |}.
Proof.
  apply (proj2 (IPEndpoint_Parse_accepts posix_lo (lit "[fe80::1%lo0]:0443")
                  {| address :=
                       IPAddress_scoped ([254; 128] ++ repeat 0 13 ++ [1]) 1;
                     port := 443 |})).
  exists (lit "[fe80::1%lo0]"), (lit "0443"). split; [reflexivity|]. split.
  - left. split; [|reflexivity].
    split; [discriminate|]. split; [reflexivity|]. vm_compute. discriminate.
  - right. exists (lit "fe80::1%lo0"). split; reflexivity.
Defined.

(** ** What the walk over the interface list keeps *)

Lemma subnet_of_adds :
  forall os results i cur addr s,
    subnet_of os cur addr s ->
    add_record_address os results i cur addr =
    Some (update_at i (add_address s) results).
Proof.
  intros os results i cur addr [ip len] [Hl H]. unfold add_record_address.
  destruct (Z.eqb_spec (sa_family addr) (AF_LINK os)); [contradiction|].
  destruct H as [[H6 [Hret [Hflag [sa [-> [Hip Hp]]]]]]
                |[H6 [H4 [sa [-> [Hip Hp]]]]]];
    cbn [subnet_address prefix_length] in *.
  - destruct (Z.eqb_spec (sa_family (SockaddrIn6 sa)) (AF_INET6 os));
      [|contradiction].
    destruct (ioctl_SIOCGIFAFLAG_IN6 os _ (SockaddrIn6 sa)) as [ret flags].
    cbn [fst snd] in *. subst ret. rewrite Hflag. cbn [Z.eqb negb orb].
    cbn [as_sockaddr_in6]. rewrite Hp, Hip. reflexivity.
  - destruct (Z.eqb_spec (sa_family (SockaddrIn sa)) (AF_INET6 os));
      [contradiction|].
    destruct (Z.eqb_spec (sa_family (SockaddrIn sa)) (AF_INET os));
      [|contradiction].
    cbn [as_sockaddr_in]. rewrite Hip, Hp. reflexivity.
Qed.

Lemma update_at_keeps :
  forall f i results info,
    In info results ->
    In info (update_at i f results) \/ In (f info) (update_at i f results).
Proof.
  intros f i results info. revert i.
  induction results as [|x rest IH]; intros [|i] H; cbn [update_at];
    try contradiction.
  - destruct H as [->|H]; [right; left; reflexivity | left; right; exact H].
  - destruct H as [->|H]; [left; left; reflexivity|].
    destruct (IH i H) as [H'|H']; [left | right]; right; exact H'.
Qed.

Lemma update_at_nth :
  forall f i results info,
    nth_error results i = Some info -> In (f info) (update_at i f results).
Proof.
  intros f i results info. revert i.
  induction results as [|x rest IH]; intros [|i] H; cbn [update_at];
    try discriminate H.
  - injection H as ->. left. reflexivity.
  - right. exact (IH i H).
Qed.

Lemma keeps_add_record_address :
  forall os results i cur addr results' n ss,
    keeps n ss results ->
    add_record_address os results i cur addr = Some results' ->
    keeps n ss results'.
Proof.
  intros os results i cur addr results' n ss [info [Hin [Hn Hss]]] Hadd.
  destruct (add_record_address_cases _ _ _ _ _ _ Hadd)
    as [->|[[hw [-> _]]|[s [-> _]]]].
  - exists info. repeat split; assumption.
  - destruct (update_at_keeps (set_hardware_address hw) i results info Hin)
      as [H|H].
    + exists info. repeat split; assumption.
    + exists (set_hardware_address hw info). repeat split; assumption.
  - destruct (update_at_keeps (add_address s) i results info Hin) as [H|H].
    + exists info. repeat split; assumption.
    + exists (add_address s info). split; [exact H|]. split; [exact Hn|].
      cbn [add_address addresses]. apply incl_appl. exact Hss.
Qed.

Lemma keeps_process_record :
  forall os results cur results' n ss,
    keeps n ss results ->
    process_record os results cur = Some results' ->
    keeps n ss results'.
Proof.
  intros os results cur results' n ss Hk. unfold process_record.
  destruct (negb (flag_set (ifa_flags cur) (IFF_RUNNING os)) ||
            negb (has_addr cur)).
  { intros H. injection H as <-. exact Hk. }
  destruct (ifa_addr cur) as [addr|].
  2:{ intros H. injection H as <-. exact Hk. }
  destruct (find_interface (ifa_name cur) results) as [i|].
  - apply keeps_add_record_address. exact Hk.
  - destruct (classify os cur) as [ty|].
    2:{ intros H. injection H as <-. exact Hk. }
    cbv zeta. apply keeps_add_record_address.
    destruct Hk as [info [Hin H]]. exists info.
    split; [apply in_or_app; left; exact Hin | exact H].
Qed.

Lemma keeps_process_records :
  forall os interfaces results results' n ss,
    keeps n ss results ->
    process_records os results interfaces = Some results' ->
    keeps n ss results'.
Proof.
  intros os. induction interfaces as [|cur next IH];
    intros results results' n ss Hk H.
  - cbn [process_records] in H. injection H as <-. exact Hk.
  - cbn [process_records] in H.
    destruct (process_record os results cur) as [r|] eqn:E; [|discriminate H].
    exact (IH _ _ _ _ (keeps_process_record _ _ _ _ _ _ Hk E) H).
Qed.

Lemma keeps_added :
  forall os results i cur addr results' info,
    nth_error results i = Some info -> name info = ifa_name cur ->
    add_record_address os results i cur addr = Some results' ->
    keeps (ifa_name cur) [] results' /\
    forall s, subnet_of os cur addr s -> keeps (ifa_name cur) [s] results'.
Proof.
  intros os results i cur addr results' info Hnth Hname Hadd. split.
  - apply (keeps_add_record_address _ _ _ _ _ _ _ _
             (ex_intro _ info (conj (nth_error_In _ _ Hnth)
                                    (conj Hname (incl_nil_l _)))) Hadd).
  - intros s Hs. rewrite (subnet_of_adds _ results i _ _ _ Hs) in Hadd.
    injection Hadd as <-. exists (add_address s info).
    split; [exact (update_at_nth _ _ _ _ Hnth)|]. split; [exact Hname|].
    cbn [add_address addresses]. apply incl_appr, incl_refl.
Qed.

(** [X15] Nothing that qualifies is left out by [ProcessInterfacesList].
    When the walk ends without a failed check, every record of the list
    that is running, has an address and is given a type by the media
    query has an entry of its name in the result; and when the address is
    of family [AF_INET], or of family [AF_INET6] with flags that could be
    queried and are not deprecated, the entry lists the subnet read from
    the record. *)
Theorem ProcessInterfacesList_complete :
  forall os interfaces results cur addr,
    ProcessInterfacesList os interfaces = Some results ->
    In cur interfaces ->
    flag_set (ifa_flags cur) (IFF_RUNNING os) = true ->
    ifa_addr cur = Some addr ->
    classify os cur <> None ->
    keeps (ifa_name cur) [] results /\
    forall s, subnet_of os cur addr s -> keeps (ifa_name cur) [s] results.
Proof.
  intros os interfaces results cur addr H Hin Hrun Haddr Hclass.
  destruct (in_split _ _ Hin) as [before [after ->]].
  unfold ProcessInterfacesList in H. rewrite process_records_app in H.
  destruct (process_records os [] before) as [r1|]; [|discriminate H].
  cbn [process_records] in H.
  destruct (process_record os r1 cur) as [r2|] eqn:E; [|discriminate H].
  assert (Hhere : keeps (ifa_name cur) [] r2 /\
                  forall s, subnet_of os cur addr s ->
                            keeps (ifa_name cur) [s] r2).
  { unfold process_record in E. unfold has_addr in E.
    rewrite Hrun, Haddr in E. cbn [negb orb] in E.
    destruct (find_interface (ifa_name cur) r1) as [i|] eqn:Ef.
    - destruct (find_interface_some _ _ _ Ef) as [info [Hnth Hname]].
      exact (keeps_added _ _ _ _ _ _ _ Hnth Hname E).
    - destruct (classify os cur) as [ty|]; [|congruence].
      cbv zeta in E.
      refine (keeps_added _ _ _ _ _ _ (new_interface os cur ty) _ eq_refl E).
      rewrite nth_error_app2 by lia. rewrite Nat.sub_diag. reflexivity. }
  destruct Hhere as [Hentry Hsub]. split.
  - exact (keeps_process_records _ _ _ _ _ _ Hentry H).
  - intros s Hs. exact (keeps_process_records _ _ _ _ _ _ (Hsub s Hs) H).
Qed.

Lemma ProcessInterfacesList_complete_witness :
  keeps (lit "lo0") [loopback_v4_subnet] [loopback_v4_entry].
Proof.
  destruct (ProcessInterfacesList_complete posix_lo [loopback_v4_record]
              [loopback_v4_entry] loopback_v4_record
              (SockaddrIn {| sin_family := 2; sin_port := 0;
                             sin_addr := [127; 0; 0; 1];
                             sin_zero := repeat 0 8 |}))
    as [_ Hsub].
  - reflexivity.
  - left. reflexivity.
  - reflexivity.
  - reflexivity.
  - discriminate.
  - apply Hsub. split; [discriminate|]. right.
    split; [discriminate|]. split; [reflexivity|].
    eexists. split; [reflexivity|]. split; reflexivity.
Defined.

(** ** Texts written for equal addresses *)

Lemma IPAddress_eqb_join :
  forall a b c,
    IPAddress_eqb a c = true -> IPAddress_eqb b c = true ->
    IPAddress_eqb a b = true.
Proof.
  intros [va la sa] [vb lb sb] [vc lc sc]. unfold IPAddress_eqb, size.
  cbn [version_ bytes_ scope_id_]. intros Ha Hb.
  apply andb_true_iff in Ha. destruct Ha as [Ha Hsa].
  apply andb_true_iff in Ha. destruct Ha as [Hva Hla].
  apply andb_true_iff in Hb. destruct Hb as [Hb Hsb].
  apply andb_true_iff in Hb. destruct Hb as [Hvb Hlb].
  apply Z.eqb_eq in Hsa, Hsb. apply bytes_eqb_eq in Hla, Hlb.
  assert (va = vb) by (destruct va, vb, vc; try discriminate; reflexivity).
  subst vb. replace (Version_eqb va va) with true by (destruct va; reflexivity).
  rewrite Hla, <- Hlb, bytes_eqb_refl. cbn [andb]. apply Z.eqb_eq. congruence.
Qed.

Lemma IPAddress_print_eqb :
  forall os a b,
    IPAddress_eqb a b = true -> IPAddress_print os a = IPAddress_print os b.
Proof.
  intros os [va la sa] [vb lb sb]. unfold IPAddress_eqb, size.
  cbn [version_ bytes_ scope_id_]. intros H.
  apply andb_true_iff in H. destruct H as [H Hs].
  apply andb_true_iff in H. destruct H as [Hv Hl].
  apply Z.eqb_eq in Hs. apply bytes_eqb_eq in Hl. subst sb.
  assert (va = vb) by (destruct va, vb; try discriminate; reflexivity).
  subst vb. unfold IPAddress_print, bytes, size, GetScopeId.
  cbn [version_ bytes_ scope_id_ IsV4]. rewrite Hl.
  assert (Hll : IsLinkLocal {| version_ := va; bytes_ := la; scope_id_ := sa |} =
                IsLinkLocal {| version_ := va; bytes_ := lb; scope_id_ := sa |}).
  { unfold IsLinkLocal, IsV6. cbn [version_ bytes_].
    destruct va; cbn [Version_eqb negb]; [reflexivity|].
    unfold kV6Size in Hl.
    destruct la as [|x0 [|x1 la]]; destruct lb as [|y0 [|y1 lb]];
      cbn [firstn] in Hl; try discriminate Hl; try reflexivity;
      injection Hl; intros; subst; reflexivity. }
  rewrite Hll. reflexivity.
Qed.

(** [X16] The text written for an address and [operator==].  Two
    addresses that [operator==] finds equal are written as the same text.
    For addresses with the scope id 0, or that are link-local with the
    index of an interface whose name the platform gives and resolves back
    to that index, the converse holds: addresses written as the same text
    are equal, so the text identifies the address.  The text does not
    show the scope id of an address that is not link-local: such an
    address is written as the same address with the scope id 0. *)
Theorem IPAddress_print_identifies :
  forall os a b,
    (IPAddress_eqb a b = true ->
     IPAddress_print os a = IPAddress_print os b) /\
    (valid a -> valid b ->
     zone_reads_back os a -> zone_reads_back os b ->
     IPAddress_print os a = IPAddress_print os b ->
     IPAddress_eqb a b = true) /\
    (IsLinkLocal a = false ->
     IPAddress_print os a = IPAddress_print os (set_scope_id a 0)).
Proof.
  intros os a b. split; [apply IPAddress_print_eqb|].
  split; [|apply print_without_zone].
  intros Va Vb Za Zb Hprint.
  destruct (zone_reads_back_cases os a Za) as [Ia Sa].
  destruct (zone_reads_back_cases os b Zb) as [Ib Sb].
  destruct (print_parse_round_trip os a Va Ia Sa) as [a' [Pa Ea]].
  destruct (print_parse_round_trip os b Vb Ib Sb) as [b' [Pb Eb]].
  rewrite Hprint, Pb in Pa. injection Pa as <-.
  exact (IPAddress_eqb_join a b b' Ea Eb).
Qed.

Lemma IPAddress_print_identifies_witness :
  IPAddress_eqb
    {| version_ := kV4; bytes_ := [10; 0; 0; 1] ++ repeat 7 12;
       scope_id_ := 0 |}
    (IPAddress_v4 10 0 0 1) = true.
Proof.
  apply (proj1 (proj2 (IPAddress_print_identifies posix_lo
                         {| version_ := kV4;
                            bytes_ := [10; 0; 0; 1] ++ repeat 7 12;
                            scope_id_ := 0 |}
                         (IPAddress_v4 10 0 0 1)))).
  - split; [reflexivity|]. split.
    + apply is_byte_dec_true. reflexivity.
    + split; [simpl; lia | reflexivity].
  - split; [reflexivity|]. split.
    + apply is_byte_dec_true. reflexivity.
    + split; [simpl; lia | reflexivity].
  - left. reflexivity.
  - left. reflexivity.
  - reflexivity.
Defined.

(** ** The bytes copied out of an address and read again *)

(** [X17] [CopyTo] and the constructor from a span.  [CopyTo] fails its
    assertion exactly when the span is shorter than [size()]; otherwise it
    writes the [size()] bytes of the address to the front of the span and
    leaves the bytes behind them as they were.  The address made from the
    version and the span written has the same bytes, and is equal to the
    first one when that has the scope id 0 (the constructor sets none). *)
Theorem CopyTo_round_trip :
  forall a dst,
    valid a ->
    (CopyTo a dst = None <-> (length dst < size a)%nat) /\
    forall out,
      CopyTo a dst = Some out ->
      length out = length dst /\
      firstn (size a) out = bytes a /\
      skipn (size a) out = skipn (size a) dst /\
      exists a',
        IPAddress_from_span (version a) out = Some a' /\
        version a' = version a /\ bytes a' = bytes a /\
        (GetScopeId a = 0 -> IPAddress_eqb a a' = true).
Proof.
  intros a dst Hv.
  assert (Hsize : (size a <= 16)%nat)
    by (unfold size, kV4Size, kV6Size; destruct (version_ a); lia).
  pose proof (valid_firstn_length a (size a) Hv Hsize) as Hlen.
  unfold CopyTo. destruct (Nat.leb_spec (size a) (length dst)) as [Hle|Hlt].
  - split; [split; [discriminate | lia]|].
    intros out H. injection H as <-.
    assert (Hfront : firstn (size a)
                       (firstn (size a) (bytes_ a) ++ skipn (size a) dst) =
                     firstn (size a) (bytes_ a)).
    { rewrite firstn_app, Hlen, Nat.sub_diag. cbn [firstn].
      rewrite app_nil_r. apply firstn_all2. lia. }
    split; [|split; [|split]].
    + rewrite length_app, Hlen, length_skipn. lia.
    + exact Hfront.
    + rewrite skipn_app, Hlen, Nat.sub_diag. cbn [skipn].
      rewrite skipn_all2 by lia. reflexivity.
    + unfold IPAddress_from_span, IPAddress_of_span, version.
      fold (size a).
      assert (Hout : (size a <=?
                      length (firstn (size a) (bytes_ a) ++
                              skipn (size a) dst))%nat = true).
      { apply Nat.leb_le. rewrite length_app, Hlen. lia. }
      unfold size in Hout, Hfront, Hlen |- *. rewrite Hout.
      eexists. split; [reflexivity|]. split; [reflexivity|].
      split.
      * unfold bytes, size. cbn [version_ bytes_]. rewrite Hfront.
        rewrite firstn_app, Hlen, Nat.sub_diag. cbn [firstn].
        rewrite app_nil_r. apply firstn_all2. lia.
      * intros Hscope. unfold IPAddress_eqb, size, GetScopeId in *.
        cbn [version_ bytes_ scope_id_]. rewrite Hfront, Hscope.
        rewrite firstn_app, Hlen, Nat.sub_diag. cbn [firstn].
        rewrite app_nil_r, (firstn_all2 (firstn _ _)) by lia.
        rewrite bytes_eqb_refl. destruct (version_ a); reflexivity.
  - split; [split; [lia | reflexivity] | discriminate].
Qed.

Lemma CopyTo_round_trip_witness :
  CopyTo (IPAddress_v4 192 168 0 1) [9; 9; 9] = None.
Proof.
  destruct (CopyTo_round_trip (IPAddress_v4 192 168 0 1) [9; 9; 9])
    as [[_ Hshort] _].
  - split; [reflexivity|]. split.
    + apply is_byte_dec_true. reflexivity.
    + split; [simpl; lia | reflexivity].
  - apply Hshort. vm_compute. lia.
Defined.
